(** * Pomodoro timer: session state machine, cue synthesis and settings store

    A shallow embedding of the main package of the pomodoro-timer tray
    application.

    - Part I embeds the session state (the package-level variables
      [pomodoroCount], [isRunning], [isInPomodoro], [remainingTime],
      [stopCh], [oldDisplayText], [settings]), the click handlers and the
      countdown goroutine spawned by [startTimer].  Code that runs while
      [mu] is held is one atomic step; a goroutine is a control point in a
      table of processes, so every interleaving the mutex permits is a
      sequence of steps.
      The package-level [ticker] is added by a second machine over the
      first, at the end of the definitions.
    - Part II embeds [SineWave.Read], the byte layout of the short cue.
    - Part III embeds [loadSettings] and [saveSettings] over a model of the
      JSON text that [encoding/json] reads and writes, and with them
      [openSettingsEditor] and the handler of the sound checkbox.
    - Part IV embeds the ambient loop: [loopReader] over a [bytes.Reader],
      the decoding loop of [initMp3Player], and [playClockSound] and
      [stopClockSound] with the goroutine that closes the player.
    - Part V embeds the pixels of the tray icon: the base image of
      [initResources], [drawCircle] and the dot loop of
      [generateIconWithDots].
    - Part VI embeds [setAutoStart], [isAutoStartEnabled] and the handler of
      the start-up checkbox over a model of the registry key.
    - Part VII embeds the generator that prints the font as a Go array.

    The definitions of all parts come first, the facts about them
    follow. *)

From Stdlib Require Import ZArith String Ascii List Lia Bool.
From Stdlib Require Import DecimalString DecimalZ DecimalPos DecimalFacts.
From stdpp Require Import base list.

Local Open Scope string_scope.
Local Open Scope list_scope.
Local Open Scope Z_scope.

(** * Part I: the session state machine *)

(** ** Machine integers and durations *)

(** Go's [int] and [int64] on the 64-bit targets the program is built
    for: two's complement with silent wrap-around. *)
Definition wrap64 (z : Z) : Z := (z + 2 ^ 63) mod 2 ^ 64 - 2 ^ 63.

Definition maxInt64 : Z := 2 ^ 63 - 1.
Definition minInt64 : Z := - 2 ^ 63.

(** [time.Duration] is an [int64] count of nanoseconds. *)
Definition Second : Z := 1000000000.
Definition Minute : Z := 60 * Second.

(** [time.Duration(n) * time.Minute] *)
Definition minutes (n : Z) : Z := wrap64 (n * Minute).

(** [fmt.Sprintf("%d", n)] *)
Definition itoa (n : Z) : string := NilZero.string_of_int (Z.to_int n).

(** [int(d.Seconds())] and [int(d.Minutes())].  Go computes both through
    [float64]: the whole part [d / unit] plus the fraction
    [float64(d % unit) / unit], truncated by [int(...)].  On a duration
    that is a whole number of seconds the sum is exact and the truncation
    is the integer quotient below; statements that mention these two
    functions are made for such durations. *)
Definition secondsInt (d : Z) : Z := Z.quot d Second.
Definition minutesInt (d : Z) : Z := Z.quot d Minute.

(** [fmt.Sprintf("%02d", n)]: zero padding to width two, sign included. *)
Definition pad2 (n : Z) : string :=
  let s := itoa n in
  if (String.length s <? 2)%nat then ("0" ++ s)%string else s.

(** The glyph of the ready icon, U+25B6 in UTF-8. *)
Definition readyGlyph : string :=
  String (ascii_of_nat 226) (String (ascii_of_nat 150) (String (ascii_of_nat 182) "")).

(** ** Data *)

Record TimerSettings := mkSettings {
  PomodoroDuration : Z;
  ShortBreakDuration : Z;
  LongBreakDuration : Z;
  EnableClockSound : bool
}.

(** Calls into the tray shell and the audio engine, in program order.
    [SetIcon text dots] stands for
    [systray.SetIconFromMemory(generateIconWithDots(text, dots))]. *)
Inductive Event :=
  | SetTooltip (text : string)
  | SetIcon (text : string) (dots : Z)
  | PlayTickSound
  | PlayClockSound
  | StopClockSound.

(** Control points of the goroutine started by [startTimer].  The channel
    operands of [select] are evaluated once, on entry: a goroutine blocked
    there waits on the channel that [stopCh] named at that moment.  When
    that channel is closed the goroutine is woken for [case <-stopCh]; a
    tick reaches it only while the channel is open.  Between taking a tick
    and [mu.Lock()], and between [mu.Unlock()] and the next [select], the
    goroutine holds no lock, so a click handler can run in between. *)
Inductive Proc :=
  | AtLoop                 (* about to test [remainingTime > 0] *)
  | InSelect (stop : nat)  (* blocked in [select] on the ticker and on this channel *)
  | GotTick                (* took [<-ticker.C], next statement is [mu.Lock()] *)
  | Exited.

(** The package-level variables.  Channels live in a store [chans]
    (index = identity, value = closed?); [stopCh] holds an index. *)
Record State := mkState {
  pomodoroCount : Z;
  isRunning : bool;
  isInPomodoro : bool;
  remainingTime : Z;
  stopCh : nat;
  chans : list bool;
  oldDisplayText : string;
  settings : TimerSettings;
  procs : list Proc
}.

Definition setProc (g : nat) (p : Proc) (s : State) : State :=
  mkState (pomodoroCount s) (isRunning s) (isInPomodoro s) (remainingTime s)
          (stopCh s) (chans s) (oldDisplayText s) (settings s) (<[g := p]> (procs s)).

Definition setKind (b : bool) (s : State) : State :=
  mkState (pomodoroCount s) (isRunning s) b (remainingTime s)
          (stopCh s) (chans s) (oldDisplayText s) (settings s) (procs s).

Definition setSettings (st : TimerSettings) (s : State) : State :=
  mkState (pomodoroCount s) (isRunning s) (isInPomodoro s) (remainingTime s)
          (stopCh s) (chans s) (oldDisplayText s) st (procs s).

(** State of the process after [main] has run [stopCh = make(chan struct{})]
    and [loadSettings()]. *)
Definition initState (st : TimerSettings) : State :=
  mkState 0 false false 0 0%nat [false] "" st [].

(** Result of one atomic step. *)
Inductive Outcome :=
  | Next (s : State) (tr : list Event)
  | Blocked       (* the step is not enabled in this state *)
  | Panic.        (* [close] of a closed or nil channel *)

(** ** [startTimer] *)

(** The part of [startTimer] that runs in the caller: the two
    assignments, the ambient loop, and the [go] statement. *)
Definition startTimer (duration : Z) (s : State) : State * list Event :=
  (mkState (pomodoroCount s) true (isInPomodoro s) duration
           (stopCh s) (chans s) (oldDisplayText s) (settings s)
           (procs s ++ [AtLoop]),
   if isInPomodoro s && EnableClockSound (settings s) then [PlayClockSound] else []).

(** [pomodoroCount++; if pomodoroCount > 4 { pomodoroCount = 1 }] *)
Definition bump (c : Z) : Z :=
  let c1 := wrap64 (c + 1) in if 4 <? c1 then 1 else c1.

Definition displayText (r : Z) : string :=
  if r <? Minute then itoa (secondsInt r) else itoa (minutesInt r).

Definition tooltipText (r : Z) : string :=
  (pad2 (minutesInt r) ++ ":" ++ pad2 (Z.rem (secondsInt r) 60))%string.

(** The [case <-ticker.C] branch, from [mu.Lock()] to [mu.Unlock()]. *)
Definition tickBody (g : nat) (s : State) : State * list Event :=
  let r := wrap64 (remainingTime s - Second) in
  if r <=? 0 then
    let c := if isInPomodoro s then bump (pomodoroCount s) else pomodoroCount s in
    (mkState c false (isInPomodoro s) r (stopCh s) (chans s)
             (oldDisplayText s) (settings s) (<[g := Exited]> (procs s)),
     [SetTooltip (if isInPomodoro s
                  then "Finished pomodoro - Click to start break"
                  else "Finished break - Click to start pomodoro");
      SetIcon readyGlyph c;
      PlayTickSound;
      StopClockSound])
  else
    let text := displayText r in
    (mkState (pomodoroCount s) (isRunning s) (isInPomodoro s) r (stopCh s) (chans s)
             text (settings s) (<[g := AtLoop]> (procs s)),
     (if r <? 11 * Second then [PlayTickSound] else []) ++
     (if String.eqb text (oldDisplayText s) then [] else [SetIcon text (pomodoroCount s)]) ++
     [SetTooltip (tooltipText r)]).

(** ** Click handlers *)

(** [close(stopCh); stopCh = make(chan struct{}); isRunning = false] *)
Definition stopSignal (s : State) : option State :=
  match chans s !! stopCh s with
  | Some false =>
      Some (mkState (pomodoroCount s) false (isInPomodoro s) (remainingTime s)
                    (length (chans s)) (<[stopCh s := true]> (chans s) ++ [false])
                    (oldDisplayText s) (settings s) (procs s))
  | _ => None
  end.

Definition handleTimerClick (duration : Z) (s : State) : Outcome :=
  if isRunning s then
    match stopSignal s with
    | Some s1 => let '(s2, tr) := startTimer duration s1 in Next s2 tr
    | None => Panic
    end
  else let '(s2, tr) := startTimer duration s in Next s2 tr.

Definition handleTrayClick (s : State) : Outcome :=
  if isRunning s then
    match stopSignal s with
    | Some s1 =>
        Next s1 [SetIcon readyGlyph (pomodoroCount s);
                 SetTooltip (if isInPomodoro s
                             then "Pomodoro stopped - Click to start Break"
                             else "Break stopped - Click to start Pomodoro")]
    | None => Panic
    end
  else if isInPomodoro s then
    let breakDuration :=
      if pomodoroCount s =? 4
      then minutes (LongBreakDuration (settings s))
      else minutes (ShortBreakDuration (settings s)) in
    let '(s2, tr) := startTimer breakDuration (setKind false s) in Next s2 tr
  else
    let '(s2, tr) :=
      startTimer (minutes (PomodoroDuration (settings s))) (setKind true s) in
    Next s2 tr.

(** ** Steps

    The package-level [ticker] is not part of [State]: in [step] a tick
    can reach every goroutine that waits in [select] on an open stop
    channel, and the stop branch only ends the goroutine.  The machine
    with tickers further down ([timerStep]) adds the variable, the
    tickers and the [ticker.Stop()] calls; each of its steps is a step of
    [step] or leaves [State] alone ([timerStep_refines]), so [step] admits
    every run of that machine, and what holds in all reachable states of
    [step] holds in the reachable states of that machine too. *)

Inductive Action :=
  | ASetKind (focus : bool)          (* first critical section of a menu handler *)
  | AHandleTimerClick (duration : Z) (* second critical section of a menu handler *)
  | ATrayClick
  | ASetSettings (st : TimerSettings) (* sound toggle, settings editor *)
  | AEnter (g : nat)                 (* loop test and entry into [select] *)
  | ATick (g : nat)                  (* the ticker hands a tick to goroutine g *)
  | AStopped (g : nat)               (* goroutine g takes [case <-stopCh] *)
  | ABody (g : nat).                 (* goroutine g runs the locked body *)

Definition step (a : Action) (s : State) : Outcome :=
  match a with
  | ASetKind b => Next (setKind b s) []
  | AHandleTimerClick d => handleTimerClick d s
  | ATrayClick => handleTrayClick s
  | ASetSettings st => Next (setSettings st s) []
  | AEnter g =>
      match procs s !! g with
      | Some AtLoop =>
          if 0 <? remainingTime s
          then Next (setProc g (InSelect (stopCh s)) s) []
          else Next (setProc g Exited s) [StopClockSound]
      | _ => Blocked
      end
  | ATick g =>
      match procs s !! g with
      | Some (InSelect c) =>
          match chans s !! c with
          | Some false => Next (setProc g GotTick s) []
          | _ => Blocked
          end
      | _ => Blocked
      end
  | AStopped g =>
      match procs s !! g with
      | Some (InSelect c) =>
          match chans s !! c with
          | Some true => Next (setProc g Exited s) [StopClockSound]
          | _ => Blocked
          end
      | _ => Blocked
      end
  | ABody g =>
      match procs s !! g with
      | Some GotTick => let '(s1, tr) := tickBody g s in Next s1 tr
      | _ => Blocked
      end
  end.

(** A schedule is run step by step; the traces are concatenated. *)
Fixpoint run (acts : list Action) (s : State) : Outcome :=
  match acts with
  | [] => Next s []
  | a :: rest =>
      match step a s with
      | Next s1 tr1 =>
          match run rest s1 with
          | Next s2 tr2 => Next s2 (tr1 ++ tr2)
          | o => o
          end
      | o => o
      end
  end.

(** The menu items: [isInPomodoro] is set in one critical section, the
    timer is (re)started in the next one. *)
Definition Start (D : Z) (focus : bool) : list Action :=
  [ASetKind focus; AHandleTimerClick (minutes D)].

(** One natural tick of goroutine g: it enters [select], receives the
    tick, and runs the locked body. *)
Definition naturalTick (g : nat) : list Action := [AEnter g; ATick g; ABody g].

Definition naturalTicks (g : nat) (n : nat) : list Action :=
  concat (repeat (naturalTick g) n).


(** ** Observations on traces *)

Definition isBeep (e : Event) : bool :=
  match e with PlayTickSound => true | _ => false end.

Definition isReadyIcon (e : Event) : bool :=
  match e with SetIcon t _ => String.eqb t readyGlyph | _ => false end.

(** Number of calls of [playTickSound] in a trace. *)
Definition beeps (tr : list Event) : nat := length (List.filter isBeep tr).

(** Number of renders of the ready icon in a trace. *)
Definition readyRenders (tr : list Event) : nat :=
  length (List.filter isReadyIcon tr).

(** States the program can be in: any schedule run from the initial state. *)
Definition Reachable (s : State) : Prop :=
  exists st acts tr, run acts (initState st) = Next s tr.

(** The invariant carried along every schedule. *)
Definition Inv (s : State) : Prop :=
  chans s !! stopCh s = Some false /\ 0 <= pomodoroCount s <= 4.

(** Whether a string starts with an ASCII character.  Every [%d]
    rendering does (a sign or a digit); the ready glyph does not. *)
Definition asciiHead (s : string) : bool :=
  match s with
  | String c _ => (nat_of_ascii c <? 128)%nat
  | EmptyString => false
  end.

(** The built-in defaults of [loadSettings]. *)
Definition defaultSettings : TimerSettings := mkSettings 25 5 15 true.

(** A stop that changes nothing but [isRunning] and is neither seen nor
    heard: no ready icon, no beep. *)
Definition StopIsSilent (s : State) : Prop :=
  forall s' tr, step ATrayClick s = Next s' tr ->
    isRunning s' = false /\ pomodoroCount s' = pomodoroCount s /\
    readyRenders tr = 0%nat /\ beeps tr = 0%nat.

(** A focus countdown of 25 minutes, just started from the initial state. *)
Definition focusStarted : State :=
  mkState 0 true true (25 * Minute) 0 [false] "" defaultSettings [AtLoop].

(** What the terminal branch of the locked body emits, together with the
    deferred [stopClockSound()] of the exiting goroutine. *)
Definition completion (s : State) : list Event :=
  [SetTooltip (if isInPomodoro s
               then "Finished pomodoro - Click to start break"
               else "Finished break - Click to start pomodoro");
   SetIcon readyGlyph (if isInPomodoro s then bump (pomodoroCount s) else pomodoroCount s);
   PlayTickSound;
   StopClockSound].

(** [Start(D, Focus)] followed by [D*60] natural ticks of the goroutine it
    spawned ends in [s2] with trace [tr]: the countdown has stopped, the
    count went up by one (a value above 4 replaced by 1), the ready icon
    was rendered once, and the run ends with the terminal branch and its
    one completion beep. *)
Definition FocusCompletes (s : State) (D : Z) (s2 : State) (tr : list Event) : Prop :=
  exists s1 tr1 pre,
    run (Start D true) s = Next s1 tr1 /\
    run (naturalTicks (length (procs s)) (Z.to_nat (D * 60))) s1 = Next s2 tr /\
    tr = pre ++ completion s1 /\
    isRunning s2 = false /\
    pomodoroCount s2 = (if 4 <? pomodoroCount s + 1 then 1 else pomodoroCount s + 1) /\
    readyRenders tr = 1%nat /\
    readyRenders pre = 0%nat /\
    beeps (completion s1) = 1%nat.

(** The largest number of minutes that fits a [time.Duration]. *)
Definition maxMinutes : Z := 153722867.

(** A countdown goroutine holding a tick, with [k+1] seconds on the clock. *)
Definition tickPending (k : Z) : State :=
  mkState 0 true true ((k + 1) * Second) 0 [false] "" defaultSettings [GotTick].

(** A restart that meets a countdown goroutine between its tick and its
    [mu.Lock()]: a focus session is started, its goroutine enters [select]
    and takes a tick; the user starts a break before the goroutine gets the
    mutex; then the goroutine runs its locked body and loops. *)
Definition restartRace : list Action :=
  Start 25 true ++ [AEnter 0%nat; ATick 0%nat] ++ Start 5 false ++ [ABody 0%nat; AEnter 0%nat].

(** * Part II: the short synthesized cue *)

(** [oto.Format] *)
Inductive Format := FormatFloat32LE | FormatUnsignedInt8 | FormatSignedInt16LE.

Definition formatByteLength (f : Format) : Z :=
  match f with
  | FormatFloat32LE => 4
  | FormatUnsignedInt8 => 1
  | FormatSignedInt16LE => 2
  end.

(** Conversions to [int16] and to [byte]. *)
Definition toInt16 (z : Z) : Z := (z + 2 ^ 15) mod 2 ^ 16 - 2 ^ 15.
Definition toByte (z : Z) : Z := z mod 256.

(** The two channel counts in the program: the audio context is opened
    with [ChannelCount: 2] in [initAudio]; [playTickSound] passes 1 to
    [NewSineWave]. *)
Definition contextChannelCount : Z := 2.
Definition tickSoundChannelCount : Z := 1.

Section Cue.

(** Floating point stays outside the embedding: [float64] is an abstract
    type, and [sample16 freq amplitude sampleRate p] stands for the value of
    [math.Sin(2*math.Pi*float64(p)/(float64(sampleRate)/freq)) * amplitude * 32767]
    truncated to an integer. *)
Variable float64 : Type.
Variable sample16 : float64 -> float64 -> Z -> Z -> Z.

Record SineWave := mkSineWave {
  freq : float64;
  length_ : Z;
  pos : Z;
  channelCount : Z;
  format : Format;
  amplitude : float64;
  sampleRate : Z
}.

(** [NewSineWave]; [duration] in nanoseconds.  The length is computed in
    [float64]; for the operands of the program (44100 and 200ms) the
    product and the quotient are exact. *)
Definition NewSineWave (fr : float64) (duration : Z) (channels : Z)
    (fmt : Format) (amp : float64) : SineWave :=
  let rate := 44100 in
  mkSineWave fr (Z.quot (rate * duration) Second) 0 channels fmt amp rate.

(** The inner loop over the channels of frame [i]. *)
Definition writeFrame (num : Z) (i : nat) (b : Z) (channels : nat) (buf : list Z) : list Z :=
  fold_left
    (fun acc ch =>
       <[Z.to_nat (num * Z.of_nat i + 1 + 2 * Z.of_nat ch) := toByte (Z.shiftr b 8)]>
         (<[Z.to_nat (num * Z.of_nat i + 2 * Z.of_nat ch) := toByte b]> acc))
    (seq 0 channels) buf.

(** The outer loop over the frames that fit the buffer. *)
Definition writeFrames (w : SineWave) (num p : Z) (frames : nat) (buf : list Z) : list Z :=
  fold_left
    (fun acc i =>
       writeFrame num i
         (toInt16 (sample16 (freq w) (amplitude w) (sampleRate w) (p + Z.of_nat i)))
         (Z.to_nat (channelCount w)) acc)
    (seq 0 frames) buf.

Record ReadResult := mkRead {
  wave : SineWave;      (* the receiver after the call *)
  bytes : list Z;       (* the caller's buffer after the call *)
  count : Z;            (* the returned byte count *)
  eof : bool            (* whether [io.EOF] is returned *)
}.

(** [SineWave.Read]; [None] is the integer-division panic of a wave
    without channels. *)
Definition Read (w : SineWave) (buf : list Z) : option ReadResult :=
  if length_ w <=? pos w then Some (mkRead w buf 0 true)
  else
    let full := Z.of_nat (length buf) in
    let atEnd := length_ w <? pos w + full in
    let n := if atEnd then length_ w - pos w else full in
    let num := formatByteLength (format w) * channelCount w in
    if num =? 0 then None
    else
      let p := Z.quot (pos w) num in
      let out :=
        match format w with
        | FormatSignedInt16LE => writeFrames w num p (Z.to_nat (Z.quot n num)) buf
        | _ => buf
        end in
      Some (mkRead (mkSineWave (freq w) (length_ w) (pos w + n) (channelCount w)
                               (format w) (amplitude w) (sampleRate w))
                   out n atEnd).

(** The stream that [playTickSound] hands to the player, for the
    frequency and amplitude constants of the program. *)
Definition tickSoundWave (freq440 amplitude03 : float64) : SineWave :=
  NewSineWave freq440 (200 * 1000000) tickSoundChannelCount FormatSignedInt16LE amplitude03.

(** The sample of frame [p] of that stream. *)
Definition tickSample (freq440 amplitude03 : float64) (p : Z) : Z :=
  toInt16 (sample16 freq440 amplitude03 44100 p).

(** [m] successive samples from frame [p] on, two bytes each, low byte
    first: a single-channel stream. *)
Definition monoBytes (freq440 amplitude03 : float64) (p : Z) (m : nat) : list Z :=
  flat_map
    (fun i => [toByte (tickSample freq440 amplitude03 (p + Z.of_nat i));
               toByte (Z.shiftr (tickSample freq440 amplitude03 (p + Z.of_nat i)) 8)])
    (seq 0 m).

End Cue.

Arguments mkSineWave {float64}.
Arguments freq {float64}.
Arguments length_ {float64}.
Arguments pos {float64}.
Arguments channelCount {float64}.
Arguments format {float64}.
Arguments amplitude {float64}.
Arguments sampleRate {float64}.
Arguments NewSineWave {float64}.
Arguments mkRead {float64}.
Arguments wave {float64}.
Arguments bytes {float64}.
Arguments count {float64}.
Arguments eof {float64}.
Arguments Read {float64}.
Arguments tickSoundWave {float64}.
Arguments tickSample {float64}.
Arguments monoBytes {float64}.

(** * Part III: the settings store *)

(** ** JSON text, as [encoding/json] reads it *)

(** [loadSettings] and [saveSettings] go through [json.Unmarshal] and
    [json.MarshalIndent].  The library is modelled as it is documented:
    the text is first checked against the JSON grammar (white space,
    literals, numbers, strings with escapes, arrays, objects, nesting up to
    10000), and only a valid text is decoded; members are matched to the
    tagged fields exactly or under case folding; [null] leaves a field
    alone; a value of the wrong type is skipped and reported after the
    remaining members have been decoded. *)

#[warnings="-register-all"] Inductive json :=
  | JNull
  | JBool (b : bool)
  | JNumber (lit : string)   (* the literal as written *)
  | JString (s : string)     (* unquoted *)
  | JArray (items : list json)
  | JObject (members : list (string * json)).  (* in order, duplicates kept *)

Definition newline : ascii := ascii_of_nat 10.
Definition quote : ascii := ascii_of_nat 34.
Definition backslash : ascii := ascii_of_nat 92.

Definition isSpace (c : ascii) : bool :=
  let n := nat_of_ascii c in
  ((n =? 32) || (n =? 9) || (n =? 13) || (n =? 10))%nat.

Definition isDigit (c : ascii) : bool :=
  let n := nat_of_ascii c in ((48 <=? n) && (n <=? 57))%nat.

Fixpoint skipSpace (s : string) : string :=
  match s with
  | String c r => if isSpace c then skipSpace r else s
  | EmptyString => s
  end.

Fixpoint spanDigits (s : string) : string * string :=
  match s with
  | String c r =>
      if isDigit c then let '(d, r') := spanDigits r in (String c d, r')
      else (EmptyString, s)
  | EmptyString => (EmptyString, EmptyString)
  end.

(** One or more digits, as the fraction and the exponent need them. *)
Definition digits1 (s : string) : option (string * string) :=
  match spanDigits s with
  | (EmptyString, _) => None
  | (d, r) => Some (d, r)
  end.

(** The number grammar: an optional minus; a zero, or a digit from 1 to 9
    followed by digits; an optional point with one or more digits; an
    optional [e] or [E] with an optional sign and one or more digits.  The
    result is the literal and the text after it. *)
Definition scanNumber (s : string) : option (string * string) :=
  let '(sign, s1) :=
    match s with
    | String c r => if Ascii.eqb c "-" then ("-", r) else (EmptyString, s)
    | EmptyString => (EmptyString, s)
    end in
  match s1 with
  | String c r =>
      if isDigit c then
        let '(ipart, r1) :=
          if Ascii.eqb c "0" then ("0", r)
          else let '(d, r') := spanDigits r in (String c d, r') in
        let frac :=
          match r1 with
          | String c2 r2 =>
              if Ascii.eqb c2 "." then
                match digits1 r2 with
                | Some (d, r3) => Some (String c2 d, r3)
                | None => None
                end
              else Some (EmptyString, r1)
          | EmptyString => Some (EmptyString, r1)
          end in
        match frac with
        | None => None
        | Some (fpart, r4) =>
            let expo :=
              match r4 with
              | String c5 r5 =>
                  if Ascii.eqb c5 "e" || Ascii.eqb c5 "E" then
                    let '(sg, r6) :=
                      match r5 with
                      | String c6 r6 =>
                          if Ascii.eqb c6 "+" || Ascii.eqb c6 "-"
                          then (String c6 EmptyString, r6) else (EmptyString, r5)
                      | EmptyString => (EmptyString, r5)
                      end in
                    match digits1 r6 with
                    | Some (d, r7) => Some (String c5 (sg ++ d), r7)
                    | None => None
                    end
                  else Some (EmptyString, r4)
              | EmptyString => Some (EmptyString, r4)
              end in
            match expo with
            | None => None
            | Some (epart, r8) => Some ((sign ++ ipart ++ fpart ++ epart)%string, r8)
            end
        end
      else None
  | EmptyString => None
  end.

Definition hexVal (c : ascii) : option N :=
  let n := N_of_ascii c in
  if (48 <=? n)%N && (n <=? 57)%N then Some (n - 48)%N
  else if (97 <=? n)%N && (n <=? 102)%N then Some (n - 87)%N
  else if (65 <=? n)%N && (n <=? 70)%N then Some (n - 55)%N
  else None.

Definition hex4 (a b c d : ascii) : option N :=
  match hexVal a, hexVal b, hexVal c, hexVal d with
  | Some x, Some y, Some z, Some w => Some (((x * 16 + y) * 16 + z) * 16 + w)%N
  | _, _, _, _ => None
  end.

(** [utf8.EncodeRune] for a code point below 0x110000. *)
Definition utf8Encode (r : N) : string :=
  let byte (n : N) := ascii_of_N n in
  (if r <? 128 then String (byte r) EmptyString
   else if r <? 2048 then
     String (byte (192 + r / 64)) (String (byte (128 + r mod 64)) EmptyString)
   else if r <? 65536 then
     String (byte (224 + r / 4096))
       (String (byte (128 + (r / 64) mod 64)) (String (byte (128 + r mod 64)) EmptyString))
   else
     String (byte (240 + r / 262144))
       (String (byte (128 + (r / 4096) mod 64))
          (String (byte (128 + (r / 64) mod 64))
             (String (byte (128 + r mod 64)) EmptyString))))%N.

Definition replacementChar : N := 65533.

Definition simpleEscape (c : ascii) : option ascii :=
  if Ascii.eqb c quote then Some quote
  else if Ascii.eqb c backslash then Some backslash
  else if Ascii.eqb c "/" then Some "/"%char
  else if Ascii.eqb c "b" then Some (ascii_of_nat 8)
  else if Ascii.eqb c "f" then Some (ascii_of_nat 12)
  else if Ascii.eqb c "n" then Some (ascii_of_nat 10)
  else if Ascii.eqb c "r" then Some (ascii_of_nat 13)
  else if Ascii.eqb c "t" then Some (ascii_of_nat 9)
  else None.

(** The text after an opening quote, up to the closing one: the unquoted
    string and the text that follows.  Control characters are refused; an
    escaped surrogate that is not followed by its partner becomes U+FFFD.
    Bytes above 127 are copied (the library replaces malformed UTF-8 by
    U+FFFD, which changes no comparison with an ASCII field name). *)
Fixpoint scanString (s : string) : option (string * string) :=
  match s with
  | EmptyString => None
  | String c r =>
      if Ascii.eqb c quote then Some (EmptyString, r)
      else if Ascii.eqb c backslash then
        match r with
        | EmptyString => None
        | String e r1 =>
            if Ascii.eqb e "u" then
              match r1 with
              | String h1 (String h2 (String h3 (String h4 r2))) =>
                  match hex4 h1 h2 h3 h4 with
                  | None => None
                  | Some hi =>
                      if (55296 <=? hi)%N && (hi <? 57344)%N then
                        (* a surrogate: look for [\uXXXX] with the low half *)
                        match r2 with
                        | String b2 (String u2 (String g1 (String g2 (String g3 (String g4 r3))))) =>
                            match (if Ascii.eqb b2 backslash && Ascii.eqb u2 "u"
                                   then hex4 g1 g2 g3 g4 else None) with
                            | Some lo =>
                                if (hi <? 56320)%N && (56320 <=? lo)%N && (lo <? 57344)%N then
                                  match scanString r3 with
                                  | Some (t, rest) =>
                                      Some ((utf8Encode (65536 + (hi - 55296) * 1024 + (lo - 56320))
                                             ++ t)%string, rest)
                                  | None => None
                                  end
                                else
                                  match scanString r2 with
                                  | Some (t, rest) => Some ((utf8Encode replacementChar ++ t)%string, rest)
                                  | None => None
                                  end
                            | None =>
                                match scanString r2 with
                                | Some (t, rest) => Some ((utf8Encode replacementChar ++ t)%string, rest)
                                | None => None
                                end
                            end
                        | _ =>
                            match scanString r2 with
                            | Some (t, rest) => Some ((utf8Encode replacementChar ++ t)%string, rest)
                            | None => None
                            end
                        end
                      else
                        match scanString r2 with
                        | Some (t, rest) => Some ((utf8Encode hi ++ t)%string, rest)
                        | None => None
                        end
                  end
              | _ => None
              end
            else
              match simpleEscape e with
              | Some x =>
                  match scanString r1 with
                  | Some (t, rest) => Some (String x t, rest)
                  | None => None
                  end
              | None => None
              end
        end
      else if (nat_of_ascii c <? 32)%nat then None
      else
        match scanString r with
        | Some (t, rest) => Some (String c t, rest)
        | None => None
        end
  end.

Definition startsWith (p s : string) : option string :=
  if String.prefix p s
  then Some (String.substring (String.length p) (String.length s - String.length p) s)
  else None.

(** The deepest nesting of arrays and objects the scanner accepts. *)
Definition maxNestingDepth : Z := 10000.

(** Recursive descent over the text; [fuel] bounds the number of nested
    calls, [depth] counts the enclosing arrays and objects.  [parseValue]
    expects the value at the head of the text; [parseMembers] expects a
    key, [parseItems] an element.  Each nested call can be charged to a
    character of its own (an opening bracket, a comma, a closing bracket,
    the first character of a scalar), so the nesting of calls never
    exceeds the length of the text and [parse] gives enough fuel. *)
Fixpoint parseValue (fuel : nat) (depth : Z) (s : string) : option (json * string) :=
  match fuel with
  | O => None
  | S f =>
      match s with
      | EmptyString => None
      | String c r =>
          if Ascii.eqb c "{" then
            if depth <? maxNestingDepth then
              match skipSpace r with
              | String c1 r1 =>
                  if Ascii.eqb c1 "}" then Some (JObject [], r1)
                  else parseMembers f (depth + 1) (String c1 r1) []
              | EmptyString => None
              end
            else None
          else if Ascii.eqb c "[" then
            if depth <? maxNestingDepth then
              match skipSpace r with
              | String c1 r1 =>
                  if Ascii.eqb c1 "]" then Some (JArray [], r1)
                  else parseItems f (depth + 1) (String c1 r1) []
              | EmptyString => None
              end
            else None
          else if Ascii.eqb c quote then
            match scanString r with
            | Some (t, rest) => Some (JString t, rest)
            | None => None
            end
          else if Ascii.eqb c "t" then
            match startsWith "rue" r with Some rest => Some (JBool true, rest) | None => None end
          else if Ascii.eqb c "f" then
            match startsWith "alse" r with Some rest => Some (JBool false, rest) | None => None end
          else if Ascii.eqb c "n" then
            match startsWith "ull" r with Some rest => Some (JNull, rest) | None => None end
          else
            match scanNumber s with
            | Some (lit, rest) => Some (JNumber lit, rest)
            | None => None
            end
      end
  end
with parseMembers (fuel : nat) (depth : Z) (s : string) (acc : list (string * json))
    : option (json * string) :=
  match fuel with
  | O => None
  | S f =>
      match s with
      | EmptyString => None
      | String c r =>
          if Ascii.eqb c quote then
            match scanString r with
            | None => None
            | Some (key, r1) =>
                match skipSpace r1 with
                | EmptyString => None
                | String c2 r2 =>
                    if Ascii.eqb c2 ":" then
                      match parseValue f depth (skipSpace r2) with
                      | None => None
                      | Some (v, r3) =>
                          match skipSpace r3 with
                          | EmptyString => None
                          | String c4 r4 =>
                              if Ascii.eqb c4 "," then
                                parseMembers f depth (skipSpace r4) ((key, v) :: acc)
                              else if Ascii.eqb c4 "}" then
                                Some (JObject (rev ((key, v) :: acc)), r4)
                              else None
                          end
                      end
                    else None
                end
            end
          else None
      end
  end
with parseItems (fuel : nat) (depth : Z) (s : string) (acc : list json)
    : option (json * string) :=
  match fuel with
  | O => None
  | S f =>
      match parseValue f depth s with
      | None => None
      | Some (v, r1) =>
          match skipSpace r1 with
          | EmptyString => None
          | String c2 r2 =>
              if Ascii.eqb c2 "," then parseItems f depth (skipSpace r2) (v :: acc)
              else if Ascii.eqb c2 "]" then Some (JArray (rev (v :: acc)), r2)
              else None
          end
      end
  end.

(** A whole document: one value between optional white space.  [None] is
    the library's [SyntaxError]. *)
Definition parse (data : string) : option json :=
  match parseValue (S (String.length data)) 0 (skipSpace data) with
  | Some (v, rest) =>
      match skipSpace rest with
      | EmptyString => Some v
      | _ => None
      end
  | None => None
  end.

(** ** Decoding into [TimerSettings] *)

Inductive Field := FPomodoro | FShortBreak | FLongBreak | FSound.

(** The [json:"..."] tags of the struct. *)
Definition fieldName (f : Field) : string :=
  match f with
  | FPomodoro => "pomodoro_duration"
  | FShortBreak => "short_break_duration"
  | FLongBreak => "long_break_duration"
  | FSound => "enable_clock_sound"
  end.

Definition allFields : list Field := [FPomodoro; FShortBreak; FLongBreak; FSound].

(** Case folding of a key.  ASCII letters go to upper case; the two
    letters outside ASCII that fold to an ASCII letter, U+017F (long s) and
    U+212A (Kelvin sign), go to S and K; every other byte is kept, so the
    result equals a folded ASCII name exactly when the library's
    [foldName] of the key does. *)
Fixpoint foldName (s : string) : string :=
  match s with
  | EmptyString => EmptyString
  | String c r =>
      let n := nat_of_ascii c in
      if ((97 <=? n) && (n <=? 122))%nat then String (ascii_of_nat (n - 32)) (foldName r)
      else
        match r with
        | String c2 r2 =>
            if ((n =? 197) && (nat_of_ascii c2 =? 191))%nat then String "S" (foldName r2)
            else
              match r2 with
              | String c3 r3 =>
                  if ((n =? 226) && (nat_of_ascii c2 =? 132) && (nat_of_ascii c3 =? 170))%nat
                  then String "K" (foldName r3)
                  else String c (foldName r)
              | EmptyString => String c (foldName r)
              end
        | EmptyString => String c EmptyString
        end
  end.

(** The field a key names: an exact match first, a match under case
    folding otherwise. *)
Definition lookupField (key : string) : option Field :=
  match List.find (fun f => String.eqb (fieldName f) key) allFields with
  | Some f => Some f
  | None =>
      List.find (fun f => String.eqb (foldName (fieldName f)) (foldName key)) allFields
  end.

(** [strconv.ParseInt(lit, 10, 64)] on a number literal: only an integer
    literal within range is accepted. *)
Definition parseInt64 (lit : string) : option Z :=
  match NilZero.int_of_string lit with
  | Some d =>
      let z := Z.of_int d in
      if (minInt64 <=? z) && (z <=? maxInt64) then Some z else None
  | None => None
  end.

Definition setIntField (f : Field) (n : Z) (st : TimerSettings) : TimerSettings :=
  match f with
  | FPomodoro =>
      mkSettings n (ShortBreakDuration st) (LongBreakDuration st) (EnableClockSound st)
  | FShortBreak =>
      mkSettings (PomodoroDuration st) n (LongBreakDuration st) (EnableClockSound st)
  | FLongBreak =>
      mkSettings (PomodoroDuration st) (ShortBreakDuration st) n (EnableClockSound st)
  | FSound => st
  end.

(** Storing one value into one field.  The boolean tells whether an
    [UnmarshalTypeError] is recorded; the field is then left as it was.
    [null] changes nothing and is no error. *)
Definition storeField (f : Field) (v : json) (st : TimerSettings) : TimerSettings * bool :=
  match v with
  | JNull => (st, false)
  | _ =>
      match f with
      | FSound =>
          match v with
          | JBool b =>
              (mkSettings (PomodoroDuration st) (ShortBreakDuration st)
                          (LongBreakDuration st) b, false)
          | _ => (st, true)
          end
      | _ =>
          match v with
          | JNumber lit =>
              match parseInt64 lit with
              | Some n => (setIntField f n st, false)
              | None => (st, true)
              end
          | _ => (st, true)
          end
      end
  end.

Definition storeMember (acc : TimerSettings * bool) (m : string * json)
    : TimerSettings * bool :=
  match lookupField (fst m) with
  | Some f =>
      let '(st', e) := storeField f (snd m) (fst acc) in (st', snd acc || e)
  | None => acc
  end.

(** The members of an object are stored in the order they are written. *)
Definition decodeObject (members : list (string * json)) (st : TimerSettings)
    : TimerSettings * bool :=
  fold_left storeMember members (st, false).

Inductive DecodeError := SyntaxError | UnmarshalTypeError.

(** [json.Unmarshal(data, &st)]: text that is not valid JSON is refused
    before anything is stored; a value of the wrong type is skipped, the
    rest is decoded, and the error is returned at the end. *)
Definition Unmarshal (data : string) (st : TimerSettings)
    : TimerSettings * option DecodeError :=
  match parse data with
  | None => (st, Some SyntaxError)
  | Some JNull => (st, None)
  | Some (JObject members) =>
      let '(st', e) := decodeObject members st in
      (st', if e then Some UnmarshalTypeError else None)
  | Some _ => (st, Some UnmarshalTypeError)
  end.

(** [json.MarshalIndent(st, "", "  ")] *)
Definition MarshalIndent (st : TimerSettings) : string :=
  let nl := String newline EmptyString in
  let q := String quote EmptyString in
  let member (f : Field) (v : string) : string :=
    ("  " ++ q ++ fieldName f ++ q ++ ": " ++ v)%string in
  ("{" ++ nl ++
   member FPomodoro (itoa (PomodoroDuration st)) ++ "," ++ nl ++
   member FShortBreak (itoa (ShortBreakDuration st)) ++ "," ++ nl ++
   member FLongBreak (itoa (LongBreakDuration st)) ++ "," ++ nl ++
   member FSound (if EnableClockSound st then "true" else "false") ++ nl ++
   "}")%string.

(** ** [loadSettings] and [saveSettings] *)

(** The settings file: [None] when [ioutil.ReadFile] fails (no file),
    its contents otherwise. *)
Definition File := option string.

(** [loadSettings]: the new value of [settings], and whether
    "Failed to load settings" is printed. *)
Definition loadSettings (file : File) : TimerSettings * bool :=
  match file with
  | None => (defaultSettings, false)
  | Some data =>
      match Unmarshal data defaultSettings with
      | (st, Some _) => (st, true)
      | (st, None) => (st, false)
      end
  end.

(** How [ioutil.WriteFile] ends: the file holds the data, or the write
    failed and left the file in some state. *)
Inductive WriteOutcome := Written | WriteFailed (remains : File).

(** [saveSettings]: the file afterwards, and whether a failure is printed. *)
Definition saveSettings (st : TimerSettings) (w : WriteOutcome) : File * bool :=
  match w with
  | Written => (Some (MarshalIndent st), false)
  | WriteFailed remains => (remains, true)
  end.

(** A settings record whose fields are Go [int]s. *)
Definition representable (st : TimerSettings) : Prop :=
  minInt64 <= PomodoroDuration st <= maxInt64 /\
  minInt64 <= ShortBreakDuration st <= maxInt64 /\
  minInt64 <= LongBreakDuration st <= maxInt64.

(** ** Helpers for stating facts about the scanner *)

Definition plainChar (c : ascii) : bool :=
  negb (Ascii.eqb c quote) && negb (Ascii.eqb c backslash) && negb (nat_of_ascii c <? 32)%nat.

Fixpoint plain (s : string) : bool :=
  match s with
  | String c r => plainChar c && plain r
  | EmptyString => true
  end.

Fixpoint digitsOnly (s : string) : bool :=
  match s with
  | String c r => isDigit c && digitsOnly r
  | EmptyString => true
  end.

Definition numberEnd (s : string) : bool :=
  match s with
  | String c _ =>
      negb (isDigit c) && negb (Ascii.eqb c ".") && negb (Ascii.eqb c "e")
      && negb (Ascii.eqb c "E")
  | EmptyString => true
  end.

(** The first character of a decimal rendering. *)
Definition numberHead (c : ascii) : bool := isDigit c || Ascii.eqb c "-".

(** The text of one member, followed by [rest]. *)
Definition memberText (f : Field) (v rest : string) : string :=
  String " " (String " " (String quote
    (fieldName f ++ String quote (String ":" (String " " (v ++ rest)))))).

(** A string between quotes. *)
Definition quoted (s : string) : string := String quote (s ++ String quote EmptyString).

(** The value of a settings field. *)
Inductive Value := VInt (n : Z) | VBool (b : bool).

Definition getField (f : Field) (st : TimerSettings) : Value :=
  match f with
  | FPomodoro => VInt (PomodoroDuration st)
  | FShortBreak => VInt (ShortBreakDuration st)
  | FLongBreak => VInt (LongBreakDuration st)
  | FSound => VBool (EnableClockSound st)
  end.

(** The value a member gives to a field when it has the field's type: an
    integer literal within the range of [int], or a boolean. *)
Definition decodeValue (f : Field) (v : json) : option Value :=
  match f with
  | FSound => match v with JBool b => Some (VBool b) | _ => None end
  | _ => match v with JNumber lit => option_map VInt (parseInt64 lit) | _ => None end
  end.

(** The value written in the file for a field: any integer literal, or a
    boolean. *)
Definition literalValue (f : Field) (v : json) : option Value :=
  match f with
  | FSound => match v with JBool b => Some (VBool b) | _ => None end
  | _ =>
      match v with
      | JNumber lit => option_map (fun d => VInt (Z.of_int d)) (NilZero.int_of_string lit)
      | _ => None
      end
  end.

(** Field-level merge over the defaults, without error: loading a file
    that holds a JSON object prints no failure, leaves an omitted field at
    its default and gives a present field the value written in the file. *)
Definition MergesFields (data : string) : Prop :=
  forall members, parse data = Some (JObject members) ->
    snd (loadSettings (Some data)) = false /\
    forall f,
      ((forall k v, In (k, v) members -> lookupField k <> Some f) ->
       getField f (fst (loadSettings (Some data))) = getField f defaultSettings) /\
      (forall before k v after x,
         members = before ++ (k, v) :: after ->
         lookupField k = Some f -> literalValue f v = Some x ->
         (forall k' v', In (k', v') after -> lookupField k' <> Some f) ->
         getField f (fst (loadSettings (Some data))) = x).

(** Settings files used below. *)
Definition mixedFile : string :=
  ("{" ++ quoted "pomodoro_duration" ++ ": 50, " ++
   quoted "short_break_duration" ++ ": " ++ quoted "five" ++ "}")%string.

Definition overflowFile : string :=
  ("{" ++ quoted "pomodoro_duration" ++ ": 9223372036854775808}")%string.

Definition fractionFile : string :=
  ("{" ++ quoted "pomodoro_duration" ++ ": 2.5}")%string.

Definition brokenFile : string := ("{ " ++ quoted "pomodoro_duration" ++ ": 50,")%string.

Definition partialFile : string :=
  ("{" ++ quoted "long_break_duration" ++ ": 20, " ++
   quoted "enable_clock_sound" ++ ": false}")%string.

(** ** Schedules of whole sessions *)

(** Settings whose three durations are minutes that fit a [time.Duration]. *)
Definition validDurations (st : TimerSettings) : Prop :=
  0 < PomodoroDuration st <= maxMinutes /\
  0 < ShortBreakDuration st <= maxMinutes /\
  0 < LongBreakDuration st <= maxMinutes.

(** The steps of the countdown goroutines, as opposed to the handlers. *)
Definition isGoroutineAction (a : Action) : bool :=
  match a with
  | AEnter _ | ATick _ | AStopped _ | ABody _ => true
  | _ => false
  end.

(** Round [r] of work driven by the tray icon alone, from the initial
    state: a click, the focus countdown to its end, a click, the break
    countdown to its end.  The goroutines of round [r] are number [2r] and
    [2r+1]; the break is the long one in every fourth round. *)
Definition trayRound (st : TimerSettings) (r : nat) : list Action :=
  [ATrayClick] ++
  naturalTicks (2 * r) (Z.to_nat (PomodoroDuration st * 60)) ++
  [ATrayClick] ++
  naturalTicks (2 * r + 1)
    (Z.to_nat ((if (r mod 4 =? 3)%nat then LongBreakDuration st
                else ShortBreakDuration st) * 60)).

Definition trayRounds (st : TimerSettings) (n : nat) : list Action :=
  concat (map (trayRound st) (seq 0 n)).

(** The dot count after [n] completed focus sessions. *)
Definition cycleCount (n : nat) : Z :=
  match n with
  | O => 0
  | S m => Z.of_nat (m mod 4) + 1
  end.

(** ** The layout of a 16-bit stream, and successive reads *)

Section CueLayout.

Variable float64 : Type.
Variable sample16 : float64 -> float64 -> Z -> Z -> Z.

(** One frame: the two bytes of a sample, low byte first, once per
    channel. *)
Definition frameBytes (b : Z) (channels : nat) : list Z :=
  concat (repeat [toByte b; toByte (Z.shiftr b 8)] channels).

(** [frames] successive frames of a wave from sample index [p] on. *)
Definition interleaved (w : SineWave float64) (p : Z) (frames : nat) : list Z :=
  flat_map
    (fun i =>
       frameBytes (toInt16 (sample16 (freq w) (amplitude w) (sampleRate w) (p + Z.of_nat i)))
                  (Z.to_nat (channelCount w)))
    (seq 0 frames).

(** Successive calls of [Read] on one wave, one per buffer: the wave
    after the last call and the sum of the returned counts. *)
Fixpoint reads (w : SineWave float64) (bufs : list (list Z)) : option (SineWave float64 * Z) :=
  match bufs with
  | [] => Some (w, 0)
  | buf :: rest =>
      match Read sample16 w buf with
      | Some r =>
          match reads (wave r) rest with
          | Some (w', total) => Some (w', count r + total)
          | None => None
          end
      | None => None
      end
  end.

End CueLayout.

Arguments interleaved {float64}.
Arguments reads {float64}.

(** * Part IV: the ambient loop *)

(** [error] values that reach [loopReader.Read]: [io.EOF] or another one. *)
Inductive error := EOF | Failure (msg : string).

(** [io.ReadSeeker], as far as [loopReader] uses it: [Read(p)] gives the
    reader, the buffer, the count and the error; [Seek(0, io.SeekStart)]
    gives the reader and the error. *)
Class ReadSeeker (R : Type) := {
  ioRead : R -> list Z -> R * list Z * Z * option error;
  ioSeekStart : R -> R * option error
}.

(** [loopReader.Read] *)
Definition loopRead {R} `{ReadSeeker R} (lr : R) (p : list Z)
    : R * list Z * Z * option error :=
  let '(r1, p1, n, err) := ioRead lr p in
  match err with
  | Some EOF =>
      let '(r2, seekErr) := ioSeekStart r1 in
      match seekErr with
      | Some e => (r2, p1, n, Some e)
      | None => (r2, p1, n, None)
      end
  | _ => (r1, p1, n, err)
  end.

(** [bytes.Reader] of the Go library, the reader that [playClockSound]
    wraps: a byte slice and the read index. *)
Record bytesReader := mkReader { data : list Z; index : Z }.

(** [bytes.NewReader] *)
Definition NewReader (b : list Z) : bytesReader := mkReader b 0.

(** [bytes.Reader.Read]: [io.EOF] with no bytes once the index has reached
    the end, otherwise [copy(b, r.s[r.i:])]. *)
Definition readerRead (r : bytesReader) (p : list Z)
    : bytesReader * list Z * Z * option error :=
  if Z.of_nat (length (data r)) <=? index r then (r, p, 0, Some EOF)
  else
    let rest := drop (Z.to_nat (index r)) (data r) in
    let n := Nat.min (length p) (length rest) in
    (mkReader (data r) (index r + Z.of_nat n), take n rest ++ drop n p, Z.of_nat n, None).

(** [bytes.Reader.Seek(0, io.SeekStart)]: it cannot fail. *)
Definition readerSeekStart (r : bytesReader) : bytesReader * option error :=
  (mkReader (data r) 0, None).

#[export] Instance bytesReader_ReadSeeker : ReadSeeker bytesReader :=
  {| ioRead := readerRead; ioSeekStart := readerSeekStart |}.

(** What a player hears that calls [Read] once per buffer and stops at
    the first error: the bytes delivered, and whether an error came. *)
Fixpoint played {R} `{ReadSeeker R} (lr : R) (bufs : list (list Z)) : list Z * bool :=
  match bufs with
  | [] => ([], false)
  | p :: rest =>
      let '(r1, p1, n, err) := loopRead lr p in
      match err with
      | Some _ => (take (Z.to_nat n) p1, true)
      | None => let '(out, failed) := played r1 rest in (take (Z.to_nat n) p1 ++ out, failed)
      end
  end.

(** [k] bytes of the endless repetition of [d], from offset [start] on. *)
Definition cyclic (d : list Z) (start k : nat) : list Z :=
  map (fun j => default 0 (d !! ((start + j) mod length d)%nat)) (seq 0 k).

(** ** [openSettingsEditor] and the sound toggle *)

(** [var newSettings TimerSettings] *)
Definition zeroSettings : TimerSettings := mkSettings 0 0 0 false.

(** What happens outside the program while [openSettingsEditor] runs: the
    temporary file cannot be created, the editor cannot be started, or the
    editor command has returned and [after data] is what
    [ioutil.ReadFile] then finds in the temporary file ([None] when it
    cannot be read), given the text [data] the program wrote there. *)
Inductive EditorRun :=
  | TempFileFailed
  | StartFailed
  | EditorDone (after : string -> File).

(** The lines the two functions print. *)
Inductive Message :=
  | ErrorCreatingTempFile
  | FailedToOpenEditor
  | FailedToReadUpdated
  | InvalidJSONFormat
  | FailedToWriteSettings.

(** [openSettingsEditor]: the new value of [settings], the settings file
    afterwards, and what is printed. *)
Definition openSettingsEditor (run : EditorRun) (w : WriteOutcome)
    (st : TimerSettings) (file : File) : TimerSettings * File * list Message :=
  match run with
  | TempFileFailed => (st, file, [ErrorCreatingTempFile])
  | StartFailed => (st, file, [FailedToOpenEditor])
  | EditorDone after =>
      match after (MarshalIndent st) with
      | None => (st, file, [FailedToReadUpdated])
      | Some updatedData =>
          match Unmarshal updatedData zeroSettings with
          | (_, Some _) => (st, file, [InvalidJSONFormat])
          | (newSettings, None) =>
              let '(file', failed) := saveSettings newSettings w in
              (newSettings, file', if failed then [FailedToWriteSettings] else [])
          end
      end
  end.

(** The click handler of the "Clock sound" checkbox: the new value of
    [settings], the result of [saveSettings], and whether the box is
    checked. *)
Definition toggleClockSound (w : WriteOutcome) (st : TimerSettings)
    : TimerSettings * (File * bool) * bool :=
  let st' := mkSettings (PomodoroDuration st) (ShortBreakDuration st)
                        (LongBreakDuration st) (negb (EnableClockSound st)) in
  (st', saveSettings st' w, EnableClockSound st').

(** An edited file that deletes two of the four members. *)
Definition trimmedFile : string :=
  ("{" ++ quoted "pomodoro_duration" ++ ": 50, " ++
   quoted "enable_clock_sound" ++ ": true}")%string.

(** * Part V: the tray icon *)

(** [color.RGBA] *)
Record RGBA := mkRGBA { cR : Z; cG : Z; cB : Z; cA : Z }.

Definition darkRed : RGBA := mkRGBA 139 0 0 255.
Definition dotColor : RGBA := mkRGBA 144 238 144 255.

(** An [image.RGBA] with bounds [image.Rect(0, 0, 64, 64)] is modelled by
    its [Pix] slice, a [list Z]: four bytes per pixel, 256 bytes per row. *)

Definition inBounds (x y : Z) : bool :=
  (0 <=? x) && (x <? 64) && (0 <=? y) && (y <? 64).

Definition PixOffset (x y : Z) : nat := Z.to_nat (y * 256 + x * 4).

(** The length of [Pix]: 64 rows of 64 pixels of 4 bytes. *)
Definition pixLength : nat := Z.to_nat (64 * 64 * 4).

(** [image.NewRGBA(image.Rect(0, 0, 64, 64))] *)
Definition NewRGBA : list Z := repeat 0 pixLength.

(** [Set] of [image.RGBA] in the Go library: a point outside the bounds
    is skipped. *)
Definition imgSet (img : list Z) (x y : Z) (c : RGBA) : list Z :=
  if inBounds x y then
    let i := PixOffset x y in
    <[(i + 3)%nat := cA c]> (<[(i + 2)%nat := cB c]> (<[(i + 1)%nat := cG c]> (<[i := cR c]> img)))
  else img.

Definition byteAt (img : list Z) (i : nat) : Z := default 0 (img !! i).

(** [RGBAAt] of [image.RGBA] *)
Definition RGBAAt (img : list Z) (x y : Z) : RGBA :=
  if inBounds x y then
    let i := PixOffset x y in
    mkRGBA (byteAt img i) (byteAt img (i + 1)) (byteAt img (i + 2)) (byteAt img (i + 3))
  else mkRGBA 0 0 0 0.

(** The values of [for v := lo; v <= hi; v++]. *)
Definition span (lo hi : Z) : list Z :=
  map (fun k => lo + Z.of_nat k) (seq 0 (Z.to_nat (hi - lo + 1))).

(** [drawCircle] *)
Definition drawCircle (img : list Z) (x y radius : Z) (col : RGBA) : list Z :=
  fold_left
    (fun acc i =>
       fold_left
         (fun acc j =>
            if i * i + j * j <=? radius * radius then imgSet acc (x + i) (y + j) col
            else acc)
         (span (- radius) radius) acc)
    (span (- radius) radius) img.

(** The loop of [generateIconWithDots] that draws the dots, on the image
    that [DrawString] left. *)
Definition drawDots (img : list Z) (dotCount : Z) : list Z :=
  let dotRadius := 6 in
  let dotSpacing := 5 in
  let startX := 5 in
  fold_left
    (fun acc i => drawCircle acc (startX + i * (dotRadius * 2 + dotSpacing)) 56 dotRadius dotColor)
    (span 0 (dotCount - 1)) img.

(** The base image of [initResources]. *)
Definition baseImage : list Z :=
  fold_left
    (fun acc y => fold_left (fun acc x => imgSet acc x y darkRed) (span 0 63) acc)
    (span 0 63) NewRGBA.

(** The points a loop sets, in order, and the image after setting them. *)
Definition paint (col : RGBA) (pts : list (Z * Z)) (img : list Z) : list Z :=
  fold_left (fun acc p => imgSet acc (fst p) (snd p) col) pts img.

Definition circlePoints (x y radius : Z) : list (Z * Z) :=
  flat_map
    (fun i =>
       flat_map
         (fun j => if i * i + j * j <=? radius * radius then [(x + i, y + j)] else [])
         (span (- radius) radius))
    (span (- radius) radius).

(** Whether the point lies in the disc of dot number [i]. *)
Definition inDot (i px py : Z) : Prop :=
  (px - (5 + 17 * i)) * (px - (5 + 17 * i)) + (py - 56) * (py - 56) <= 36.

(** * Part VI: start on system startup *)

Definition AUTO_START_NAME : string := "PomodoroTimer".

(** The values of the registry key
    [Software\Microsoft\Windows\CurrentVersion\Run] of the current user. *)
Definition Registry := string -> option string.

Definition SetStringValue (name value : string) (reg : Registry) : Registry :=
  fun n => if String.eqb n name then Some value else reg n.

Definition DeleteValue (name : string) (reg : Registry) : Registry :=
  fun n => if String.eqb n name then None else reg n.

(** What the two functions meet outside the program: the platform, the
    result of [os.Executable()], whether [registry.OpenKey] succeeds, and
    whether reading or writing a value that exists fails with an error
    other than [registry.ErrNotExist]. *)
Record Platform := mkPlatform {
  windows : bool;
  executable : option string;
  openFails : bool;
  writeFails : bool;
  readFails : bool
}.

Inductive AutoStartError :=
  | OnlyOnWindows
  | ExecutablePathFailed
  | OpenKeyFailed
  | SetValueFailed
  | DeleteValueFailed.

(** [setAutoStart] *)
Definition setAutoStart (p : Platform) (enable : bool) (reg : Registry)
    : Registry * option AutoStartError :=
  if negb (windows p) then (reg, Some OnlyOnWindows)
  else
    match executable p with
    | None => (reg, Some ExecutablePathFailed)
    | Some exePath =>
        if openFails p then (reg, Some OpenKeyFailed)
        else if enable then
          if writeFails p then (reg, Some SetValueFailed)
          else (SetStringValue AUTO_START_NAME exePath reg, None)
        else
          match reg AUTO_START_NAME with
          | None => (reg, None)      (* [registry.ErrNotExist] is let through *)
          | Some _ =>
              if writeFails p then (reg, Some DeleteValueFailed)
              else (DeleteValue AUTO_START_NAME reg, None)
          end
    end.

(** [isAutoStartEnabled] *)
Definition isAutoStartEnabled (p : Platform) (reg : Registry) : bool :=
  if negb (windows p) then false
  else
    match executable p with
    | None => false
    | Some exePath =>
        if openFails p then false
        else
          match reg AUTO_START_NAME with
          | None => false
          | Some value => if readFails p then false else String.eqb value exePath
          end
    end.

(** The click handler of the "Start on System Startup" checkbox: the
    registry and the state of the box. *)
Definition autoStartClick (p : Platform) (st : Registry * bool) : Registry * bool :=
  let '(reg, checked) := st in
  if checked then
    match setAutoStart p false reg with
    | (reg', Some _) => (reg', checked)
    | (reg', None) => (reg', false)
    end
  else
    match setAutoStart p true reg with
    | (reg', Some _) => (reg', checked)
    | (reg', None) => (reg', true)
    end.

(** Clicks, each with the platform as it is at that moment. *)
Definition autoStartClicks (ps : list Platform) (st : Registry * bool) : Registry * bool :=
  fold_left (fun acc p => autoStartClick p acc) ps st.

(** * Part IV, continued: [initMp3Player] *)

(** How the decoding loop ends: with [clockSoundPCM] assigned, with
    "Error decoding MP3" printed and [clockSoundPCM] left nil, or not
    within the reads considered. *)
Inductive DecodeResult :=
  | Decoded (pcm : list Z)
  | DecodeFailed
  | StillReading.

(** The loop of [initMp3Player] over the successive results of
    [mp3Decoder.Read(buf)], each the bytes [buf[:n]] and the error. *)
Fixpoint decodeLoop (reads : list (list Z * option error)) (pcmData : list Z) : DecodeResult :=
  match reads with
  | [] => StillReading
  | (chunk, err) :: rest =>
      let pcmData' := if (0 <? length chunk)%nat then pcmData ++ chunk else pcmData in
      match err with
      | Some EOF => Decoded pcmData'
      | Some _ => DecodeFailed
      | None => decodeLoop rest pcmData'
      end
  end.

(** [initMp3Player]: the value of [clockSoundPCM] afterwards.  [None]
    stands for a failure of [mp3.NewDecoder]. *)
Definition initMp3Player (decoder : option (list (list Z * option error))) : option (list Z) :=
  match decoder with
  | None => Some []
  | Some reads =>
      match decodeLoop reads [] with
      | Decoded pcm => Some pcm
      | DecodeFailed => Some []
      | StillReading => None
      end
  end.

(** * Part IV, continued: [playClockSound] and [stopClockSound] *)

(** Control points of the goroutine that [playClockSound] starts. *)
Inductive Closer :=
  | CWaiting        (* at [<-clockStopCh] *)
  | CWoken          (* received; next statement is [clockPlayer.Close()] *)
  | CClosedPlayer   (* closed the player; next is [clockMutex.Lock()] *)
  | CDone.

(** The package-level variables of the ambient sound, the players made
    so far (open?) and the channels made so far (closed?). *)
Record Clock := mkClock {
  enabled : bool;               (* [settings.EnableClockSound] *)
  hasContext : bool;            (* [context != nil] *)
  clockPlayer : option nat;
  players : list bool;
  clockStopCh : option nat;
  clockChans : list bool;
  closers : list Closer
}.

Definition initClock (sound ctx : bool) : Clock := mkClock sound ctx None [] None [] [].

Inductive ClockAction :=
  | CPlay                (* [playClockSound()], under [clockMutex] *)
  | CStop                (* [stopClockSound()], under [clockMutex] *)
  | CWake (k : nat)      (* goroutine k receives from the closed channel *)
  | CClose (k : nat)     (* goroutine k runs [clockPlayer.Close()] *)
  | CNil (k : nat)       (* goroutine k runs [clockPlayer = nil] under the lock *)
  | CEnable (b : bool).  (* the checkbox or the editor changes the setting *)

Inductive ClockOutcome :=
  | CNext (s : Clock)
  | CBlocked
  | CPanic.   (* [close] of a closed or nil channel, or a call on a nil player *)

Definition setCloser (k : nat) (c : Closer) (s : Clock) : Clock :=
  mkClock (enabled s) (hasContext s) (clockPlayer s) (players s) (clockStopCh s)
          (clockChans s) (<[k := c]> (closers s)).

Definition clockStep (a : ClockAction) (s : Clock) : ClockOutcome :=
  match a with
  | CPlay =>
      if negb (enabled s) then CNext s
      else if negb (hasContext s) then CNext s
      else
        match clockPlayer s with
        | Some _ => CNext s
        | None =>
            CNext (mkClock (enabled s) (hasContext s)
                           (Some (length (players s))) (players s ++ [true])
                           (Some (length (clockChans s))) (clockChans s ++ [false])
                           (closers s ++ [CWaiting]))
        end
  | CStop =>
      match clockPlayer s with
      | None => CNext s
      | Some _ =>
          match clockStopCh s with
          | None => CPanic
          | Some c =>
              match clockChans s !! c with
              | Some false =>
                  CNext (mkClock (enabled s) (hasContext s) (clockPlayer s) (players s)
                                 (clockStopCh s) (<[c := true]> (clockChans s)) (closers s))
              | _ => CPanic
              end
          end
      end
  | CWake k =>
      match closers s !! k with
      | Some CWaiting =>
          match clockStopCh s with
          | Some c =>
              match clockChans s !! c with
              | Some true => CNext (setCloser k CWoken s)
              | _ => CBlocked
              end
          | None => CBlocked
          end
      | _ => CBlocked
      end
  | CClose k =>
      match closers s !! k with
      | Some CWoken =>
          match clockPlayer s with
          | Some pl =>
              CNext (mkClock (enabled s) (hasContext s) (clockPlayer s)
                             (<[pl := false]> (players s)) (clockStopCh s) (clockChans s)
                             (<[k := CClosedPlayer]> (closers s)))
          | None => CPanic
          end
      | _ => CBlocked
      end
  | CNil k =>
      match closers s !! k with
      | Some CClosedPlayer =>
          CNext (mkClock (enabled s) (hasContext s) None (players s) (clockStopCh s)
                         (clockChans s) (<[k := CDone]> (closers s)))
      | _ => CBlocked
      end
  | CEnable b =>
      CNext (mkClock b (hasContext s) (clockPlayer s) (players s) (clockStopCh s)
                     (clockChans s) (closers s))
  end.

Fixpoint clockRun (acts : list ClockAction) (s : Clock) : ClockOutcome :=
  match acts with
  | [] => CNext s
  | a :: rest =>
      match clockStep a s with
      | CNext s1 => clockRun rest s1
      | o => o
      end
  end.

Definition ClockReachable (s : Clock) : Prop :=
  exists sound ctx acts, clockRun acts (initClock sound ctx) = CNext s.

(** Players that are open, goroutines that have not returned. *)
Definition openPlayers (s : Clock) : nat := length (List.filter (fun b : bool => b) (players s)).

Definition isAlive (c : Closer) : bool := match c with CDone => false | _ => true end.

Definition aliveClosers (s : Clock) : nat := length (List.filter isAlive (closers s)).

(** The invariant of the ambient sound. *)
Definition ClockInv (s : Clock) : Prop :=
  match clockPlayer s with
  | None => Forall (fun b => b = false) (players s) /\ Forall (fun c => c = CDone) (closers s)
  | Some pl =>
      exists ps b cs st c,
        players s = ps ++ [b] /\ pl = length ps /\ Forall (fun b => b = false) ps /\
        closers s = cs ++ [st] /\ Forall (fun c => c = CDone) cs /\
        clockStopCh s = Some c /\ is_Some (clockChans s !! c) /\
        match st with
        | CWaiting => b = true
        | CWoken => b = true /\ clockChans s !! c = Some true
        | CClosedPlayer => b = false /\ clockChans s !! c = Some true
        | CDone => False
        end
  end.

(** The calls of [playClockSound] and [stopClockSound] in a trace of the
    timer, in order. *)
Definition clockActions (tr : list Event) : list ClockAction :=
  flat_map (fun e => match e with
                     | PlayClockSound => [CPlay]
                     | StopClockSound => [CStop]
                     | _ => []
                     end) tr.

(** A pomodoro started from the menu and stopped from the tray icon, then
    a break started and stopped from the tray icon, each goroutine taking
    its stop signal. *)
Definition stopTwice : list Action :=
  Start 25 true ++ [AEnter 0; ATrayClick; AStopped 0] ++
  [ATrayClick; AEnter 1; ATrayClick; AStopped 1].

(** * Part VII: the font array generator *)

Definition tab : ascii := ascii_of_nat 9.

(** One hexadecimal digit of [%02x]. *)
Definition hexDigit (n : Z) : ascii :=
  if n <? 10 then ascii_of_nat (Z.to_nat (48 + n)) else ascii_of_nat (Z.to_nat (87 + n)).

(** [fmt.Sprintf("%02x", b)] for a byte. *)
Definition hex2 (b : Z) : string :=
  String (hexDigit (b / 16)) (String (hexDigit (b mod 16)) EmptyString).

(** What the loop body prints for the byte at index [i]. *)
Definition arrayEntry (i : nat) (b : Z) : string :=
  ((if (i mod 16 =? 0)%nat then String tab EmptyString else EmptyString) ++
   "0x" ++ hex2 b ++ ", " ++
   (if ((i + 1) mod 16 =? 0)%nat then String newline EmptyString else EmptyString))%string.

Fixpoint arrayBody (i : nat) (data : list Z) : string :=
  match data with
  | [] => EmptyString
  | b :: rest => (arrayEntry i b ++ arrayBody (S i) rest)%string
  end.

(** The text that [main] of the generator prints for the bytes of
    [numbers.ttf]. *)
Definition ttfToArray (data : list Z) : string :=
  ("var arialbdTTF = []byte{" ++ String newline EmptyString ++
   arrayBody 0 data ++
   String newline EmptyString ++ "}" ++ String newline EmptyString)%string.

(** The value of a hexadecimal digit, 0 for another character. *)
Definition hexDigitValue (c : ascii) : Z :=
  match hexVal c with Some n => Z.of_N n | None => 0 end.

(** The bytes a text names by its tokens [0xhh], in order. *)
Fixpoint hexBytes (s : string) : list Z :=
  match s with
  | EmptyString => []
  | String c0 r0 =>
      if Ascii.eqb c0 "0" then
        match r0 with
        | String c1 (String h (String l r)) =>
            if Ascii.eqb c1 "x"
            then (16 * hexDigitValue h + hexDigitValue l) :: hexBytes r
            else hexBytes r0
        | _ => hexBytes r0
        end
      else hexBytes r0
  end.

(** The character of a decimal digit. *)
Definition digitChar (d : Z) : ascii := ascii_of_nat (Z.to_nat (48 + d)).

(** The countdown clock mm:ss of [k] seconds. *)
Definition clockText (k : Z) : string :=
  String (digitChar (k / 600))
    (String (digitChar (k / 60 mod 10))
       (String ":"
          (String (digitChar (k mod 60 / 10))
             (String (digitChar (k mod 10)) EmptyString)))).

(** A focus countdown of 25 minutes whose goroutine is blocked in
    [select], and one whose goroutine has just taken a tick. *)
Definition focusInSelect : State :=
  mkState 0 true true (25 * Minute) 0 [false] "" defaultSettings [InSelect 0].

Definition focusGotTick : State :=
  mkState 0 true true (25 * Minute) 0 [false] "" defaultSettings [GotTick].

(** * Part I, continued: the ticker

    [ticker] is one package-level variable, shared by all countdown
    goroutines and read and written without [mu]: a goroutine assigns it
    a new ticker before its loop, binds the ticker it then names in
    [defer ticker.Stop()], reads it again for the operand [ticker.C] on
    every entry into [select], and reads it once more for
    [ticker.Stop()] in the stop branch.  The machine below adds this to
    the machine of [step]: a ticker is named by the goroutine that made
    it, and a stopped ticker delivers no further tick (the module is
    built with go 1.24, where a receive after [Stop] gets no stale
    value). *)

(** Where a goroutine is before its loop. *)
Inductive Startup :=
  | BeforeNewTicker   (* next is [ticker = time.NewTicker(time.Second)] *)
  | BeforeDefer       (* next is [defer ticker.Stop()] *)
  | InLoop.

Record Timers := mkTimers {
  machine : State;                 (* the variables of [step] *)
  tickerVar : option nat;          (* the package-level [ticker] *)
  stoppedTickers : list nat;       (* tickers on which [Stop] was called *)
  startup : list (nat * Startup);  (* per goroutine, the latest entry first *)
  deferredStop : list (nat * nat); (* per goroutine, the ticker bound by [defer] *)
  selectTicker : list (nat * nat)  (* per goroutine, the ticker its [select] waits on *)
}.

Fixpoint assoc {V : Type} (k : nat) (l : list (nat * V)) : option V :=
  match l with
  | [] => None
  | (k', v) :: rest => if Nat.eqb k k' then Some v else assoc k rest
  end.

Definition startupOf (g : nat) (t : Timers) : Startup :=
  match assoc g (startup t) with Some p => p | None => BeforeNewTicker end.

Definition isStopped (k : nat) (t : Timers) : bool := existsb (Nat.eqb k) (stoppedTickers t).

(** [Stop] on the ticker that a variable names. *)
Definition stopTicker (k : option nat) (l : list nat) : list nat :=
  match k with Some k => k :: l | None => l end.

Definition initTimers (st : TimerSettings) : Timers :=
  mkTimers (initState st) None [] [] [] [].

Inductive TimerAction :=
  | TNewTicker (g : nat)   (* goroutine g runs [ticker = time.NewTicker(time.Second)] *)
  | TDeferStop (g : nat)   (* goroutine g runs [defer ticker.Stop()] *)
  | TStep (a : Action).    (* a step of the machine of [step] *)

Inductive TimerOutcome :=
  | TNext (t : Timers) (tr : list Event)
  | TBlocked
  | TPanic.

(** What the ticker adds to the guard of a step: the loop is entered
    after the two statements before it, and a tick comes from the ticker
    that the goroutine's [select] waits on, unless it is stopped. *)
Definition tickerAllows (a : Action) (t : Timers) : bool :=
  match a with
  | AEnter g => match startupOf g t with InLoop => true | _ => false end
  | ATick g =>
      match assoc g (selectTicker t) with
      | Some k => negb (isStopped k t)
      | None => false
      end
  | _ => true
  end.

(** What a step does to the tickers, given the state [s'] it leads to.
    Entering [select] reads [ticker] for the operand; leaving the
    function runs the deferred [Stop]; the stop branch first calls
    [Stop] on the ticker that [ticker] names at that moment. *)
Definition tickerEffect (a : Action) (t : Timers) (s' : State) : Timers :=
  match a with
  | AEnter g =>
      match procs s' !! g with
      | Some (InSelect _) =>
          mkTimers s' (tickerVar t) (stoppedTickers t) (startup t) (deferredStop t)
                   (match tickerVar t with
                    | Some k => (g, k) :: selectTicker t
                    | None => selectTicker t
                    end)
      | _ =>
          mkTimers s' (tickerVar t)
                   (stopTicker (assoc g (deferredStop t)) (stoppedTickers t))
                   (startup t) (deferredStop t) (selectTicker t)
      end
  | AStopped g =>
      mkTimers s' (tickerVar t)
               (stopTicker (assoc g (deferredStop t))
                           (stopTicker (tickerVar t) (stoppedTickers t)))
               (startup t) (deferredStop t) (selectTicker t)
  | ABody g =>
      match procs s' !! g with
      | Some Exited =>
          mkTimers s' (tickerVar t)
                   (stopTicker (assoc g (deferredStop t)) (stoppedTickers t))
                   (startup t) (deferredStop t) (selectTicker t)
      | _ =>
          mkTimers s' (tickerVar t) (stoppedTickers t) (startup t) (deferredStop t)
                   (selectTicker t)
      end
  | _ =>
      mkTimers s' (tickerVar t) (stoppedTickers t) (startup t) (deferredStop t)
               (selectTicker t)
  end.

Definition timerStep (a : TimerAction) (t : Timers) : TimerOutcome :=
  match a with
  | TNewTicker g =>
      match procs (machine t) !! g with
      | Some AtLoop =>
          match startupOf g t with
          | BeforeNewTicker =>
              TNext (mkTimers (machine t) (Some g) (stoppedTickers t)
                              ((g, BeforeDefer) :: startup t) (deferredStop t)
                              (selectTicker t)) []
          | _ => TBlocked
          end
      | _ => TBlocked
      end
  | TDeferStop g =>
      match startupOf g t with
      | BeforeDefer =>
          match tickerVar t with
          | Some k =>
              TNext (mkTimers (machine t) (tickerVar t) (stoppedTickers t)
                              ((g, InLoop) :: startup t) ((g, k) :: deferredStop t)
                              (selectTicker t)) []
          | None => TPanic
          end
      | _ => TBlocked
      end
  | TStep a =>
      if tickerAllows a t then
        match step a (machine t) with
        | Next s' tr => TNext (tickerEffect a t s') tr
        | Blocked => TBlocked
        | Panic => TPanic
        end
      else TBlocked
  end.

Fixpoint timerRun (acts : list TimerAction) (t : Timers) : TimerOutcome :=
  match acts with
  | [] => TNext t []
  | a :: rest =>
      match timerStep a t with
      | TNext t1 tr1 =>
          match timerRun rest t1 with
          | TNext t2 tr2 => TNext t2 (tr1 ++ tr2)
          | o => o
          end
      | o => o
      end
  end.

Definition TimersReachable (t : Timers) : Prop :=
  exists st acts tr, timerRun acts (initTimers st) = TNext t tr.

(** The steps of [step] in a schedule of the machine with tickers. *)
Definition stepsOf (acts : list TimerAction) : list Action :=
  flat_map (fun a => match a with TStep b => [b] | _ => [] end) acts.

(** Steps of goroutines, as opposed to click handlers. *)
Definition isGoroutineTimerAction (a : TimerAction) : bool :=
  match a with
  | TStep b => isGoroutineAction b
  | _ => true
  end.

(** Tickers and goroutines are named by numbers below the number of
    goroutines started so far. *)
Definition TimersInv (t : Timers) : Prop :=
  let n := length (procs (machine t)) in
  (forall k, tickerVar t = Some k -> (k < n)%nat) /\
  Forall (fun k => (k < n)%nat) (stoppedTickers t) /\
  (forall g k, assoc g (deferredStop t) = Some k -> (k < n)%nat) /\
  (forall g, (n <= g)%nat -> assoc g (startup t) = None).

(** A menu restart while the old goroutine waits in [select]: the old
    goroutine takes its stop signal before the new one has made its
    ticker ([restartThenStop]), or after ([restartThenNewTicker]). *)
Definition restartThenStop (d : Z) (g n : nat) : list TimerAction :=
  [TStep (AHandleTimerClick d); TStep (AStopped g);
   TNewTicker n; TDeferStop n; TStep (AEnter n); TStep (ATick n)].

Definition restartThenNewTicker (d : Z) (g n : nat) : list TimerAction :=
  [TStep (AHandleTimerClick d); TNewTicker n; TStep (AStopped g);
   TDeferStop n; TStep (AEnter n)].

(** A focus countdown of 25 minutes whose goroutine waits in [select]
    on its own ticker. *)
Definition timersInSelect : Timers :=
  mkTimers focusInSelect (Some 0%nat) [] [(0%nat, InLoop); (0%nat, BeforeDefer)]
           [(0%nat, 0%nat)] [(0%nat, 0%nat)].

(** The state that [handleTimerClick] leaves on a running timer: the old
    stop channel closed, a new one made, the new countdown started. *)
Definition restarted (d : Z) (s : State) : State :=
  mkState (pomodoroCount s) true (isInPomodoro s) d (length (chans s))
          (<[stopCh s := true]> (chans s) ++ [false]) (oldDisplayText s) (settings s)
          (procs s ++ [AtLoop]).

(** A goroutine that waits in [select] for a tick that cannot come and
    for a stop signal that has not been given. *)
Definition Stuck (n c : nat) (t : Timers) : Prop :=
  procs (machine t) !! n = Some (InSelect c) /\
  chans (machine t) !! c = Some false /\
  exists k, assoc n (selectTicker t) = Some k /\ isStopped k t = true.

(** The last second of a countdown started from the menu with the
    default settings: all ticks but the last have been served, and the
    goroutine has taken the last tick and not yet [mu]. *)
Definition focusLastTick : list Action :=
  Start 25 true ++ naturalTicks 0 1499 ++ [AEnter 0; ATick 0].

Definition breakLastTick : list Action :=
  Start 5 false ++ naturalTicks 0 299 ++ [AEnter 0; ATick 0].

(** * Facts about Part I *)

Example start_then_tick_demo :
  run (Start 1 true ++ naturalTicks 0 2) (initState (mkSettings 25 5 15 true)) =
  Next (mkState 0 true true (58 * Second) 0 [false] "58"
                (mkSettings 25 5 15 true) [AtLoop])
       [PlayClockSound;
        SetIcon "59" 0; SetTooltip "00:59";
        SetIcon "58" 0; SetTooltip "00:58"].
Proof. vm_compute. reflexivity. Qed.

Section MachineIntegers.

Lemma wrap64_id z : minInt64 <= z <= maxInt64 -> wrap64 z = z.
Proof.
  unfold wrap64, minInt64, maxInt64. intros H.
  rewrite Z.mod_small by lia. lia.
Qed.

Lemma bump_small c : 0 <= c <= 4 -> bump c = if 4 <? c + 1 then 1 else c + 1.
Proof.
  intros H. unfold bump. rewrite wrap64_id; [reflexivity|].
  unfold minInt64, maxInt64. lia.
Qed.

Lemma bump_range c : 0 <= c <= 4 -> 1 <= bump c <= 4.
Proof.
  intros H. rewrite bump_small by assumption.
  destruct (4 <? c + 1) eqn:E; [lia|]. apply Z.ltb_ge in E. lia.
Qed.

End MachineIntegers.

Section Decimal.

Lemma uint_head d : asciiHead (NilZero.string_of_uint d) = true.
Proof. destruct d; reflexivity. Qed.

Lemma itoa_head n : asciiHead (itoa n) = true.
Proof.
  unfold itoa. destruct (Z.to_int n) as [d|d]; simpl.
  - apply uint_head.
  - reflexivity.
Qed.

Lemma itoa_not_ready n : String.eqb (itoa n) readyGlyph = false.
Proof.
  apply String.eqb_neq. intros E.
  pose proof (itoa_head n) as H. rewrite E in H. discriminate H.
Qed.

Lemma displayText_not_ready r : String.eqb (displayText r) readyGlyph = false.
Proof. unfold displayText. destruct (r <? Minute); apply itoa_not_ready. Qed.

End Decimal.

Section Invariant.

Lemma stopSignal_some s :
  chans s !! stopCh s = Some false ->
  exists s1, stopSignal s = Some s1 /\
    pomodoroCount s1 = pomodoroCount s /\ isRunning s1 = false /\
    isInPomodoro s1 = isInPomodoro s /\ remainingTime s1 = remainingTime s /\
    settings s1 = settings s /\ procs s1 = procs s /\
    oldDisplayText s1 = oldDisplayText s /\
    chans s1 !! stopCh s1 = Some false /\
    chans s1 !! stopCh s = Some true.
Proof.
  intros H. unfold stopSignal. rewrite H. eexists. split; [reflexivity|].
  simpl. repeat split.
  - rewrite lookup_app_r; rewrite length_insert; [|lia].
    rewrite Nat.sub_diag. reflexivity.
  - apply lookup_lt_Some in H as Hlt.
    rewrite lookup_app_l by (rewrite length_insert; exact Hlt).
    apply list_lookup_insert_eq. exact Hlt.
Qed.

Lemma Inv_init st : Inv (initState st).
Proof. split; [reflexivity | simpl; lia]. Qed.

Lemma step_Inv a s :
  Inv s -> exists s' tr, (step a s = Next s' tr /\ Inv s') \/ step a s = Blocked.
Proof.
  intros [Hch Hc].
  destruct a as [b|d| |st|g|g|g|g]; simpl.
  - do 2 eexists. left. split; [reflexivity|]. split; assumption.
  - unfold handleTimerClick. destruct (isRunning s).
    + destruct (stopSignal_some s Hch) as (s1 & -> & Hc1 & _ & _ & _ & _ & _ & _ & Hch1 & _).
      simpl. do 2 eexists. left. split; [reflexivity|]. split; simpl; [exact Hch1 | lia].
    + simpl. do 2 eexists. left. split; [reflexivity|]. split; assumption.
  - unfold handleTrayClick. destruct (isRunning s).
    + destruct (stopSignal_some s Hch) as (s1 & -> & Hc1 & _ & _ & _ & _ & _ & _ & Hch1 & _).
      do 2 eexists. left. split; [reflexivity|]. split; [exact Hch1 | lia].
    + destruct (isInPomodoro s); simpl; do 2 eexists; left;
        (split; [reflexivity|]); split; assumption.
  - do 2 eexists. left. split; [reflexivity|]. split; assumption.
  - destruct (procs s !! g) as [[ | | | ]|]; try (exists s, []; right; reflexivity).
    destruct (0 <? remainingTime s); do 2 eexists; left;
      (split; [reflexivity|]); split; assumption.
  - destruct (procs s !! g) as [[ |c| | ]|]; try (exists s, []; right; reflexivity).
    destruct (chans s !! c) as [[|]|]; try (exists s, []; right; reflexivity).
    do 2 eexists; left; (split; [reflexivity|]); split; assumption.
  - destruct (procs s !! g) as [[ |c| | ]|]; try (exists s, []; right; reflexivity).
    destruct (chans s !! c) as [[|]|]; try (exists s, []; right; reflexivity).
    do 2 eexists; left; (split; [reflexivity|]); split; assumption.
  - destruct (procs s !! g) as [[ | | | ]|]; try (exists s, []; right; reflexivity).
    unfold tickBody. destruct (wrap64 (remainingTime s - Second) <=? 0).
    + do 2 eexists. left. split; [reflexivity|]. split; simpl; [assumption|].
      destruct (isInPomodoro s); [|assumption].
      pose proof (bump_range _ Hc). lia.
    + do 2 eexists. left. split; [reflexivity|]. split; assumption.
Qed.

Lemma step_Inv_next a s s' tr : Inv s -> step a s = Next s' tr -> Inv s'.
Proof.
  intros HI Hs. destruct (step_Inv a s HI) as (s1 & tr1 & [[E HI1] | E]);
    rewrite E in Hs; [injection Hs as <- <-; exact HI1 | discriminate].
Qed.

Lemma run_Inv acts : forall s s' tr, Inv s -> run acts s = Next s' tr -> Inv s'.
Proof.
  induction acts as [|a rest IH]; intros s s' tr HI Hr; simpl in Hr.
  - injection Hr as <- _. exact HI.
  - destruct (step a s) as [s1 tr1| |] eqn:Es; try discriminate.
    destruct (run rest s1) as [s2 tr2| |] eqn:Er; try discriminate.
    injection Hr as <- _. eapply IH; [|exact Er]. eapply step_Inv_next; eassumption.
Qed.

Lemma Reachable_Inv s : Reachable s -> Inv s.
Proof. intros (st & acts & tr & Hr). eapply run_Inv; [apply Inv_init | exact Hr]. Qed.

(** No schedule makes the program close a closed channel. *)
Lemma run_no_panic acts : forall s, Inv s -> run acts s <> Panic.
Proof.
  induction acts as [|a rest IH]; intros s HI; simpl; [discriminate|].
  destruct (step_Inv a s HI) as (s1 & tr1 & [[E HI1] | E]); rewrite E; [|discriminate].
  specialize (IH s1 HI1). destruct (run rest s1); [discriminate | discriminate | congruence].
Qed.

Lemma run_app a b s :
  run (a ++ b) s =
  match run a s with
  | Next s1 t1 =>
      match run b s1 with
      | Next s2 t2 => Next s2 (t1 ++ t2)
      | o => o
      end
  | o => o
  end.
Proof.
  revert s. induction a as [|x a IH]; intros s; simpl.
  - destruct (run b s); reflexivity.
  - destruct (step x s) as [s1 tr1| |]; try reflexivity.
    rewrite IH. destruct (run a s1) as [s2 tr2| |]; try reflexivity.
    destruct (run b s2) as [s3 tr3| |]; try reflexivity.
    rewrite app_assoc. reflexivity.
Qed.

Lemma Reachable_run acts s s' tr : Reachable s -> run acts s = Next s' tr -> Reachable s'.
Proof.
  intros (st & acts0 & tr0 & Hr) Hs. exists st, (acts0 ++ acts), (tr0 ++ tr).
  rewrite run_app, Hr, Hs. reflexivity.
Qed.

End Invariant.


Section Countdown.

#[local] Arguments displayText : simpl never.
#[local] Arguments tooltipText : simpl never.
#[local] Arguments readyGlyph : simpl never.

Lemma beeps_app t1 t2 : beeps (t1 ++ t2) = (beeps t1 + beeps t2)%nat.
Proof. unfold beeps. rewrite List.filter_app, length_app. reflexivity. Qed.

Lemma readyRenders_app t1 t2 :
  readyRenders (t1 ++ t2) = (readyRenders t1 + readyRenders t2)%nat.
Proof. unfold readyRenders. rewrite List.filter_app, length_app. reflexivity. Qed.

Lemma whole_seconds_display k :
  0 <= k -> displayText (k * Second) = if k <? 60 then itoa k else itoa (k / 60).
Proof.
  intros Hk. unfold displayText, secondsInt, minutesInt, Minute.
  replace (k * Second <? 60 * Second) with (k <? 60)
    by (unfold Second; destruct (k <? 60) eqn:E; symmetry;
        [apply Z.ltb_lt; apply Z.ltb_lt in E | apply Z.ltb_ge; apply Z.ltb_ge in E]; lia).
  destruct (k <? 60).
  - rewrite Z.quot_mul by (unfold Second; lia). reflexivity.
  - rewrite Z.quot_div_nonneg by (unfold Second; lia).
    rewrite (Z.mul_comm 60 Second), <- Z.div_div by (unfold Second; lia).
    rewrite Z.div_mul by (unfold Second; lia). reflexivity.
Qed.

(** The locked body on a whole number of seconds, before the last one. *)
Lemma tickBody_nonterminal g s k :
  remainingTime s = (k + 1) * Second -> 0 < k -> (k + 1) * Second <= maxInt64 ->
  tickBody g s =
  (mkState (pomodoroCount s) (isRunning s) (isInPomodoro s) (k * Second)
           (stopCh s) (chans s) (displayText (k * Second)) (settings s)
           (<[g := AtLoop]> (procs s)),
   (if k <? 11 then [PlayTickSound] else []) ++
   (if String.eqb (displayText (k * Second)) (oldDisplayText s) then []
    else [SetIcon (displayText (k * Second)) (pomodoroCount s)]) ++
   [SetTooltip (tooltipText (k * Second))]).
Proof.
  intros Hrem Hk Hmax. unfold tickBody. rewrite Hrem.
  replace ((k + 1) * Second - Second) with (k * Second) by lia.
  rewrite wrap64_id by (unfold minInt64, maxInt64, Second in *; lia).
  replace (k * Second <=? 0) with false
    by (symmetry; apply Z.leb_gt; unfold Second; lia).
  replace (k * Second <? 11 * Second) with (k <? 11)
    by (unfold Second; destruct (k <? 11) eqn:E; symmetry;
        [apply Z.ltb_lt; apply Z.ltb_lt in E | apply Z.ltb_ge; apply Z.ltb_ge in E]; lia).
  reflexivity.
Qed.

(** The locked body on the last second. *)
Lemma tickBody_terminal g s :
  remainingTime s = Second ->
  tickBody g s =
  (mkState (if isInPomodoro s then bump (pomodoroCount s) else pomodoroCount s)
           false (isInPomodoro s) 0 (stopCh s) (chans s) (oldDisplayText s)
           (settings s) (<[g := Exited]> (procs s)),
   completion s).
Proof. intros Hrem. unfold tickBody. rewrite Hrem. reflexivity. Qed.

Lemma naturalTick_run g s :
  procs s !! g = Some AtLoop -> 0 < remainingTime s ->
  chans s !! stopCh s = Some false ->
  run (naturalTick g) s =
  let '(s1, tr) := tickBody g s in Next s1 (tr ++ []).
Proof.
  intros Hg Hpos Hch. apply lookup_lt_Some in Hg as Hlt.
  unfold naturalTick, run. simpl. rewrite Hg.
  replace (0 <? remainingTime s) with true by (symmetry; apply Z.ltb_lt; exact Hpos).
  simpl. rewrite list_lookup_insert_eq by exact Hlt. rewrite Hch.
  simpl. rewrite list_lookup_insert_eq by (rewrite length_insert; exact Hlt).
  unfold tickBody. simpl.
  rewrite !list_insert_insert_eq.
  destruct (wrap64 (remainingTime s - Second) <=? 0); reflexivity.
Qed.

Lemma countdown_completes n : forall g s,
  procs s !! g = Some AtLoop ->
  chans s !! stopCh s = Some false ->
  remainingTime s = Z.of_nat (S n) * Second ->
  Z.of_nat (S n) * Second <= maxInt64 ->
  exists s2 pre,
    run (naturalTicks g (S n)) s = Next s2 (pre ++ completion s) /\
    isRunning s2 = false /\
    pomodoroCount s2 = (if isInPomodoro s then bump (pomodoroCount s) else pomodoroCount s) /\
    isInPomodoro s2 = isInPomodoro s /\
    remainingTime s2 = 0 /\
    procs s2 = <[g := Exited]> (procs s) /\
    readyRenders pre = 0%nat /\
    beeps pre = Nat.min n 10.
Proof.
  induction n as [|m IH]; intros g s Hg Hch Hrem Hmax.
  - exists (fst (tickBody g s)), [].
    change (naturalTicks g 1) with (naturalTick g ++ []). rewrite app_nil_r.
    rewrite naturalTick_run by (try assumption; rewrite Hrem; unfold Second; lia).
    rewrite tickBody_terminal by (rewrite Hrem; simpl; lia).
    simpl. repeat split; reflexivity.
  - assert (Hrem' : remainingTime s = (Z.of_nat (S m) + 1) * Second) by lia.
    assert (Hk : 0 < Z.of_nat (S m)) by lia.
    assert (Hmax' : (Z.of_nat (S m) + 1) * Second <= maxInt64) by lia.
    pose proof (tickBody_nonterminal g s _ Hrem' Hk Hmax') as Hbody.
    set (s1 := fst (tickBody g s)).
    assert (Hg1 : procs s1 !! g = Some AtLoop).
    { unfold s1. rewrite Hbody. simpl. apply list_lookup_insert_eq.
      eapply lookup_lt_Some; exact Hg. }
    assert (Hrem1 : remainingTime s1 = Z.of_nat (S m) * Second)
      by (unfold s1; rewrite Hbody; reflexivity).
    assert (Hmax1 : Z.of_nat (S m) * Second <= maxInt64) by (unfold Second in *; lia).
    assert (Hch1 : chans s1 !! stopCh s1 = Some false)
      by (unfold s1; rewrite Hbody; exact Hch).
    destruct (IH g s1 Hg1 Hch1 Hrem1 Hmax1)
      as (s2 & pre & Hrun & Hr2 & Hc2 & Hk2 & Hrem2 & Hp2 & Hready & Hbeeps).
    exists s2, (snd (tickBody g s) ++ pre).
    change (naturalTicks g (S (S m))) with (naturalTick g ++ naturalTicks g (S m)).
    rewrite run_app, naturalTick_run by (try assumption; rewrite Hrem; unfold Second; lia).
    destruct (tickBody g s) as [s1' tr1] eqn:Eb. simpl in s1. subst s1.
    rewrite Hrun.
    assert (Hsame : completion s1' = completion s).
    { injection Hbody as -> _. reflexivity. }
    rewrite Hsame, app_nil_r, app_assoc. split; [reflexivity|].
    injection Hbody as -> ->. simpl in *.
    split; [exact Hr2|]. split; [exact Hc2|]. split; [exact Hk2|].
    split; [exact Hrem2|].
    split; [rewrite Hp2; apply list_insert_insert_eq|].
    rewrite !readyRenders_app, !beeps_app, Hready, Hbeeps.
    split.
    + destruct (Z.of_nat (S m) <? 11);
        destruct (String.eqb _ (oldDisplayText s)) eqn:E; try reflexivity;
        unfold readyRenders; simpl; rewrite displayText_not_ready; reflexivity.
    + destruct (Z.of_nat (S m) <? 11) eqn:E11;
        [apply Z.ltb_lt in E11 | apply Z.ltb_ge in E11];
        destruct (String.eqb _ (oldDisplayText s)); unfold beeps; simpl; lia.
Qed.

End Countdown.

Section Claims.

Lemma focusStarted_reachable : Reachable focusStarted.
Proof. exists defaultSettings, (Start 25 true), [PlayClockSound]. reflexivity. Qed.

(** What holds of the counter.  In every state reachable from the initial
    state by any schedule of handler and goroutine steps, [pomodoroCount]
    lies in [0,4]; a step changes it only when it is the locked body of a
    countdown goroutine that took a tick (not the stop signal), found the
    remaining time used up while [isInPomodoro] holds, and then the new
    value is the old one plus one, with a value above 4 replaced by 1.
    Whether the session of that goroutine was stopped before, or was
    started as a pomodoro at all, the body does not ask. *)
Theorem count_range_and_mutation (s : State) :
  Reachable s ->
  0 <= pomodoroCount s <= 4 /\
  forall a s' tr, step a s = Next s' tr ->
    pomodoroCount s' = pomodoroCount s \/
    (exists g, a = ABody g /\ procs s !! g = Some GotTick /\
               procs s' !! g = Some Exited /\
               isInPomodoro s = true /\ remainingTime s' <= 0 /\
               isRunning s' = false /\
               pomodoroCount s' =
                 if 4 <? pomodoroCount s + 1 then 1 else pomodoroCount s + 1).
Proof.
  intros HR. destruct (Reachable_Inv s HR) as [_ Hc]. split; [exact Hc|].
  intros a s' tr Hs.
  destruct a as [b|d| |st|g|g|g|g]; simpl in Hs.
  - injection Hs as <- _. left. reflexivity.
  - unfold handleTimerClick, stopSignal in Hs.
    destruct (isRunning s); [destruct (chans s !! stopCh s) as [[|]|]|];
      try discriminate; injection Hs as <- _; left; reflexivity.
  - unfold handleTrayClick, stopSignal in Hs.
    destruct (isRunning s); [destruct (chans s !! stopCh s) as [[|]|]|];
      try discriminate; [|destruct (isInPomodoro s)];
      injection Hs as <- _; left; reflexivity.
  - injection Hs as <- _. left. reflexivity.
  - destruct (procs s !! g) as [[ | | | ]|]; try discriminate.
    destruct (0 <? remainingTime s); injection Hs as <- _; left; reflexivity.
  - destruct (procs s !! g) as [[ |c| | ]|]; try discriminate.
    destruct (chans s !! c) as [[|]|]; try discriminate.
    injection Hs as <- _; left; reflexivity.
  - destruct (procs s !! g) as [[ |c| | ]|]; try discriminate.
    destruct (chans s !! c) as [[|]|]; try discriminate.
    injection Hs as <- _; left; reflexivity.
  - destruct (procs s !! g) as [[ | | | ]|] eqn:Hg; try discriminate.
    unfold tickBody in Hs.
    destruct (wrap64 (remainingTime s - Second) <=? 0) eqn:Hr.
    + injection Hs as <- _. simpl.
      destruct (isInPomodoro s) eqn:Hk; [right | left; reflexivity].
      exists g. split; [reflexivity|]. split; [exact Hg|].
      split; [apply list_lookup_insert_eq; eapply lookup_lt_Some; exact Hg|].
      split; [reflexivity|]. split; [apply Z.leb_le; exact Hr|].
      split; [reflexivity|]. apply bump_small. exact Hc.
    + injection Hs as <- _. left. reflexivity.
Qed.

Lemma count_range_and_mutation_witness :
  0 <= pomodoroCount focusStarted <= 4.
Proof. exact (proj1 (count_range_and_mutation focusStarted focusStarted_reachable)). Defined.

(** C4 as stated fails: the stop performed by a click on the tray icon
    renders the ready icon, the same render that ends a countdown. *)
Lemma stop_renders_ready_icon :
  Reachable focusStarted /\ isRunning focusStarted = true /\ ~ StopIsSilent focusStarted.
Proof.
  split; [apply focusStarted_reachable|]. split; [reflexivity|].
  intros H. destruct (H _ _ eq_refl) as (_ & _ & Hicon & _).
  vm_compute in Hicon. discriminate Hicon.
Qed.

(** C4, amended. In every reachable state with a countdown running, the
    stop sets [isRunning] to false, closes the current stop channel and
    installs a fresh open one, and leaves [pomodoroCount], the session
    kind and the remaining time as they are; no beep is played.  The stop
    of a tray click re-renders the ready icon with the unchanged dot
    count and sets a "stopped" tooltip; the stop inside a menu start
    emits nothing of its own. *)
Theorem stop_frame (s : State) :
  Reachable s -> isRunning s = true ->
  exists s1,
    stopSignal s = Some s1 /\
    isRunning s1 = false /\ pomodoroCount s1 = pomodoroCount s /\
    isInPomodoro s1 = isInPomodoro s /\ remainingTime s1 = remainingTime s /\
    chans s1 !! stopCh s = Some true /\ chans s1 !! stopCh s1 = Some false /\
    step ATrayClick s =
      Next s1 [SetIcon readyGlyph (pomodoroCount s);
               SetTooltip (if isInPomodoro s
                           then "Pomodoro stopped - Click to start Break"
                           else "Break stopped - Click to start Pomodoro")] /\
    beeps [SetIcon readyGlyph (pomodoroCount s);
           SetTooltip (if isInPomodoro s
                       then "Pomodoro stopped - Click to start Break"
                       else "Break stopped - Click to start Pomodoro")] = 0%nat /\
    forall d, exists s2 tr,
      step (AHandleTimerClick d) s = Next s2 tr /\ startTimer d s1 = (s2, tr) /\
      readyRenders tr = 0%nat /\ beeps tr = 0%nat.
Proof.
  intros HR Hrun. destruct (Reachable_Inv s HR) as [Hch _].
  destruct (stopSignal_some s Hch)
    as (s1 & E & Hc1 & Hr1 & Hk1 & Hrem1 & _ & _ & _ & Hnew & Hold).
  exists s1. repeat split; try assumption.
  - simpl. unfold handleTrayClick. rewrite Hrun, E. reflexivity.
  - intros d. simpl. unfold handleTimerClick. rewrite Hrun, E.
    do 2 eexists. split; [reflexivity|]. split; [reflexivity|].
    simpl. destruct (isInPomodoro s1 && EnableClockSound (settings s1)); split; reflexivity.
Qed.

Lemma stop_frame_witness :
  exists s1, step ATrayClick focusStarted =
             Next s1 [SetIcon readyGlyph 0;
                      SetTooltip "Pomodoro stopped - Click to start Break"] /\
             isRunning s1 = false /\ pomodoroCount s1 = 0.
Proof.
  destruct (stop_frame focusStarted focusStarted_reachable eq_refl)
    as (s1 & _ & Hr & Hc & _ & _ & _ & _ & Hs & _).
  exists s1. split; [exact Hs|]. split; [exact Hr | exact Hc].
Defined.

(** C1 as stated fails for a number of minutes whose nanosecond count
    overflows [time.Duration]: the product wraps to a negative value, the
    goroutine leaves its loop before the first tick and has no further
    step, and [isRunning] stays true. *)
Lemma overlong_focus_never_completes :
  0 < maxMinutes + 1 /\
  ~ (exists s2 tr, FocusCompletes (initState defaultSettings) (maxMinutes + 1) s2 tr) /\
  run (Start (maxMinutes + 1) true ++ [AEnter 0%nat]) (initState defaultSettings) =
    Next (mkState 0 true true (-9223371993709551616) 0 [false] "" defaultSettings [Exited])
         [PlayClockSound; StopClockSound] /\
  forall a, In a [AEnter 0%nat; ATick 0%nat; AStopped 0%nat; ABody 0%nat] ->
    step a (mkState 0 true true (-9223371993709551616) 0 [false] "" defaultSettings [Exited])
    = Blocked.
Proof.
  split; [reflexivity|].
  split; [|split; [vm_compute; reflexivity
                  | intros a [<-|[<-|[<-|[<-|[]]]]]; reflexivity]].
  intros (s2 & tr & s1 & tr1 & pre & Hstart & Hrun & _).
  vm_compute in Hstart. injection Hstart as <- _.
  remember (Z.to_nat ((maxMinutes + 1) * 60)) as n eqn:En.
  destruct n as [|n]; [unfold maxMinutes in En; lia|].
  change (naturalTicks (length (procs (initState defaultSettings))) (S n))
    with (naturalTick 0 ++ naturalTicks 0 n) in Hrun.
  rewrite run_app in Hrun. vm_compute in Hrun. discriminate Hrun.
Qed.

(** C1, amended. For every number of minutes D with 0 < D <= 153722867
    (the durations a [time.Duration] can hold) and every reachable state,
    [Start(D, Focus)] followed by D*60 natural one-second ticks of the
    spawned goroutine leaves [isRunning] false and [pomodoroCount] one
    higher (a value above 4 replaced by 1); the ready icon is rendered
    exactly once and [playTickSound] is called exactly once by the
    terminal branch, after the ten tick cues of the last seconds. *)
Theorem focus_countdown_completes (s : State) (D : Z) :
  Reachable s -> 0 < D <= maxMinutes ->
  exists s2 tr, FocusCompletes s D s2 tr /\ beeps tr = 11%nat /\
                procs s2 !! length (procs s) = Some Exited.
Proof.
  intros HR [HD0 HD1]. destruct (Reachable_Inv s HR) as [Hch Hc].
  assert (Hmin : minutes D = D * 60 * Second).
  { unfold minutes, Minute. rewrite wrap64_id; [lia|].
    unfold minInt64, maxInt64, maxMinutes, Second in *. lia. }
  assert (Hstart : exists s1 tr1,
            run (Start D true) s = Next s1 tr1 /\
            procs s1 = procs s ++ [AtLoop] /\ remainingTime s1 = D * 60 * Second /\
            isInPomodoro s1 = true /\ pomodoroCount s1 = pomodoroCount s /\
            chans s1 !! stopCh s1 = Some false).
  { unfold Start, run, step, handleTimerClick. simpl isRunning. rewrite Hmin.
    destruct (isRunning s).
    - destruct (stopSignal_some (setKind true s) Hch)
        as (s0 & -> & Hc0 & _ & Hk0 & _ & _ & Hp0 & _ & Hch0 & _).
      simpl. do 2 eexists. split; [reflexivity|]. simpl.
      rewrite Hp0, Hk0, Hc0. repeat split; try reflexivity. exact Hch0.
    - simpl. do 2 eexists. split; [reflexivity|]. repeat split; try reflexivity.
      exact Hch. }
  destruct Hstart as (s1 & tr1 & Hs1 & Hp1 & Hrem1 & Hk1 & Hc1 & Hch1).
  set (g := length (procs s)).
  assert (Hg : procs s1 !! g = Some AtLoop).
  { rewrite Hp1. unfold g. rewrite lookup_app_r by lia.
    rewrite Nat.sub_diag. reflexivity. }
  destruct (Z.to_nat (D * 60)) as [|n] eqn:En; [lia|].
  assert (Hrem : remainingTime s1 = Z.of_nat (S n) * Second) by (rewrite Hrem1; lia).
  assert (Hmax : Z.of_nat (S n) * Second <= maxInt64)
    by (unfold maxInt64, maxMinutes, Second in *; lia).
  destruct (countdown_completes n g s1 Hg Hch1 Hrem Hmax)
    as (s2 & pre & Hrun & Hr2 & Hc2 & _ & _ & Hp2 & Hready & Hbeeps).
  exists s2, (pre ++ completion s1).
  assert (Hn : (10 <= n)%nat) by lia.
  split; [|split].
  - exists s1, tr1, pre. rewrite En. fold g.
    split; [exact Hs1|]. split; [exact Hrun|]. split; [reflexivity|].
    split; [exact Hr2|].
    split; [rewrite Hc2, Hk1, Hc1; apply bump_small; exact Hc|].
    split; [|split; [exact Hready | reflexivity]].
    rewrite readyRenders_app, Hready. reflexivity.
  - rewrite beeps_app, Hbeeps. change (beeps (completion s1)) with 1%nat. lia.
  - rewrite Hp2. apply list_lookup_insert_eq. eapply lookup_lt_Some; exact Hg.
Qed.

Lemma focus_countdown_completes_witness :
  exists s2 tr, FocusCompletes (initState defaultSettings) 1 s2 tr /\ beeps tr = 11%nat /\
                procs s2 !! 0%nat = Some Exited.
Proof.
  apply (focus_countdown_completes (initState defaultSettings) 1).
  - exists defaultSettings, [], []. reflexivity.
  - unfold maxMinutes. lia.
Defined.

(** C7. A non-terminal countdown step that leaves k whole seconds
    (k > 0) sets the display text to the whole number of remaining minutes
    when k is at least 60 and to the whole number of remaining seconds
    when k is below 60; the icon is rendered with exactly this text, and
    only if it differs from the text shown before.  At 60 seconds the text
    is "1", at 59 seconds it is "59". *)
Theorem display_text_format (g : nat) (s : State) (k : Z) :
  procs s !! g = Some GotTick ->
  remainingTime s = (k + 1) * Second -> 0 < k -> (k + 1) * Second <= maxInt64 ->
  exists s' tr,
    step (ABody g) s = Next s' tr /\
    remainingTime s' = k * Second /\
    displayText (k * Second) = (if k <? 60 then itoa k else itoa (k / 60)) /\
    oldDisplayText s' = displayText (k * Second) /\
    (forall t d, In (SetIcon t d) tr ->
       t = displayText (k * Second) /\ d = pomodoroCount s /\ t <> oldDisplayText s) /\
    (displayText (k * Second) <> oldDisplayText s ->
       In (SetIcon (displayText (k * Second)) (pomodoroCount s)) tr) /\
    displayText (60 * Second) = "1" /\ displayText (59 * Second) = "59".
Proof.
  intros Hg Hrem Hk Hmax. simpl. rewrite Hg.
  rewrite (tickBody_nonterminal g s k Hrem Hk Hmax).
  do 2 eexists. split; [reflexivity|]. split; [reflexivity|].
  split; [apply whole_seconds_display; lia|]. split; [reflexivity|].
  split; [|split; [|split; reflexivity]].
  - intros t d Hin. apply in_app_or in Hin as [Hin|Hin].
    { destruct (k <? 11); [destruct Hin as [Hin|[]]; discriminate Hin | destruct Hin]. }
    apply in_app_or in Hin as [Hin|Hin].
    + destruct (String.eqb_spec (displayText (k * Second)) (oldDisplayText s)) as [E|E];
        [destruct Hin|].
      destruct Hin as [Hin|[]]. injection Hin as <- <-. repeat split. exact E.
    + destruct Hin as [Hin|[]]. discriminate Hin.
  - intros Hne. apply in_or_app. right. apply in_or_app. left.
    destruct (String.eqb_spec (displayText (k * Second)) (oldDisplayText s)) as [E|E];
      [contradiction | left; reflexivity].
Qed.

Lemma display_text_format_witness :
  exists s' tr,
    step (ABody 0%nat) (tickPending 59) = Next s' tr /\
    oldDisplayText s' = "59" /\ In (SetIcon "59" 0) tr.
Proof.
  destruct (display_text_format 0%nat (tickPending 59) 59)
    as (s' & tr & Hs & _ & _ & Ho & _ & Hin & _ & H59).
  - reflexivity.
  - reflexivity.
  - lia.
  - unfold maxInt64, Second. lia.
  - exists s', tr. rewrite H59 in *. split; [exact Hs|]. split; [exact Ho|].
    apply Hin. discriminate.
Defined.

(** C8. In a countdown step that leaves a positive remaining time,
    [playTickSound] is called once when the remaining time is below 11
    seconds and not at all otherwise; the terminal countdown step calls
    it once; no other step calls it. *)
Theorem tick_beep_window (a : Action) (s s' : State) (tr : list Event) :
  step a s = Next s' tr ->
  (forall g, a = ABody g -> 0 < remainingTime s' ->
     beeps tr = if remainingTime s' <? 11 * Second then 1%nat else 0%nat) /\
  (forall g, a = ABody g -> remainingTime s' <= 0 -> beeps tr = 1%nat) /\
  ((forall g, a <> ABody g) -> beeps tr = 0%nat).
Proof.
  intros Hs. destruct a as [b|d| |st|g|g|g|g]; simpl in Hs.
  1-7: split; [intros g' [=] | split; [intros g' [=] | intros _]].
  - injection Hs as _ <-. reflexivity.
  - unfold handleTimerClick, stopSignal, startTimer in Hs.
    destruct (isRunning s); [destruct (chans s !! stopCh s) as [[|]|]|];
      try discriminate; injection Hs as _ <-; simpl;
      destruct (isInPomodoro s && EnableClockSound (settings s)); reflexivity.
  - unfold handleTrayClick, stopSignal, startTimer in Hs.
    destruct (isRunning s); [destruct (chans s !! stopCh s) as [[|]|]|];
      try discriminate; [|destruct (isInPomodoro s)];
      injection Hs as _ <-; simpl; try reflexivity;
      destruct (EnableClockSound (settings s)); reflexivity.
  - injection Hs as _ <-. reflexivity.
  - destruct (procs s !! g) as [[ | | | ]|]; try discriminate.
    destruct (0 <? remainingTime s); injection Hs as _ <-; reflexivity.
  - destruct (procs s !! g) as [[ |c| | ]|]; try discriminate.
    destruct (chans s !! c) as [[|]|]; try discriminate.
    injection Hs as _ <-; reflexivity.
  - destruct (procs s !! g) as [[ |c| | ]|]; try discriminate.
    destruct (chans s !! c) as [[|]|]; try discriminate.
    injection Hs as _ <-; reflexivity.
  - destruct (procs s !! g) as [[ | | | ]|]; try discriminate.
    unfold tickBody in Hs.
    destruct (wrap64 (remainingTime s - Second) <=? 0) eqn:Hr;
      injection Hs as <- <-; simpl.
    + apply Z.leb_le in Hr. split; [intros _ _ Hpos; lia|].
      split; [reflexivity | intros H; exfalso; apply (H g); reflexivity].
    + apply Z.leb_gt in Hr. split; [|split; [intros _ _ Hle; lia|]].
      * intros _ _ _. rewrite beeps_app.
        destruct (wrap64 (remainingTime s - Second) <? 11 * Second);
          destruct (String.eqb _ (oldDisplayText s)); reflexivity.
      * intros H. exfalso. apply (H g). reflexivity.
Qed.

Lemma tick_beep_window_witness :
  beeps [PlayTickSound; SetIcon "10" 0; SetTooltip "00:10"] = 1%nat.
Proof.
  exact (proj1 (tick_beep_window (ABody 0%nat) (tickPending 10)
                  (mkState 0 true true (10 * Second) 0 [false] "10" defaultSettings [AtLoop])
                  [PlayTickSound; SetIcon "10" 0; SetTooltip "00:10"] eq_refl)
               0%nat eq_refl eq_refl).
Defined.

(** What the restart does to the session variables: a menu start on a
    running timer has the result of the same start on the stopped state. *)
Lemma restart_is_stop_then_start (s : State) (d : Z) :
  Reachable s -> isRunning s = true ->
  exists s1,
    stopSignal s = Some s1 /\ isRunning s1 = false /\
    step (AHandleTimerClick d) s = step (AHandleTimerClick d) s1.
Proof.
  intros HR Hrun. destruct (Reachable_Inv s HR) as [Hch _].
  destruct (stopSignal_some s Hch) as (s1 & E & _ & Hr1 & _).
  exists s1. split; [exact E|]. split; [exact Hr1|].
  simpl. unfold handleTimerClick. rewrite Hrun, E, Hr1. reflexivity.
Qed.

(** A goroutine that is blocked in [select] when the timer is restarted
    from the menu is left waiting on a closed channel; it takes no
    further tick, and its only step is to exit through [case <-stopCh].
    What that exit does to the ticker of the new countdown is settled on
    the machine with tickers. *)
Lemma restart_stops_blocked_goroutine (s : State) (d : Z) (g : nat) :
  Reachable s -> isRunning s = true ->
  procs s !! g = Some (InSelect (stopCh s)) ->
  exists s' tr,
    step (AHandleTimerClick d) s = Next s' tr /\
    isRunning s' = true /\ remainingTime s' = d /\ isInPomodoro s' = isInPomodoro s /\
    procs s' !! g = Some (InSelect (stopCh s)) /\
    step (ATick g) s' = Blocked /\
    step (AStopped g) s' = Next (setProc g Exited s') [StopClockSound].
Proof.
  intros HR Hrun Hg. destruct (Reachable_Inv s HR) as [Hch _].
  destruct (stopSignal_some s Hch)
    as (s1 & E & _ & _ & Hk1 & _ & _ & Hp1 & _ & _ & Hold).
  simpl. unfold handleTimerClick. rewrite Hrun, E. simpl.
  do 2 eexists. split; [reflexivity|]. simpl.
  assert (Hg' : (procs s1 ++ [AtLoop]) !! g = Some (InSelect (stopCh s))).
  { rewrite Hp1. rewrite lookup_app_l by (eapply lookup_lt_Some; exact Hg). exact Hg. }
  rewrite Hg', Hold, Hk1. repeat split; reflexivity.
Qed.

(** X28. Where the restart fails: a goroutine that holds a tick when the
    timer is restarted with more than one second runs its locked body on
    the new remaining time, takes a second off it, and then waits on the
    new stop channel, which is open: the stop signal of the restart does
    not reach it. *)
Lemma restart_misses_goroutine_holding_tick (s : State) (d : Z) (g : nat) :
  Reachable s -> isRunning s = true -> procs s !! g = Some GotTick ->
  Second < d <= maxInt64 ->
  exists s' tr,
    run [AHandleTimerClick d; ABody g; AEnter g] s = Next s' tr /\
    procs s' !! g = Some (InSelect (stopCh s')) /\
    chans s' !! stopCh s' = Some false /\
    remainingTime s' = d - Second /\
    step (AStopped g) s' = Blocked.
Proof.
  intros HR Hrun Hg [Hd Hmax]. destruct (Reachable_Inv s HR) as [Hch _].
  destruct (stopSignal_some s Hch)
    as (s1 & E & _ & _ & _ & _ & _ & Hp1 & _ & Hnew & _).
  apply lookup_lt_Some in Hg as Hlt.
  assert (Hg1 : (procs s1 ++ [AtLoop]) !! g = Some GotTick)
    by (rewrite Hp1, lookup_app_l by exact Hlt; exact Hg).
  assert (Hlt1 : (g < length (procs s1 ++ [AtLoop]))%nat)
    by (eapply lookup_lt_Some; exact Hg1).
  assert (Hr : wrap64 (d - Second) = d - Second)
    by (apply wrap64_id; unfold minInt64, maxInt64, Second in *; lia).
  cbn [run step]. unfold handleTimerClick. rewrite Hrun, E.
  cbn [startTimer procs]. rewrite Hg1.
  unfold tickBody. cbn [remainingTime]. rewrite Hr.
  replace (d - Second <=? 0) with false by (symmetry; apply Z.leb_gt; lia).
  cbn [procs]. rewrite list_lookup_insert_eq by exact Hlt1.
  cbn [remainingTime].
  replace (0 <? d - Second) with true by (symmetry; apply Z.ltb_lt; lia).
  do 2 eexists. split; [reflexivity|].
  cbn [setProc procs stopCh chans remainingTime step].
  rewrite list_lookup_insert_eq by (rewrite length_insert; exact Hlt1).
  rewrite Hnew. repeat split; reflexivity.
Qed.

(** X29. The same window on the stop of a tray click: a goroutine that
    holds a tick when the timer is stopped with two seconds or more left
    goes on counting although [isRunning] is false; it takes a second off
    the remaining time and waits on the new stop channel, which is open. *)
Lemma stop_misses_goroutine_holding_tick (s : State) (g : nat) :
  Reachable s -> isRunning s = true -> procs s !! g = Some GotTick ->
  2 * Second <= remainingTime s <= maxInt64 ->
  exists s' tr,
    run [ATrayClick; ABody g; AEnter g] s = Next s' tr /\
    isRunning s' = false /\
    procs s' !! g = Some (InSelect (stopCh s')) /\
    chans s' !! stopCh s' = Some false /\
    remainingTime s' = remainingTime s - Second.
Proof.
  intros HR Hrun Hg [Hrem Hmax]. destruct (Reachable_Inv s HR) as [Hch _].
  destruct (stopSignal_some s Hch)
    as (s1 & E & _ & Hr1 & _ & Hrem1 & _ & Hp1 & _ & Hnew & _).
  apply lookup_lt_Some in Hg as Hlt.
  assert (Hg1 : procs s1 !! g = Some GotTick) by (rewrite Hp1; exact Hg).
  assert (Hlt1 : (g < length (procs s1))%nat) by (rewrite Hp1; exact Hlt).
  assert (Hr : wrap64 (remainingTime s1 - Second) = remainingTime s - Second)
    by (rewrite Hrem1; apply wrap64_id; unfold minInt64, maxInt64, Second in *; lia).
  cbn [run step]. unfold handleTrayClick. rewrite Hrun, E, Hg1.
  unfold tickBody. rewrite Hr.
  replace (remainingTime s - Second <=? 0) with false
    by (symmetry; apply Z.leb_gt; unfold Second in *; lia).
  cbn [procs]. rewrite list_lookup_insert_eq by exact Hlt1.
  cbn [remainingTime].
  replace (0 <? remainingTime s - Second) with true
    by (symmetry; apply Z.ltb_lt; unfold Second in *; lia).
  do 2 eexists. split; [reflexivity|].
  cbn [setProc procs stopCh chans remainingTime isRunning].
  rewrite list_lookup_insert_eq by (rewrite length_insert; exact Hlt1).
  rewrite Hnew, Hr1. repeat split; reflexivity.
Qed.

(** C2 fails on the code. In the schedule [restartRace] the goroutine of
    the first countdown outlives the restart: it decrements the new
    remaining time and re-enters [select] on the new, open stop channel,
    next to the goroutine of the second countdown.  The stop signal of
    the restart never reaches it. *)
Theorem restart_race_keeps_old_countdown :
  run restartRace (initState defaultSettings) =
    Next (mkState 0 true false (5 * Minute - Second) 1 [true; false] "4"
                  defaultSettings [InSelect 1; AtLoop])
         [PlayClockSound; SetIcon "4" 0; SetTooltip "04:59"] /\
  step (AStopped 0%nat)
       (mkState 0 true false (5 * Minute - Second) 1 [true; false] "4"
                defaultSettings [InSelect 1; AtLoop]) = Blocked /\
  step (ATick 0%nat)
       (mkState 0 true false (5 * Minute - Second) 1 [true; false] "4"
                defaultSettings [InSelect 1; AtLoop]) =
    Next (mkState 0 true false (5 * Minute - Second) 1 [true; false] "4"
                  defaultSettings [GotTick; AtLoop]) [].
Proof. repeat split; vm_compute; reflexivity. Qed.

End Claims.

Section CueFacts.

Variable float64 : Type.
Variable sample16 : float64 -> float64 -> Z -> Z -> Z.
Variables freq440 amplitude03 : float64.

(** Two bytes written for a sample are its little-endian two's complement
    representation. *)
Lemma little_endian_pair b :
  - 2 ^ 15 <= b < 2 ^ 15 ->
  toInt16 (toByte b + 256 * toByte (Z.shiftr b 8)) = b.
Proof.
  intros H. unfold toInt16, toByte. rewrite Z.shiftr_div_pow2 by lia.
  change (2 ^ 8) with 256. change (2 ^ 15) with 32768 in *. change (2 ^ 16) with 65536.
  pose proof (Z.div_mod b 256 ltac:(lia)) as Hb.
  pose proof (Z.mod_pos_bound b 256 ltac:(lia)) as Hm.
  pose proof (Z.div_mod (b / 256) 256 ltac:(lia)) as Hq.
  pose proof (Z.mod_pos_bound (b / 256) 256 ltac:(lia)) as Hqm.
  assert (Hrange : -128 <= b / 256 < 128)
    by (split; [apply Z.div_le_lower_bound | apply Z.div_lt_upper_bound]; lia).
  destruct (Z_lt_le_dec b 0) as [Hneg|Hpos].
  - assert (E : (b / 256) mod 256 = b / 256 + 256).
    { symmetry. apply (Z.mod_unique_pos _ _ (-1)); lia. }
    rewrite E.
    replace (b mod 256 + 256 * (b / 256 + 256) + 32768) with (b + 32768 + 1 * 65536) by lia.
    rewrite Z.mod_add by lia. rewrite Z.mod_small by lia. lia.
  - assert (E : (b / 256) mod 256 = b / 256).
    { apply Z.mod_small. split; [apply Z.div_pos|]; lia. }
    rewrite E.
    replace (b mod 256 + 256 * (b / 256) + 32768) with (b + 32768) by lia.
    rewrite Z.mod_small by lia. lia.
Qed.

Lemma monoBytes_length p m :
  length (monoBytes sample16 freq440 amplitude03 p m) = (2 * m)%nat.
Proof.
  unfold monoBytes. induction m as [|m IH]; [reflexivity|].
  rewrite seq_S, flat_map_app, length_app, IH. simpl. lia.
Qed.

Lemma monoBytes_S p m :
  monoBytes sample16 freq440 amplitude03 p (S m) =
  monoBytes sample16 freq440 amplitude03 p m ++
  [toByte (tickSample sample16 freq440 amplitude03 (p + Z.of_nat m));
   toByte (Z.shiftr (tickSample sample16 freq440 amplitude03 (p + Z.of_nat m)) 8)].
Proof. unfold monoBytes. rewrite seq_S, flat_map_app. simpl. reflexivity. Qed.

(** The frame loop of a single-channel 16-bit wave overwrites the first
    [2*m] bytes of the buffer with [m] successive samples. *)
Lemma writeFrames_mono len ps p m : forall buf,
  (2 * m <= length buf)%nat ->
  writeFrames float64 sample16
    (mkSineWave freq440 len ps 1 FormatSignedInt16LE amplitude03 44100) 2 p m buf =
  monoBytes sample16 freq440 amplitude03 p m ++ drop (2 * m) buf.
Proof.
  induction m as [|m IH]; intros buf Hlen.
  - reflexivity.
  - unfold writeFrames in *. rewrite seq_S, fold_left_app. cbn [fold_left].
    rewrite IH by lia. rewrite monoBytes_S.
    cbn [freq amplitude sampleRate channelCount].
    fold (tickSample sample16 freq440 amplitude03 (p + Z.of_nat (0 + m))).
    change (0 + m)%nat with m.
    set (b := tickSample sample16 freq440 amplitude03 (p + Z.of_nat m)).
    unfold writeFrame. change (Z.to_nat 1) with 1%nat. cbn [seq fold_left].
    replace (Z.to_nat (2 * Z.of_nat m + 2 * Z.of_nat 0)) with (2 * m)%nat by lia.
    replace (Z.to_nat (2 * Z.of_nat m + 1 + 2 * Z.of_nat 0)) with (S (2 * m))%nat by lia.
    pose proof (monoBytes_length p m) as HA.
    set (A := monoBytes sample16 freq440 amplitude03 p m) in *.
    destruct (drop (2 * m) buf) as [|x [|y R]] eqn:Ed.
    + apply (f_equal length) in Ed. rewrite length_drop in Ed. simpl in Ed. lia.
    + apply (f_equal length) in Ed. rewrite length_drop in Ed. simpl in Ed. lia.
    + assert (ER : drop (2 * S m) buf = R).
      { replace (2 * S m)%nat with (2 * m + 2)%nat by lia.
        rewrite <- (drop_drop buf 2 (2 * m)), Ed. reflexivity. }
      rewrite ER.
      rewrite (insert_app_r_alt A _ (2 * m)) by lia.
      replace (2 * m - length A)%nat with 0%nat by lia. cbn [insert list_insert].
      rewrite (insert_app_r_alt A _ (S (2 * m))) by lia.
      replace (S (2 * m) - length A)%nat with 1%nat by lia. cbn [insert list_insert].
      rewrite <- app_assoc. reflexivity.
Qed.

(** Every read of whole frames from the stream of [playTickSound] fills
    the buffer with successive samples, one channel per frame. *)
Lemma tick_cue_read_layout p m buf :
  0 <= p -> length buf = (2 * m)%nat -> 2 * p < 8820 -> 2 * p + 2 * Z.of_nat m <= 8820 ->
  Read sample16
       (mkSineWave freq440 8820 (2 * p) 1 FormatSignedInt16LE amplitude03 44100) buf =
  Some (mkRead (mkSineWave freq440 8820 (2 * p + 2 * Z.of_nat m) 1 FormatSignedInt16LE
                           amplitude03 44100)
               (monoBytes sample16 freq440 amplitude03 p m)
               (2 * Z.of_nat m) false).
Proof.
  intros Hp Hlen Hpos Hend. unfold Read.
  cbn [length_ pos format channelCount formatByteLength freq amplitude sampleRate].
  replace (8820 <=? 2 * p) with false by (symmetry; apply Z.leb_gt; lia).
  rewrite Hlen.
  replace (Z.of_nat (2 * m)) with (2 * Z.of_nat m) by lia.
  replace (8820 <? 2 * p + 2 * Z.of_nat m) with false by (symmetry; apply Z.ltb_ge; lia).
  change (2 * 1 =? 0) with false. cbv iota. change (2 * 1) with 2.
  replace (Z.quot (2 * p) 2) with p
    by (rewrite Z.mul_comm, Z.quot_mul by lia; reflexivity).
  replace (Z.to_nat (Z.quot (2 * Z.of_nat m) 2)) with m
    by (rewrite (Z.mul_comm 2), Z.quot_mul by lia; lia).
  rewrite writeFrames_mono by lia.
  rewrite drop_ge by lia. rewrite app_nil_r. reflexivity.
Qed.

(** C9 fails on the code. The audio context takes interleaved stereo
    frames (two channels of 16 bits), but the stream of [playTickSound] is
    built with one channel: a read of four bytes, one stereo frame, holds
    two successive samples of the sine, not one sample on both channels.
    A wave built with the channel count of the context writes the frame
    the claim describes. *)
Theorem tick_cue_frames_are_mono (b0 b1 b2 b3 : Z) :
  Read sample16 (tickSoundWave freq440 amplitude03) [b0; b1; b2; b3] =
    Some (mkRead (mkSineWave freq440 8820 4 1 FormatSignedInt16LE amplitude03 44100)
                 [toByte (tickSample sample16 freq440 amplitude03 0); toByte (Z.shiftr (tickSample sample16 freq440 amplitude03 0) 8);
                  toByte (tickSample sample16 freq440 amplitude03 1); toByte (Z.shiftr (tickSample sample16 freq440 amplitude03 1) 8)]
                 4 false) /\
  Read sample16
       (NewSineWave freq440 (200 * 1000000) contextChannelCount FormatSignedInt16LE amplitude03)
       [b0; b1; b2; b3] =
    Some (mkRead (mkSineWave freq440 8820 4 2 FormatSignedInt16LE amplitude03 44100)
                 [toByte (tickSample sample16 freq440 amplitude03 0); toByte (Z.shiftr (tickSample sample16 freq440 amplitude03 0) 8);
                  toByte (tickSample sample16 freq440 amplitude03 0); toByte (Z.shiftr (tickSample sample16 freq440 amplitude03 0) 8)]
                 4 false).
Proof. split; reflexivity. Qed.

End CueFacts.

(** * Facts about Part III *)

Section Scanner.

Lemma scanString_plain key : forall rest,
  plain key = true -> scanString (key ++ String quote rest)%string = Some (key, rest).
Proof.
  induction key as [|c key IH]; intros rest Hp.
  - reflexivity.
  - simpl in Hp. apply andb_true_iff in Hp as [Hc Hk].
    unfold plainChar in Hc. apply andb_true_iff in Hc as [Hc H32].
    apply andb_true_iff in Hc as [Hq Hb].
    apply negb_true_iff in Hq, Hb, H32.
    change ((String c key ++ String quote rest)%string)
      with (String c (key ++ String quote rest)%string).
    cbn [scanString]. rewrite Hq, Hb, H32, (IH rest Hk). reflexivity.
Qed.

Lemma spanDigits_app ds : forall rest,
  digitsOnly ds = true -> numberEnd rest = true ->
  spanDigits (ds ++ rest)%string = (ds, rest).
Proof.
  induction ds as [|c ds IH]; intros rest Hd He.
  - simpl. destruct rest as [|c r]; [reflexivity|].
    simpl in He. simpl. destruct (isDigit c); [discriminate He | reflexivity].
  - simpl in Hd. apply andb_true_iff in Hd as [Hc Hd].
    simpl. rewrite Hc, (IH rest Hd He). reflexivity.
Qed.

Lemma uint_digits u : digitsOnly (NilEmpty.string_of_uint u) = true.
Proof. induction u; simpl; try rewrite IHu; reflexivity. Qed.

Lemma nzhead_not_D0 u :
  match Decimal.nzhead u with Decimal.D0 _ => False | _ => True end.
Proof. induction u; simpl; auto. Qed.

Lemma pos_uint_not_D0 p u : Pos.to_uint p <> Decimal.D0 u.
Proof.
  intros E.
  pose proof (Unsigned.to_of (Pos.to_uint p)) as H.
  rewrite Unsigned.of_to in H. simpl in H. rewrite E in H.
  unfold Decimal.unorm in H. simpl in H.
  pose proof (nzhead_not_D0 u) as Hn.
  destruct (Decimal.nzhead u) eqn:En; try discriminate H.
  - injection H as H. subst u. apply (Unsigned.to_uint_nonzero p). exact E.
  - exact Hn.
Qed.

(** The decimal rendering of a positive number: a digit other than zero,
    then digits. *)
Lemma pos_uint_shape p :
  exists c ds,
    NilZero.string_of_uint (Pos.to_uint p) = String c ds /\
    isDigit c = true /\ Ascii.eqb c "0" = false /\ Ascii.eqb c "-" = false /\
    digitsOnly ds = true.
Proof.
  destruct (Pos.to_uint p) as [|u|u|u|u|u|u|u|u|u|u] eqn:E.
  - exfalso. apply (Unsigned.to_uint_nonnil p). exact E.
  - exfalso. apply (pos_uint_not_D0 p u). exact E.
  - do 2 eexists. simpl. repeat split. apply uint_digits.
  - do 2 eexists. simpl. repeat split. apply uint_digits.
  - do 2 eexists. simpl. repeat split. apply uint_digits.
  - do 2 eexists. simpl. repeat split. apply uint_digits.
  - do 2 eexists. simpl. repeat split. apply uint_digits.
  - do 2 eexists. simpl. repeat split. apply uint_digits.
  - do 2 eexists. simpl. repeat split. apply uint_digits.
  - do 2 eexists. simpl. repeat split. apply uint_digits.
  - do 2 eexists. simpl. repeat split. apply uint_digits.
Qed.

Lemma append_empty (s : string) : (s ++ "")%string = s.
Proof. induction s as [|c s IH]; simpl; [|rewrite IH]; reflexivity. Qed.

Lemma numberEnd_head e r :
  numberEnd (String e r) = true ->
  Ascii.eqb e "." = false /\ Ascii.eqb e "e" = false /\ Ascii.eqb e "E" = false.
Proof.
  simpl. intros He. apply andb_true_iff in He as [He HE].
  apply andb_true_iff in He as [He He'].
  apply andb_true_iff in He as [_ Hdot].
  apply negb_true_iff in Hdot, He', HE. repeat split; assumption.
Qed.

(** After the integer part, a text that ends the number is left alone. *)
Ltac number_ends rest He :=
  destruct rest as [|?e ?r];
  [ simpl; rewrite ?append_empty; reflexivity
  | destruct (numberEnd_head _ _ He) as (-> & -> & ->);
    simpl; rewrite ?append_empty; reflexivity ].

Lemma scanNumber_tail c ds rest :
  isDigit c = true -> Ascii.eqb c "0" = false -> Ascii.eqb c "-" = false ->
  digitsOnly ds = true -> numberEnd rest = true ->
  scanNumber (String c ds ++ rest)%string = Some (String c ds, rest).
Proof.
  intros Hc H0 Hm Hd He.
  change ((String c ds ++ rest)%string) with (String c (ds ++ rest)%string).
  unfold scanNumber. rewrite Hm, Hc, H0, (spanDigits_app ds rest Hd He).
  number_ends rest He.
Qed.

Lemma scanNumber_neg c ds rest :
  isDigit c = true -> Ascii.eqb c "0" = false ->
  digitsOnly ds = true -> numberEnd rest = true ->
  scanNumber (String "-" (String c ds) ++ rest)%string = Some (String "-" (String c ds), rest).
Proof.
  intros Hc H0 Hd He.
  change ((String "-" (String c ds) ++ rest)%string)
    with (String "-" (String c (ds ++ rest)%string)).
  unfold scanNumber. cbn [Ascii.eqb Bool.eqb].
  rewrite Hc, H0, (spanDigits_app ds rest Hd He).
  number_ends rest He.
Qed.

Lemma scanNumber_zero rest :
  numberEnd rest = true -> scanNumber ("0" ++ rest)%string = Some ("0", rest).
Proof.
  intros He. change (("0" ++ rest)%string) with (String "0" rest).
  unfold scanNumber. cbn [Ascii.eqb Bool.eqb isDigit nat_of_ascii].
  number_ends rest He.
Qed.

Lemma scanNumber_itoa n rest :
  numberEnd rest = true -> scanNumber (itoa n ++ rest)%string = Some (itoa n, rest).
Proof.
  intros He. destruct n as [|p|p].
  - apply scanNumber_zero. exact He.
  - unfold itoa. simpl Z.to_int. cbn [NilZero.string_of_int].
    destruct (pos_uint_shape p) as (c & ds & -> & Hc & H0 & Hm & Hd).
    apply scanNumber_tail; assumption.
  - unfold itoa. simpl Z.to_int. cbn [NilZero.string_of_int].
    destruct (pos_uint_shape p) as (c & ds & -> & Hc & H0 & Hm & Hd).
    apply scanNumber_neg; assumption.
Qed.

Lemma itoa_first n : exists c r, itoa n = String c r /\ numberHead c = true.
Proof.
  destruct n as [|p|p].
  - exists "0"%char, EmptyString. split; reflexivity.
  - unfold itoa. simpl Z.to_int. cbn [NilZero.string_of_int].
    destruct (pos_uint_shape p) as (c & ds & -> & Hc & _).
    exists c, ds. split; [reflexivity|]. unfold numberHead. rewrite Hc. reflexivity.
  - unfold itoa. simpl Z.to_int. cbn [NilZero.string_of_int].
    eexists _, _. split; reflexivity.
Qed.

Lemma numberHead_tests c :
  numberHead c = true ->
  isSpace c = false /\ Ascii.eqb c "{" = false /\ Ascii.eqb c "[" = false /\
  Ascii.eqb c quote = false /\ Ascii.eqb c "t" = false /\ Ascii.eqb c "f" = false /\
  Ascii.eqb c "n" = false.
Proof.
  destruct c as [[] [] [] [] [] [] [] []]; intros H; try discriminate H;
    repeat split; reflexivity.
Qed.

Lemma parseValue_number f d c r lit rest :
  numberHead c = true -> scanNumber (String c r) = Some (lit, rest) ->
  parseValue (S f) d (String c r) = Some (JNumber lit, rest).
Proof.
  intros Hh Hs. destruct (numberHead_tests c Hh) as (_ & H1 & H2 & H3 & H4 & H5 & H6).
  cbn [parseValue]. rewrite H1, H2, H3, H4, H5, H6, Hs. reflexivity.
Qed.

Lemma parseValue_itoa f d n rest :
  numberEnd rest = true ->
  parseValue (S f) d (itoa n ++ rest)%string = Some (JNumber (itoa n), rest).
Proof.
  intros He. pose proof (scanNumber_itoa n rest He) as Hs.
  destruct (itoa_first n) as (c & r & E & Hh). rewrite E in *.
  change ((String c r ++ rest)%string) with (String c (r ++ rest)%string) in *.
  apply parseValue_number; assumption.
Qed.

Lemma skipSpace_itoa n rest : skipSpace (itoa n ++ rest)%string = (itoa n ++ rest)%string.
Proof.
  destruct (itoa_first n) as (c & r & E & Hh). rewrite E.
  destruct (numberHead_tests c Hh) as (Hsp & _).
  simpl. rewrite Hsp. reflexivity.
Qed.

Lemma parseInt64_itoa n :
  minInt64 <= n <= maxInt64 -> parseInt64 (itoa n) = Some n.
Proof.
  intros H. unfold parseInt64, itoa.
  rewrite NilZero.isi.
  - rewrite DecimalZ.of_to.
    replace (minInt64 <=? n) with true by (symmetry; apply Z.leb_le; lia).
    replace (n <=? maxInt64) with true by (symmetry; apply Z.leb_le; lia).
    reflexivity.
  - destruct n as [|p|p]; simpl; try discriminate.
    intros E. injection E as E. apply (Unsigned.to_uint_nonnil p). exact E.
  - destruct n as [|p|p]; simpl; try discriminate.
    intros E. injection E as E. apply (Unsigned.to_uint_nonnil p). exact E.
Qed.

Lemma MarshalIndent_shape st :
  MarshalIndent st =
  String "{" (String newline
    (memberText FPomodoro (itoa (PomodoroDuration st)) (String "," (String newline
    (memberText FShortBreak (itoa (ShortBreakDuration st)) (String "," (String newline
    (memberText FLongBreak (itoa (LongBreakDuration st)) (String "," (String newline
    (memberText FSound (if EnableClockSound st then "true" else "false")
       (String newline "}")))))))))))).
Proof.
  unfold MarshalIndent, memberText. cbn [String.append fieldName]. reflexivity.
Qed.

Lemma fieldName_plain f : plain (fieldName f) = true.
Proof. destruct f; reflexivity. Qed.

Lemma parseMembers_unfold f d key r1 acc :
  plain key = true ->
  parseMembers (S f) d (String quote (key ++ String quote (String ":" r1))) acc =
  match parseValue f d (skipSpace r1) with
  | None => None
  | Some (v, r3) =>
      match skipSpace r3 with
      | EmptyString => None
      | String c4 r4 =>
          if Ascii.eqb c4 ","
          then parseMembers f d (skipSpace r4) ((key, v) :: acc)
          else if Ascii.eqb c4 "}" then Some (JObject (rev ((key, v) :: acc)), r4)
          else None
      end
  end.
Proof.
  intros Hp. cbn [parseMembers].
  replace (Ascii.eqb quote quote) with true by reflexivity.
  rewrite (scanString_plain key _ Hp).
  replace (skipSpace (String ":" r1)) with (String ":" r1) by reflexivity.
  replace (Ascii.eqb ":" ":") with true by reflexivity.
  reflexivity.
Qed.

(** One integer member followed by a comma, a line break and the
    indentation of the next member. *)
Lemma parseMembers_int f d fld n rest acc :
  parseMembers (S (S f)) d
    (String quote (fieldName fld ++ String quote (String ":" (String " "
       (itoa n ++ String "," (String newline (String " " (String " " rest)))))))) acc =
  parseMembers (S f) d (skipSpace rest) ((fieldName fld, JNumber (itoa n)) :: acc).
Proof.
  rewrite parseMembers_unfold by apply fieldName_plain.
  replace (skipSpace (String " " (itoa n ++ String "," (String newline (String " " (String " " rest))))))
    with (skipSpace (itoa n ++ String "," (String newline (String " " (String " " rest)))))
    by reflexivity.
  rewrite skipSpace_itoa, parseValue_itoa by reflexivity.
  reflexivity.
Qed.

Lemma parseMembers_last f d (b : bool) acc :
  parseMembers (S (S f)) d
    (String quote (fieldName FSound ++ String quote (String ":" (String " "
       ((if b then "true" else "false") ++ String newline "}"))))) acc =
  Some (JObject (rev ((fieldName FSound, JBool b) :: acc)), EmptyString).
Proof.
  rewrite parseMembers_unfold by apply fieldName_plain.
  destruct b; reflexivity.
Qed.

Lemma skipSpace_nonspace c r : isSpace c = false -> skipSpace (String c r) = String c r.
Proof. intros H. simpl. rewrite H. reflexivity. Qed.

Lemma skipSpace_indent r :
  skipSpace (String newline (String " " (String " " (String quote r)))) = String quote r.
Proof. reflexivity. Qed.

Lemma skipSpace_quote r : skipSpace (String quote r) = String quote r.
Proof. reflexivity. Qed.

Lemma parseValue_object f r :
  parseValue (S f) 0 (String "{" (String newline (String " " (String " " (String quote r))))) =
  parseMembers f 1 (String quote r) [].
Proof. reflexivity. Qed.

Lemma parse_MarshalIndent st :
  parse (MarshalIndent st) =
  Some (JObject [(fieldName FPomodoro, JNumber (itoa (PomodoroDuration st)));
                 (fieldName FShortBreak, JNumber (itoa (ShortBreakDuration st)));
                 (fieldName FLongBreak, JNumber (itoa (LongBreakDuration st)));
                 (fieldName FSound, JBool (EnableClockSound st))]).
Proof.
  unfold parse. rewrite MarshalIndent_shape.
  match goal with
  | |- context [String.length ?t] =>
      assert (Hlen : exists n, String.length t = (5 + n)%nat)
        by (unfold memberText; cbn [String.length]; eexists; reflexivity)
  end.
  destruct Hlen as [n ->].
  change (S (5 + n)) with (S (S (S (S (S (S n)))))).
  rewrite skipSpace_nonspace by reflexivity.
  unfold memberText.
  rewrite parseValue_object.
  rewrite parseMembers_int, skipSpace_quote.
  rewrite parseMembers_int, skipSpace_quote.
  rewrite parseMembers_int, skipSpace_quote.
  rewrite parseMembers_last.
  reflexivity.
Qed.


End Scanner.

Section Decoding.

Lemma lookupField_fieldName f : lookupField (fieldName f) = Some f.
Proof. destruct f; reflexivity. Qed.

Lemma Field_eq_dec (f g : Field) : {f = g} + {f <> g}.
Proof. decide equality. Qed.

(** Storing into one field leaves the others as they are. *)
Lemma storeField_other f g v st :
  f <> g -> getField f (fst (storeField g v st)) = getField f st.
Proof.
  intros Hne. unfold storeField.
  destruct v as [|b|lit|t|items|members]; try (destruct g; reflexivity).
  - destruct g; try reflexivity; destruct f; try reflexivity; congruence.
  - destruct g; try reflexivity; destruct (parseInt64 lit); try reflexivity;
      destruct f; try reflexivity; congruence.
Qed.

Lemma storeField_null g st : storeField g JNull st = (st, false).
Proof. reflexivity. Qed.

(** A value of the field's type is stored, and is no error. *)
Lemma storeField_decoded f v st x :
  decodeValue f v = Some x ->
  getField f (fst (storeField f v st)) = x /\ snd (storeField f v st) = false.
Proof.
  intros Hd. unfold decodeValue in Hd. unfold storeField.
  destruct f; destruct v as [|b|lit|t|items|members]; try discriminate Hd.
  1-3: destruct (parseInt64 lit) as [n|]; [|discriminate Hd];
       injection Hd as <-; split; reflexivity.
  injection Hd as <-. split; reflexivity.
Qed.

Lemma fold_storeMember_flag members : forall acc,
  (forall k v f, In (k, v) members -> lookupField k = Some f ->
     v = JNull \/ decodeValue f v <> None) ->
  snd (fold_left storeMember members acc) = snd acc.
Proof.
  induction members as [|[k v] rest IH]; intros acc Hwt; [reflexivity|].
  simpl. rewrite IH by (intros k' v' f' Hin; apply Hwt; right; exact Hin).
  unfold storeMember. simpl fst. simpl snd.
  destruct (lookupField k) as [f|] eqn:Ek; [|reflexivity].
  destruct (Hwt k v f (or_introl eq_refl) Ek) as [-> | Hd].
  - rewrite storeField_null. simpl. apply orb_false_r.
  - destruct (decodeValue f v) as [x|] eqn:Ed; [|congruence].
    destruct (storeField_decoded f v (fst acc) x Ed) as [_ Hs].
    destruct (storeField f v (fst acc)) as [st' e]. simpl in *. subst e.
    apply orb_false_r.
Qed.

Lemma fold_storeMember_keeps f members : forall acc,
  (forall k v, In (k, v) members -> lookupField k = Some f -> v = JNull) ->
  getField f (fst (fold_left storeMember members acc)) = getField f (fst acc).
Proof.
  induction members as [|[k v] rest IH]; intros acc Hno; [reflexivity|].
  simpl. rewrite IH by (intros k' v' Hin; apply Hno; right; exact Hin).
  unfold storeMember. simpl fst. simpl snd.
  destruct (lookupField k) as [g|] eqn:Ek; [|reflexivity].
  destruct (Field_eq_dec f g) as [<-|Hne].
  - rewrite (Hno k v (or_introl eq_refl) Ek), storeField_null. reflexivity.
  - pose proof (storeField_other f g v (fst acc) Hne) as H.
    destruct (storeField g v (fst acc)) as [st' e]. exact H.
Qed.

Lemma loadSettings_object data members :
  parse data = Some (JObject members) ->
  loadSettings (Some data) =
  (fst (decodeObject members defaultSettings), snd (decodeObject members defaultSettings)).
Proof.
  intros Hp. unfold loadSettings, Unmarshal. rewrite Hp.
  destruct (decodeObject members defaultSettings) as [st [|]]; reflexivity.
Qed.

End Decoding.

Section SettingsClaims.

(** X30. Where the fallback works: with no file, or with text that is
    not valid JSON, the settings after [loadSettings] are exactly the
    built-in defaults 25, 5, 15 and sound on; "Failed to load settings" is
    printed in the second case only. *)
Lemma load_falls_back_to_defaults (file : File) :
  file = None \/ (exists data, file = Some data /\ parse data = None) ->
  fst (loadSettings file) = mkSettings 25 5 15 true /\
  snd (loadSettings file) = match file with None => false | Some _ => true end.
Proof.
  intros [-> | (data & -> & Hp)]; [split; reflexivity|].
  unfold loadSettings, Unmarshal. rewrite Hp. split; reflexivity.
Qed.

Example load_broken_file :
  loadSettings (Some brokenFile) = (mkSettings 25 5 15 true, true).
Proof. vm_compute. reflexivity. Qed.

(** C5 fails on the code. [loadSettings] decodes into the record that
    already holds the defaults.  When [json.Unmarshal] meets a value of
    the wrong type it keeps what fits, skips the value and returns an
    error: for [mixedFile] "Failed to load settings" is printed and the
    pomodoro duration is 50, not the default 25. *)
Theorem load_keeps_partial_decode :
  parse mixedFile =
    Some (JObject [("pomodoro_duration", JNumber "50");
                   ("short_break_duration", JString "five")]) /\
  Unmarshal mixedFile defaultSettings = (mkSettings 50 5 15 true, Some UnmarshalTypeError) /\
  loadSettings (Some mixedFile) = (mkSettings 50 5 15 true, true) /\
  fst (loadSettings (Some mixedFile)) <> defaultSettings.
Proof.
  split; [vm_compute; reflexivity|]. split; [vm_compute; reflexivity|].
  split; [vm_compute; reflexivity|]. vm_compute. discriminate.
Qed.

(** C6. For every settings record whose durations are Go [int]s (the
    positive ones among them), [saveSettings] with a write that succeeds,
    followed by [loadSettings], yields the record again, and no failure is
    printed. *)
Theorem save_then_load (st : TimerSettings) :
  representable st ->
  loadSettings (fst (saveSettings st Written)) = (st, false).
Proof.
  intros (Hp & Hs & Hl). simpl saveSettings. simpl fst.
  rewrite (loadSettings_object _ _ (parse_MarshalIndent st)).
  unfold decodeObject. cbn [fold_left]. unfold storeMember. cbn [fst snd].
  rewrite !lookupField_fieldName. unfold storeField.
  rewrite (parseInt64_itoa _ Hp). cbn [setIntField fst snd ShortBreakDuration
    LongBreakDuration PomodoroDuration EnableClockSound].
  rewrite (parseInt64_itoa _ Hs). cbn [setIntField fst snd ShortBreakDuration
    LongBreakDuration PomodoroDuration EnableClockSound].
  rewrite (parseInt64_itoa _ Hl). cbn [setIntField fst snd ShortBreakDuration
    LongBreakDuration PomodoroDuration EnableClockSound orb].
  destruct st; reflexivity.
Qed.

Lemma save_then_load_witness :
  loadSettings (fst (saveSettings (mkSettings 50 10 30 false) Written)) =
  (mkSettings 50 10 30 false, false).
Proof.
  apply (save_then_load (mkSettings 50 10 30 false)).
  unfold representable, minInt64, maxInt64. simpl. lia.
Defined.

(** C10 as stated fails: a present field whose value is not of the
    field's type keeps its default, and the failure is printed.  In
    [overflowFile] the value is an integer beyond the range of [int], in
    [fractionFile] it is 2.5. *)
Lemma merge_skips_ill_typed_value :
  ~ MergesFields overflowFile /\ ~ MergesFields fractionFile /\
  loadSettings (Some overflowFile) = (defaultSettings, true) /\
  loadSettings (Some fractionFile) = (defaultSettings, true).
Proof.
  split; [|split; [|split; vm_compute; reflexivity]].
  - intros H.
    destruct (H [("pomodoro_duration", JNumber "9223372036854775808")]
                ltac:(vm_compute; reflexivity)) as [_ Hf].
    destruct (Hf FPomodoro) as [_ Hv].
    specialize (Hv [] "pomodoro_duration" (JNumber "9223372036854775808") []
                   (VInt 9223372036854775808) eq_refl
                   ltac:(vm_compute; reflexivity) ltac:(vm_compute; reflexivity)
                   ltac:(intros k' v' [])).
    vm_compute in Hv. discriminate Hv.
  - intros H.
    destruct (H [("pomodoro_duration", JNumber "2.5")]
                ltac:(vm_compute; reflexivity)) as [He _].
    vm_compute in He. discriminate He.
Qed.

(** C10, amended. For every settings file that holds a JSON object in
    which each member naming a settings field is null or has the field's
    type (an integer literal within the range of [int] for a duration, a
    boolean for the sound flag), [loadSettings] prints no failure; a field
    that no member names, or only null members, keeps its default; a field
    with a typed member gets the value of the last such member. *)
Theorem load_merges_typed_fields (data : string) (members : list (string * json)) :
  parse data = Some (JObject members) ->
  (forall k v f, In (k, v) members -> lookupField k = Some f ->
     v = JNull \/ decodeValue f v <> None) ->
  snd (loadSettings (Some data)) = false /\
  forall f,
    ((forall k v, In (k, v) members -> lookupField k = Some f -> v = JNull) ->
     getField f (fst (loadSettings (Some data))) = getField f defaultSettings) /\
    (forall before k v after x,
       members = before ++ (k, v) :: after ->
       lookupField k = Some f -> decodeValue f v = Some x ->
       (forall k' v', In (k', v') after -> lookupField k' = Some f -> v' = JNull) ->
       getField f (fst (loadSettings (Some data))) = x).
Proof.
  intros Hp Hwt. rewrite (loadSettings_object data members Hp). cbn [fst snd].
  unfold decodeObject. split; [|intros f; split].
  - rewrite fold_storeMember_flag by exact Hwt. reflexivity.
  - intros Hno. rewrite fold_storeMember_keeps by exact Hno. reflexivity.
  - intros before k v after x -> Ek Ed Hafter.
    rewrite fold_left_app. cbn [fold_left].
    rewrite fold_storeMember_keeps by exact Hafter.
    unfold storeMember at 1. cbn [fst snd]. rewrite Ek.
    destruct (storeField_decoded f v
                (fst (fold_left storeMember before (defaultSettings, false))) x Ed)
      as [Hx _].
    destruct (storeField f v _) as [st' e]. exact Hx.
Qed.

Lemma load_merges_typed_fields_witness :
  snd (loadSettings (Some partialFile)) = false /\
  getField FLongBreak (fst (loadSettings (Some partialFile))) = VInt 20 /\
  getField FPomodoro (fst (loadSettings (Some partialFile))) = VInt 25.
Proof.
  destruct (load_merges_typed_fields partialFile
              [("long_break_duration", JNumber "20"); ("enable_clock_sound", JBool false)])
    as [He Hf].
  - vm_compute. reflexivity.
  - intros k v f [E|[E|[]]] Hk; injection E as <- <-;
      vm_compute in Hk; injection Hk as <-; right; vm_compute; discriminate.
  - split; [exact He|]. split.
    + apply (proj2 (Hf FLongBreak) [] "long_break_duration" (JNumber "20")
                   [("enable_clock_sound", JBool false)] (VInt 20)).
      * reflexivity.
      * vm_compute. reflexivity.
      * vm_compute. reflexivity.
      * intros k' v' [E|[]] Hk. injection E as <- <-. vm_compute in Hk. discriminate Hk.
    + apply (proj1 (Hf FPomodoro)).
      intros k v [E|[E|[]]] Hk; injection E as <- <-; vm_compute in Hk; discriminate Hk.
Defined.

End SettingsClaims.

(** * Further facts about Part I *)

Section Sessions.

#[local] Arguments displayText : simpl never.
#[local] Arguments tooltipText : simpl never.
#[local] Arguments readyGlyph : simpl never.

(** A goroutine step leaves the stop channel, the channel store and the
    settings alone, and keeps the process table at its length. *)
Lemma goroutine_step_frame a s s' tr :
  isGoroutineAction a = true -> step a s = Next s' tr ->
  stopCh s' = stopCh s /\ chans s' = chans s /\ settings s' = settings s /\
  length (procs s') = length (procs s).
Proof.
  intros Ha Hs. destruct a as [b|d| |st|g|g|g|g]; try discriminate Ha; simpl in Hs.
  - destruct (procs s !! g) as [[ | | | ]|]; try discriminate.
    destruct (0 <? remainingTime s); injection Hs as <- _; simpl;
      rewrite length_insert; repeat split; reflexivity.
  - destruct (procs s !! g) as [[ |c| | ]|]; try discriminate.
    destruct (chans s !! c) as [[|]|]; try discriminate.
    injection Hs as <- _; simpl; rewrite length_insert; repeat split; reflexivity.
  - destruct (procs s !! g) as [[ |c| | ]|]; try discriminate.
    destruct (chans s !! c) as [[|]|]; try discriminate.
    injection Hs as <- _; simpl; rewrite length_insert; repeat split; reflexivity.
  - destruct (procs s !! g) as [[ | | | ]|]; try discriminate.
    unfold tickBody in Hs. destruct (wrap64 (remainingTime s - Second) <=? 0);
      injection Hs as <- _; simpl; rewrite length_insert; repeat split; reflexivity.
Qed.

Lemma goroutine_run_frame acts : forall s s' tr,
  forallb isGoroutineAction acts = true -> run acts s = Next s' tr ->
  stopCh s' = stopCh s /\ chans s' = chans s /\ settings s' = settings s /\
  length (procs s') = length (procs s).
Proof.
  induction acts as [|a rest IH]; intros s s' tr Ha Hr; simpl in *.
  - injection Hr as <- _. repeat split; reflexivity.
  - apply andb_true_iff in Ha as [Ha Hrest].
    destruct (step a s) as [s1 tr1| |] eqn:Es; try discriminate.
    destruct (run rest s1) as [s2 tr2| |] eqn:Er; try discriminate.
    injection Hr as <- _.
    destruct (goroutine_step_frame a s s1 tr1 Ha Es) as (H1 & H2 & H3 & H4).
    destruct (IH s1 s2 tr2 Hrest Er) as (K1 & K2 & K3 & K4).
    repeat split; congruence.
Qed.

Lemma naturalTicks_goroutine g n : forallb isGoroutineAction (naturalTicks g n) = true.
Proof.
  unfold naturalTicks. induction n as [|n IH]; [reflexivity|].
  simpl. exact IH.
Qed.

Lemma naturalTicks_S g n : naturalTicks g (S n) = naturalTick g ++ naturalTicks g n.
Proof. reflexivity. Qed.

(** Ticks before the last one: the clock goes down by one second each,
    nothing else in the session changes, and the ready icon is not shown. *)
Lemma countdown_partial k : forall n g s,
  procs s !! g = Some AtLoop ->
  chans s !! stopCh s = Some false ->
  remainingTime s = Z.of_nat n * Second ->
  (k < n)%nat -> Z.of_nat n * Second <= maxInt64 ->
  exists s' tr,
    run (naturalTicks g k) s = Next s' tr /\
    remainingTime s' = Z.of_nat (n - k) * Second /\
    isRunning s' = isRunning s /\
    pomodoroCount s' = pomodoroCount s /\
    isInPomodoro s' = isInPomodoro s /\
    procs s' = procs s /\
    readyRenders tr = 0%nat /\
    (0 < k -> oldDisplayText s' = displayText (Z.of_nat (n - k) * Second))%nat.
Proof.
  induction k as [|k IH]; intros n g s Hg Hch Hrem Hlt Hmax.
  - exists s, []. rewrite Nat.sub_0_r. repeat split; try assumption; try reflexivity.
    intros H. inversion H.
  - destruct n as [|n]; [lia|].
    assert (Hrem' : remainingTime s = (Z.of_nat n + 1) * Second) by lia.
    assert (Hpos : 0 < Z.of_nat n) by lia.
    assert (Hmax' : (Z.of_nat n + 1) * Second <= maxInt64) by lia.
    pose proof (tickBody_nonterminal g s _ Hrem' Hpos Hmax') as Hbody.
    rewrite naturalTicks_S, run_app.
    rewrite naturalTick_run by (try assumption; rewrite Hrem; unfold Second; lia).
    rewrite Hbody.
    rewrite (list_insert_id (procs s) g AtLoop Hg).
    set (s1 := mkState (pomodoroCount s) (isRunning s) (isInPomodoro s)
                 (Z.of_nat n * Second) (stopCh s) (chans s)
                 (displayText (Z.of_nat n * Second)) (settings s) (procs s)).
    destruct (IH n g s1 Hg Hch eq_refl ltac:(lia) ltac:(unfold Second in *; lia))
      as (s' & tr & Hrun & Hr' & Hrun' & Hc' & Hk' & Hp' & Hready & Hold).
    rewrite Hrun. do 2 eexists. split; [reflexivity|].
    replace (S n - S k)%nat with (n - k)%nat by lia.
    repeat split; try assumption.
    + rewrite app_nil_r, !readyRenders_app, Hready.
      destruct (Z.of_nat n <? 11);
        destruct (String.eqb _ (oldDisplayText s)) eqn:E; try reflexivity;
        unfold readyRenders; simpl; rewrite displayText_not_ready; reflexivity.
    + intros _. destruct k as [|k].
      * simpl in Hrun. injection Hrun as <- _. rewrite Nat.sub_0_r. reflexivity.
      * apply Hold. lia.
Qed.

(** What a menu start leaves behind, for either kind of session. *)
Lemma start_spawns (s : State) (D : Z) (b : bool) :
  Reachable s -> 0 < D <= maxMinutes ->
  exists s1,
    run (Start D b) s =
      Next s1 (if b && EnableClockSound (settings s) then [PlayClockSound] else []) /\
    procs s1 = procs s ++ [AtLoop] /\ remainingTime s1 = D * 60 * Second /\
    isInPomodoro s1 = b /\ pomodoroCount s1 = pomodoroCount s /\
    isRunning s1 = true /\ settings s1 = settings s /\
    chans s1 !! stopCh s1 = Some false.
Proof.
  intros HR [HD0 HD1]. destruct (Reachable_Inv s HR) as [Hch Hc].
  assert (Hmin : minutes D = D * 60 * Second).
  { unfold minutes, Minute. rewrite wrap64_id; [lia|].
    unfold minInt64, maxInt64, maxMinutes, Second in *. lia. }
  unfold Start, run, step, handleTimerClick. simpl isRunning. rewrite Hmin.
  destruct (isRunning s).
  - destruct (stopSignal_some (setKind b s) Hch)
      as (s0 & -> & Hc0 & _ & Hk0 & _ & Hs0 & Hp0 & _ & Hch0 & _).
    simpl. eexists. rewrite Hk0, Hs0. simpl. rewrite app_nil_r.
    split; [reflexivity|]. simpl. rewrite Hp0, Hc0.
    repeat split; try reflexivity. exact Hch0.
  - simpl. eexists. rewrite app_nil_r. split; [reflexivity|].
    repeat split; try reflexivity. exact Hch.
Qed.

End Sessions.

Section SessionProperties.

(** X1. For every break of D minutes that fits a [time.Duration], started
    from the menu in any reachable state and followed by D*60 natural
    ticks, the timer ends stopped with [pomodoroCount] unchanged; the
    start requests no ambient sound, the ready icon is rendered once, with
    the unchanged dot count and the "Finished break" tooltip, and
    [playTickSound] is called eleven times. *)
Theorem break_countdown_completes (s : State) (D : Z) :
  Reachable s -> 0 < D <= maxMinutes ->
  exists s1 s2 pre,
    run (Start D false) s = Next s1 [] /\
    run (naturalTicks (length (procs s)) (Z.to_nat (D * 60))) s1 =
      Next s2 (pre ++ [SetTooltip "Finished break - Click to start pomodoro";
                       SetIcon readyGlyph (pomodoroCount s);
                       PlayTickSound; StopClockSound]) /\
    isRunning s2 = false /\ isInPomodoro s2 = false /\
    pomodoroCount s2 = pomodoroCount s /\
    readyRenders pre = 0%nat /\ beeps pre = 10%nat /\
    procs s2 !! length (procs s) = Some Exited.
Proof.
  intros HR HD.
  destruct (start_spawns s D false HR HD)
    as (s1 & Hs1 & Hp1 & Hrem1 & Hk1 & Hc1 & _ & _ & Hch1).
  simpl in Hs1.
  set (g := length (procs s)).
  assert (Hg : procs s1 !! g = Some AtLoop).
  { rewrite Hp1. unfold g. rewrite lookup_app_r by lia.
    rewrite Nat.sub_diag. reflexivity. }
  destruct HD as [HD0 HD1].
  destruct (Z.to_nat (D * 60)) as [|n] eqn:En; [lia|].
  assert (Hrem : remainingTime s1 = Z.of_nat (S n) * Second) by (rewrite Hrem1; lia).
  assert (Hmax : Z.of_nat (S n) * Second <= maxInt64)
    by (unfold maxInt64, maxMinutes, Second in *; lia).
  destruct (countdown_completes n g s1 Hg Hch1 Hrem Hmax)
    as (s2 & pre & Hrun & Hr2 & Hc2 & Hk2 & _ & Hp2 & Hready & Hbeeps).
  exists s1, s2, pre. split; [exact Hs1|].
  unfold completion in Hrun. rewrite Hk1, Hc1 in Hrun.
  split; [exact Hrun|]. split; [exact Hr2|].
  split; [rewrite Hk2; exact Hk1|].
  split; [rewrite Hc2, Hk1; exact Hc1|].
  split; [exact Hready|]. split; [rewrite Hbeeps; lia|].
  rewrite Hp2. apply list_lookup_insert_eq. eapply lookup_lt_Some; exact Hg.
Qed.

Lemma break_countdown_completes_witness :
  exists s1 s2 pre,
    run (Start 1 false) (initState defaultSettings) = Next s1 [] /\
    run (naturalTicks 0 60) s1 =
      Next s2 (pre ++ [SetTooltip "Finished break - Click to start pomodoro";
                       SetIcon readyGlyph 0; PlayTickSound; StopClockSound]) /\
    isRunning s2 = false /\ isInPomodoro s2 = false /\ pomodoroCount s2 = 0 /\
    readyRenders pre = 0%nat /\ beeps pre = 10%nat /\
    procs s2 !! 0%nat = Some Exited.
Proof.
  apply (break_countdown_completes (initState defaultSettings) 1).
  - exists defaultSettings, [], []. reflexivity.
  - unfold maxMinutes. lia.
Defined.

(** X2. While a session of D minutes counts down, after k natural ticks
    (k below D*60) the timer is still running, the remaining time is
    exactly D*60-k seconds, [pomodoroCount] is unchanged, the goroutine is
    back at its loop, and the ready icon has not been rendered. *)
Theorem countdown_progress (s : State) (D k : Z) (focus : bool) :
  Reachable s -> 0 < D <= maxMinutes -> 0 <= k < D * 60 ->
  exists s1 tr1 s' tr,
    run (Start D focus) s = Next s1 tr1 /\
    run (naturalTicks (length (procs s)) (Z.to_nat k)) s1 = Next s' tr /\
    isRunning s' = true /\
    remainingTime s' = (D * 60 - k) * Second /\
    pomodoroCount s' = pomodoroCount s /\
    isInPomodoro s' = focus /\
    procs s' !! length (procs s) = Some AtLoop /\
    readyRenders tr = 0%nat.
Proof.
  intros HR HD Hk.
  destruct (start_spawns s D focus HR HD)
    as (s1 & Hs1 & Hp1 & Hrem1 & Hk1 & Hc1 & Hr1 & _ & Hch1).
  set (g := length (procs s)).
  assert (Hg : procs s1 !! g = Some AtLoop).
  { rewrite Hp1. unfold g. rewrite lookup_app_r by lia.
    rewrite Nat.sub_diag. reflexivity. }
  destruct HD as [HD0 HD1].
  assert (Hrem : remainingTime s1 = Z.of_nat (Z.to_nat (D * 60)) * Second)
    by (rewrite Hrem1; lia).
  assert (Hmax : Z.of_nat (Z.to_nat (D * 60)) * Second <= maxInt64)
    by (unfold maxInt64, maxMinutes, Second in *; lia).
  destruct (countdown_partial (Z.to_nat k) (Z.to_nat (D * 60)) g s1 Hg Hch1 Hrem
              ltac:(lia) Hmax)
    as (s' & tr & Hrun & Hr' & Hrun' & Hc' & Hk' & Hp' & Hready & _).
  exists s1. eexists. exists s', tr. split; [exact Hs1|]. split; [exact Hrun|].
  split; [congruence|]. split; [rewrite Hr'; f_equal; lia|].
  split; [congruence|]. split; [congruence|].
  split; [rewrite Hp'; exact Hg | exact Hready].
Qed.

Lemma countdown_progress_witness :
  exists s1 tr1 s' tr,
    run (Start 25 true) (initState defaultSettings) = Next s1 tr1 /\
    run (naturalTicks 0 (Z.to_nat 90)) s1 = Next s' tr /\
    isRunning s' = true /\
    remainingTime s' = (25 * 60 - 90) * Second /\
    pomodoroCount s' = 0 /\ isInPomodoro s' = true /\
    procs s' !! 0%nat = Some AtLoop /\ readyRenders tr = 0%nat.
Proof.
  apply (countdown_progress (initState defaultSettings) 25 90 true).
  - exists defaultSettings, [], []. reflexivity.
  - unfold maxMinutes. lia.
  - lia.
Defined.

(** X3. No schedule of clicks, settings changes and goroutine steps, run
    from the initial state, ends in the panic of [close(stopCh)] on a
    closed channel: the channel that [stopCh] names is open whenever a
    click handler closes it. *)
Theorem no_schedule_panics (st : TimerSettings) (acts : list Action) :
  run acts (initState st) <> Panic.
Proof. apply run_no_panic. apply Inv_init. Qed.

(** X4. In every reachable state a click on the tray icon is served and
    flips [isRunning], with [pomodoroCount] unchanged.  On a running
    timer it keeps the session kind, the remaining time and the
    goroutines.  On a stopped timer it switches the session kind, spawns
    one goroutine and sets the remaining time from the settings: the
    pomodoro duration after a break, and after a pomodoro the long break
    when the count is 4, the short break otherwise; the ambient sound is
    requested only for a pomodoro with the sound enabled. *)
Theorem tray_click_toggles (s : State) :
  Reachable s ->
  exists s' tr,
    step ATrayClick s = Next s' tr /\
    isRunning s' = negb (isRunning s) /\
    pomodoroCount s' = pomodoroCount s /\
    (isRunning s = true ->
       isInPomodoro s' = isInPomodoro s /\ remainingTime s' = remainingTime s /\
       procs s' = procs s) /\
    (isRunning s = false ->
       isInPomodoro s' = negb (isInPomodoro s) /\
       procs s' = procs s ++ [AtLoop] /\
       remainingTime s' =
         (if isInPomodoro s
          then if pomodoroCount s =? 4
               then minutes (LongBreakDuration (settings s))
               else minutes (ShortBreakDuration (settings s))
          else minutes (PomodoroDuration (settings s))) /\
       tr = if negb (isInPomodoro s) && EnableClockSound (settings s)
            then [PlayClockSound] else []).
Proof.
  intros HR. destruct (Reachable_Inv s HR) as [Hch _].
  simpl. unfold handleTrayClick. destruct (isRunning s) eqn:Hrun.
  - destruct (stopSignal_some s Hch)
      as (s1 & -> & Hc1 & Hr1 & Hk1 & Hrem1 & _ & Hp1 & _).
    do 2 eexists. split; [reflexivity|]. split; [exact Hr1|]. split; [exact Hc1|].
    split; [intros _; repeat split; assumption | intros H; discriminate H].
  - destruct (isInPomodoro s) eqn:Hk; simpl; do 2 eexists;
      (split; [reflexivity|]); simpl; (split; [reflexivity|]);
      (split; [reflexivity|]);
      (split; [intros H; discriminate H | intros _; repeat split; reflexivity]).
Qed.

Lemma tray_click_toggles_witness :
  exists s' tr,
    step ATrayClick focusStarted = Next s' tr /\
    isRunning s' = false /\ pomodoroCount s' = 0.
Proof.
  destruct (tray_click_toggles focusStarted focusStarted_reachable)
    as (s' & tr & Hs & Hr & Hc & _).
  exists s', tr. split; [exact Hs|]. split; [exact Hr | exact Hc].
Defined.

End SessionProperties.

Section TrayCycle.

#[local] Arguments cycleCount : simpl never.

Lemma bump_cycleCount r : bump (cycleCount r) = cycleCount (S r).
Proof.
  destruct r as [|m]; [reflexivity|].
  assert (H : 0 <= cycleCount (S m) <= 4).
  { unfold cycleCount. pose proof (Nat.mod_upper_bound m 4). lia. }
  rewrite bump_small by exact H. unfold cycleCount.
  pose proof (Nat.mod_upper_bound m 4 ltac:(lia)) as Hm.
  pose proof (Nat.mod_upper_bound (S m) 4 ltac:(lia)) as HSm.
  pose proof (Nat.div_mod_eq m 4) as E1.
  pose proof (Nat.div_mod_eq (S m) 4) as E2.
  destruct (4 <? Z.of_nat (m mod 4) + 1 + 1) eqn:E;
    [apply Z.ltb_lt in E | apply Z.ltb_ge in E]; lia.
Qed.

Lemma cycleCount_four r : (cycleCount (S r) =? 4) = (r mod 4 =? 3)%nat.
Proof.
  unfold cycleCount. destruct (Nat.eqb_spec (r mod 4) 3) as [E|E].
  - rewrite E. reflexivity.
  - apply Z.eqb_neq. lia.
Qed.

Lemma repeat_snoc {A} (x : A) n : repeat x n ++ [x] = repeat x (S n).
Proof. induction n as [|n IH]; simpl; [reflexivity | rewrite IH; reflexivity]. Qed.

(** A countdown started by [startTimer] on an idle timer whose goroutines
    have all exited, run to its end. *)
Lemma started_countdown_completes (s : State) (M : Z) (k : nat) :
  0 < M <= maxMinutes ->
  isRunning s = false ->
  chans s !! stopCh s = Some false ->
  procs s = repeat Exited k ->
  let s1 := fst (startTimer (minutes M) s) in
  exists s2 pre,
    run (naturalTicks k (Z.to_nat (M * 60))) s1 = Next s2 (pre ++ completion s) /\
    isRunning s2 = false /\
    pomodoroCount s2 =
      (if isInPomodoro s then bump (pomodoroCount s) else pomodoroCount s) /\
    isInPomodoro s2 = isInPomodoro s /\
    settings s2 = settings s /\
    chans s2 !! stopCh s2 = Some false /\
    procs s2 = repeat Exited (S k) /\
    readyRenders pre = 0%nat /\ beeps pre = 10%nat.
Proof.
  intros [HM0 HM1] Hidle Hch Hp s1.
  assert (Hmin : minutes M = M * 60 * Second).
  { unfold minutes, Minute. rewrite wrap64_id; [lia|].
    unfold minInt64, maxInt64, maxMinutes, Second in *. lia. }
  assert (Hg : procs s1 !! k = Some AtLoop).
  { simpl. rewrite Hp, lookup_app_r; rewrite repeat_length; [|lia].
    rewrite Nat.sub_diag. reflexivity. }
  destruct (Z.to_nat (M * 60)) as [|n] eqn:En; [lia|].
  assert (Hrem : remainingTime s1 = Z.of_nat (S n) * Second)
    by (simpl remainingTime; rewrite Hmin; lia).
  assert (Hmax : Z.of_nat (S n) * Second <= maxInt64)
    by (unfold maxInt64, maxMinutes, Second in *; lia).
  destruct (countdown_completes n k s1 Hg Hch Hrem Hmax)
    as (s2 & pre & Hrun & Hr2 & Hc2 & Hk2 & _ & Hp2 & Hready & Hbeeps).
  destruct (goroutine_run_frame _ _ _ _ (naturalTicks_goroutine k (S n)) Hrun)
    as (F1 & F2 & F3 & _).
  exists s2, pre. split; [exact Hrun|]. split; [exact Hr2|].
  split; [exact Hc2|]. split; [exact Hk2|]. split; [exact F3|].
  split; [rewrite F1, F2; exact Hch|].
  split; [|split; [exact Hready | rewrite Hbeeps; lia]].
  rewrite Hp2. simpl procs. rewrite Hp.
  rewrite insert_app_r_alt; rewrite repeat_length; [|lia].
  rewrite Nat.sub_diag. simpl. apply repeat_snoc.
Qed.

(** One round of work driven by the tray icon. *)
Lemma tray_round (st : TimerSettings) (r : nat) (s : State) :
  validDurations st ->
  settings s = st -> isRunning s = false -> isInPomodoro s = false ->
  pomodoroCount s = cycleCount r ->
  chans s !! stopCh s = Some false ->
  procs s = repeat Exited (2 * r) ->
  exists s' tr,
    run (trayRound st r) s = Next s' tr /\
    settings s' = st /\ isRunning s' = false /\ isInPomodoro s' = false /\
    pomodoroCount s' = cycleCount (S r) /\
    chans s' !! stopCh s' = Some false /\
    procs s' = repeat Exited (2 * S r) /\
    readyRenders tr = 2%nat.
Proof.
  intros (HP & HS & HL) Hst Hidle Hkind Hc Hch Hp.
  unfold trayRound. rewrite run_app.
  assert (E1 : run [ATrayClick] s =
               Next (fst (startTimer (minutes (PomodoroDuration st)) (setKind true s)))
                    (if EnableClockSound st then [PlayClockSound] else [])).
  { simpl. unfold handleTrayClick. rewrite Hidle, Hkind, Hst. simpl.
    rewrite Hst, app_nil_r. reflexivity. }
  rewrite E1. rewrite run_app.
  destruct (started_countdown_completes (setKind true s) (PomodoroDuration st) (2 * r)
              HP Hidle Hch Hp)
    as (s2 & pre & Hrun & Hr2 & Hc2 & Hk2 & Hs2 & Hch2 & Hp2 & Hready & _).
  rewrite Hrun. simpl isInPomodoro in Hc2, Hk2. simpl pomodoroCount in Hc2.
  simpl settings in Hs2. rewrite Hc, bump_cycleCount in Hc2.
  set (B := if (r mod 4 =? 3)%nat then LongBreakDuration st else ShortBreakDuration st).
  assert (HB : 0 < B <= maxMinutes) by (unfold B; destruct (r mod 4 =? 3)%nat; assumption).
  rewrite run_app.
  assert (E2 : run [ATrayClick] s2 =
               Next (fst (startTimer (minutes B) (setKind false s2))) []).
  { destruct s2 as [c2 r2 k2 rem2 sc2 ch2 od2 se2 pr2]. simpl in Hr2, Hk2, Hc2, Hs2.
    rewrite Hr2, Hk2, Hc2, Hs2, Hst. simpl. unfold handleTrayClick. simpl.
    rewrite cycleCount_four. unfold B.
    destruct (r mod 4 =? 3)%nat; reflexivity. }
  rewrite E2.
  replace (2 * r + 1)%nat with (S (2 * r)) by lia.
  destruct (started_countdown_completes (setKind false s2) B (S (2 * r))
              HB Hr2 Hch2 Hp2)
    as (s4 & pre' & Hrun' & Hr4 & Hc4 & Hk4 & Hs4 & Hch4 & Hp4 & Hready' & _).
  rewrite Hrun'. do 2 eexists. split; [reflexivity|].
  simpl isInPomodoro in Hc4, Hk4. simpl pomodoroCount in Hc4. simpl settings in Hs4.
  split; [congruence|]. split; [exact Hr4|]. split; [exact Hk4|].
  split; [congruence|]. split; [exact Hch4|].
  split; [rewrite Hp4; f_equal; lia|].
  rewrite !readyRenders_app, Hready, Hready'.
  destruct (EnableClockSound st); reflexivity.
Qed.

Lemma trayRounds_S st n : trayRounds st (S n) = trayRounds st n ++ trayRound st n.
Proof.
  unfold trayRounds. rewrite seq_S, map_app, concat_app. simpl.
  rewrite app_nil_r. reflexivity.
Qed.

(** X5. With settings whose three durations fit, n rounds of work driven
    by the tray icon alone (a click, the focus countdown to its end, a
    click, the break countdown to its end, where the break lasts the long
    break duration in every fourth round and the short one otherwise) run
    without blocking from the initial state.  They end with the timer
    stopped after a break, every goroutine exited, the ready icon rendered
    twice per round, and [pomodoroCount] equal to 0 for n = 0 and to
    ((n-1) mod 4) + 1 otherwise: the click after the fourth focus session
    of a group is the one that starts the long break. *)
Theorem tray_cycle (st : TimerSettings) (n : nat) :
  validDurations st ->
  exists s tr,
    run (trayRounds st n) (initState st) = Next s tr /\
    isRunning s = false /\ isInPomodoro s = false /\
    pomodoroCount s = cycleCount n /\
    procs s = repeat Exited (2 * n) /\
    settings s = st /\
    readyRenders tr = (2 * n)%nat.
Proof.
  intros Hv.
  assert (H : exists s tr,
    run (trayRounds st n) (initState st) = Next s tr /\
    settings s = st /\ isRunning s = false /\ isInPomodoro s = false /\
    pomodoroCount s = cycleCount n /\
    chans s !! stopCh s = Some false /\
    procs s = repeat Exited (2 * n) /\
    readyRenders tr = (2 * n)%nat).
  { induction n as [|n IH].
    - exists (initState st), []. repeat split; reflexivity.
    - destruct IH as (s & tr & Hrun & Hst & Hr & Hk & Hc & Hch & Hp & Hready).
      destruct (tray_round st n s Hv Hst Hr Hk Hc Hch Hp)
        as (s' & tr' & Hrun' & Hst' & Hr' & Hk' & Hc' & Hch' & Hp' & Hready').
      exists s', (tr ++ tr'). rewrite trayRounds_S, run_app, Hrun, Hrun'.
      split; [reflexivity|]. split; [exact Hst'|]. split; [exact Hr'|].
      split; [exact Hk'|]. split; [exact Hc'|]. split; [exact Hch'|].
      split; [exact Hp'|]. rewrite readyRenders_app, Hready, Hready'. lia. }
  destruct H as (s & tr & Hrun & Hst & Hr & Hk & Hc & _ & Hp & Hready).
  exists s, tr. repeat split; assumption.
Qed.

Lemma tray_cycle_witness :
  exists s tr,
    run (trayRounds (mkSettings 1 1 2 true) 5) (initState (mkSettings 1 1 2 true)) =
      Next s tr /\
    isRunning s = false /\ isInPomodoro s = false /\
    pomodoroCount s = 1 /\
    procs s = repeat Exited 10 /\
    settings s = mkSettings 1 1 2 true /\
    readyRenders tr = 10%nat.
Proof.
  apply (tray_cycle (mkSettings 1 1 2 true) 5).
  unfold validDurations, maxMinutes. simpl. lia.
Defined.

End TrayCycle.

Section TrayStop.

(** X6. A pomodoro or break stopped from the tray icon is not resumed by
    the next click: the two clicks leave a running timer of the other
    kind, with [pomodoroCount] unchanged, one more goroutine, and the
    remaining time set anew from the settings (after an interrupted
    pomodoro the long break when the count is 4, the short one
    otherwise); the remaining time of the stopped session is dropped. *)
Theorem tray_stop_then_click (s : State) :
  Reachable s -> isRunning s = true ->
  exists s1 tr1 s2 tr2,
    step ATrayClick s = Next s1 tr1 /\ step ATrayClick s1 = Next s2 tr2 /\
    readyRenders tr1 = 1%nat /\
    isRunning s2 = true /\
    isInPomodoro s2 = negb (isInPomodoro s) /\
    pomodoroCount s2 = pomodoroCount s /\
    procs s2 = procs s ++ [AtLoop] /\
    remainingTime s2 =
      (if isInPomodoro s
       then if pomodoroCount s =? 4
            then minutes (LongBreakDuration (settings s))
            else minutes (ShortBreakDuration (settings s))
       else minutes (PomodoroDuration (settings s))).
Proof.
  intros HR Hrun. destruct (Reachable_Inv s HR) as [Hch _].
  simpl. unfold handleTrayClick at 1. rewrite Hrun.
  destruct (stopSignal_some s Hch)
    as (s1 & -> & Hc1 & Hr1 & Hk1 & _ & Hs1 & Hp1 & _).
  unfold handleTrayClick. exists s1. rewrite Hr1, Hk1, Hc1, Hs1.
  destruct (isInPomodoro s); simpl; do 3 eexists;
    (split; [reflexivity|]); (split; [reflexivity|]); simpl;
    rewrite ?Hc1, ?Hp1; repeat split; reflexivity.
Qed.

Lemma tray_stop_then_click_witness :
  exists s1 tr1 s2 tr2,
    step ATrayClick focusStarted = Next s1 tr1 /\ step ATrayClick s1 = Next s2 tr2 /\
    readyRenders tr1 = 1%nat /\
    isRunning s2 = true /\ isInPomodoro s2 = false /\ pomodoroCount s2 = 0 /\
    procs s2 = [AtLoop; AtLoop] /\
    remainingTime s2 = minutes 5.
Proof.
  apply (tray_stop_then_click focusStarted focusStarted_reachable). reflexivity.
Defined.

End TrayStop.

(** * Further facts about Part II *)

Section ReadFacts.

Variable float64 : Type.
Variable sample16 : float64 -> float64 -> Z -> Z -> Z.

Lemma frameBytes_length b k : length (frameBytes b k) = (2 * k)%nat.
Proof.
  unfold frameBytes. induction k as [|k IH]; [reflexivity|].
  simpl. rewrite IH. lia.
Qed.

Lemma frameBytes_S b k :
  frameBytes b (S k) = frameBytes b k ++ [toByte b; toByte (Z.shiftr b 8)].
Proof.
  unfold frameBytes. cbn [repeat]. rewrite repeat_cons, concat_app. simpl.
  reflexivity.
Qed.

(** The channel loop of frame [i] overwrites [2*k] bytes from the start
    of the frame with the sample, repeated once per channel. *)
Lemma writeFrame_layout num i b k : forall buf,
  0 <= num ->
  (Z.to_nat (num * Z.of_nat i) + 2 * k <= length buf)%nat ->
  writeFrame num i b k buf =
  take (Z.to_nat (num * Z.of_nat i)) buf ++ frameBytes b k ++
  drop (Z.to_nat (num * Z.of_nat i) + 2 * k) buf.
Proof.
  intros buf Hnum. set (base := Z.to_nat (num * Z.of_nat i)).
  unfold writeFrame. induction k as [|k IH]; intros Hlen.
  - simpl. rewrite Nat.add_0_r, take_drop. reflexivity.
  - rewrite seq_S, fold_left_app. cbn [fold_left]. rewrite IH by lia.
    rewrite frameBytes_S. change (0 + k)%nat with k.
    replace (Z.to_nat (num * Z.of_nat i + 2 * Z.of_nat k)) with (base + 2 * k)%nat
      by (unfold base; nia).
    replace (Z.to_nat (num * Z.of_nat i + 1 + 2 * Z.of_nat k)) with (S (base + 2 * k))
      by (unfold base; nia).
    pose proof (frameBytes_length b k) as HF.
    assert (HT : length (take base buf) = base) by (rewrite length_take; lia).
    destruct (drop (base + 2 * k) buf) as [|x [|y R]] eqn:Ed.
    + apply (f_equal length) in Ed. rewrite length_drop in Ed. simpl in Ed. lia.
    + apply (f_equal length) in Ed. rewrite length_drop in Ed. simpl in Ed. lia.
    + assert (ER : drop (base + 2 * S k) buf = R).
      { replace (base + 2 * S k)%nat with (base + 2 * k + 2)%nat by lia.
        rewrite <- (drop_drop buf 2 (base + 2 * k)), Ed. reflexivity. }
      rewrite ER.
      rewrite (app_assoc (take base buf)).
      set (A := take base buf ++ frameBytes b k).
      assert (HA : length A = (base + 2 * k)%nat)
        by (unfold A; rewrite length_app; lia).
      rewrite (insert_app_r_alt A _ (base + 2 * k)) by lia.
      replace (base + 2 * k - length A)%nat with 0%nat by lia. cbn [insert list_insert].
      rewrite (insert_app_r_alt A _ (S (base + 2 * k))) by lia.
      replace (S (base + 2 * k) - length A)%nat with 1%nat by lia.
      cbn [insert list_insert].
      unfold A. rewrite <- !app_assoc. reflexivity.
Qed.

Lemma interleaved_length w p m :
  length (interleaved sample16 w p m) = (2 * Z.to_nat (channelCount w) * m)%nat.
Proof.
  unfold interleaved. induction m as [|m IH]; [simpl; lia|].
  rewrite seq_S, flat_map_app, length_app, IH. simpl.
  rewrite app_nil_r, frameBytes_length. lia.
Qed.

Lemma interleaved_S w p m :
  interleaved sample16 w p (S m) =
  interleaved sample16 w p m ++
  frameBytes (toInt16 (sample16 (freq w) (amplitude w) (sampleRate w) (p + Z.of_nat m)))
             (Z.to_nat (channelCount w)).
Proof.
  unfold interleaved. rewrite seq_S, flat_map_app. simpl.
  rewrite app_nil_r. reflexivity.
Qed.

(** The frame loop overwrites the first [m] whole frames of the buffer
    and nothing after them. *)
Lemma writeFrames_layout w p m : forall buf,
  0 < channelCount w ->
  (2 * Z.to_nat (channelCount w) * m <= length buf)%nat ->
  writeFrames float64 sample16 w (2 * channelCount w) p m buf =
  interleaved sample16 w p m ++ drop (2 * Z.to_nat (channelCount w) * m) buf.
Proof.
  intros buf Hc. set (c := Z.to_nat (channelCount w)).
  unfold writeFrames. induction m as [|m IH]; intros Hlen.
  - simpl. rewrite Nat.mul_0_r. reflexivity.
  - rewrite seq_S, fold_left_app. cbn [fold_left]. rewrite IH by lia.
    change (0 + m)%nat with m. fold c.
    pose proof (interleaved_length w p m) as HI. fold c in HI.
    assert (Hbase : Z.to_nat (2 * channelCount w * Z.of_nat m) = (2 * c * m)%nat)
      by (unfold c; nia).
    rewrite writeFrame_layout;
      [rewrite Hbase | lia | rewrite Hbase, length_app, length_drop; lia].
    rewrite interleaved_S. fold c.
    rewrite take_app_length' by (symmetry; exact HI).
    rewrite drop_app_ge by lia. rewrite HI.
    replace (2 * c * m + 2 * c - 2 * c * m)%nat with (2 * c)%nat by lia.
    rewrite drop_drop. rewrite <- app_assoc.
    replace (2 * c * m + 2 * c)%nat with (2 * c * S m)%nat by lia. reflexivity.
Qed.


Lemma writeFrame_length num i b k buf : length (writeFrame num i b k buf) = length buf.
Proof.
  unfold writeFrame. generalize (seq 0 k) as l. intros l. revert buf.
  induction l as [|ch l IH]; intros buf; [reflexivity|].
  cbn [fold_left]. rewrite IH, !length_insert. reflexivity.
Qed.

Lemma writeFrames_length w num p m buf :
  length (writeFrames float64 sample16 w num p m buf) = length buf.
Proof.
  unfold writeFrames. generalize (seq 0 m) as l. intros l. revert buf.
  induction l as [|i l IH]; intros buf; [reflexivity|].
  cbn [fold_left]. rewrite IH, writeFrame_length. reflexivity.
Qed.

Lemma num_zero (f : Format) (c : Z) : (formatByteLength f * c =? 0) = (c =? 0).
Proof.
  destruct (Z.eqb_spec c 0) as [->|Hc].
  - rewrite Z.mul_0_r. reflexivity.
  - apply Z.eqb_neq. destruct f; simpl; lia.
Qed.

(** X7. [SineWave.Read] on a 16-bit wave with a positive channel count
    and data left, for a buffer whose length added to [pos] fits an
    [int64]: it returns n = min(len(buf), length - pos), advances [pos] by
    n, and reports [io.EOF] exactly when the buffer reached beyond
    [length].  The n bytes hold n / (2*channelCount) whole frames from
    sample index pos / (2*channelCount) on, every channel of a frame
    holding the same sample, low byte first.  The bytes after the last
    whole frame are left as the caller passed them, those of an incomplete
    frame included, although n counts them. *)
Theorem read_frame_layout (w : SineWave float64) (buf : list Z) :
  format w = FormatSignedInt16LE ->
  0 < channelCount w -> 2 * channelCount w <= maxInt64 ->
  0 <= pos w < length_ w ->
  pos w + Z.of_nat (length buf) <= maxInt64 ->
  let n := Z.min (Z.of_nat (length buf)) (length_ w - pos w) in
  let num := 2 * channelCount w in
  Read sample16 w buf =
    Some (mkRead
            (mkSineWave (freq w) (length_ w) (pos w + n) (channelCount w)
                        (format w) (amplitude w) (sampleRate w))
            (interleaved sample16 w (pos w / num) (Z.to_nat (n / num)) ++
             drop (Z.to_nat (num * (n / num))) buf)
            n
            (length_ w <? pos w + Z.of_nat (length buf))).
Proof.
  intros Hf Hc _ [Hp0 Hp1] _ n num. unfold Read.
  replace (length_ w <=? pos w) with false by (symmetry; apply Z.leb_gt; lia).
  rewrite num_zero.
  replace (channelCount w =? 0) with false by (symmetry; apply Z.eqb_neq; lia).
  rewrite Hf. cbn [formatByteLength]. fold num.
  assert (Hn : (if length_ w <? pos w + Z.of_nat (length buf)
                then length_ w - pos w else Z.of_nat (length buf)) = n).
  { unfold n. destruct (Z.ltb_spec (length_ w) (pos w + Z.of_nat (length buf))); lia. }
  rewrite Hn.
  assert (Hn0 : 0 <= n) by (unfold n; lia).
  assert (Hnum : 0 < num) by (unfold num; lia).
  rewrite !Z.quot_div_nonneg by lia.
  pose proof (Z.mul_div_le n num Hnum) as Hle.
  assert (Hq : 0 <= n / num) by (apply Z.div_pos; lia).
  assert (Hm : Z.of_nat (2 * Z.to_nat (channelCount w) * Z.to_nat (n / num)) =
               num * (n / num)).
  { rewrite !Nat2Z.inj_mul, !Z2Nat.id by lia. reflexivity. }
  rewrite writeFrames_layout; [| exact Hc | unfold n in *; lia].
  do 3 f_equal. rewrite <- Hm, Nat2Z.id. reflexivity.
Qed.

(** What a call of [Read] returns and does to the receiver, whatever the
    format. *)
Lemma Read_some (w : SineWave float64) (buf : list Z) :
  channelCount w <> 0 ->
  exists r,
    Read sample16 w buf = Some r /\
    count r = Z.max 0 (Z.min (Z.of_nat (length buf)) (length_ w - pos w)) /\
    wave r = mkSineWave (freq w) (length_ w) (pos w + count r) (channelCount w)
                        (format w) (amplitude w) (sampleRate w) /\
    eof r = (length_ w <=? pos w) || (length_ w <? pos w + Z.of_nat (length buf)) /\
    length (bytes r) = length buf /\
    (format w <> FormatSignedInt16LE -> bytes r = buf).
Proof.
  intros Hc. unfold Read. destruct (Z.leb_spec (length_ w) (pos w)) as [Hle|Hlt].
  - eexists. split; [reflexivity|]. cbn [count wave eof bytes].
    replace (Z.max 0 _) with 0 by lia. rewrite Z.add_0_r.
    split; [reflexivity|]. split; [destruct w; reflexivity|].
    repeat split; reflexivity.
  - rewrite num_zero.
    replace (channelCount w =? 0) with false by (symmetry; apply Z.eqb_neq; exact Hc).
    eexists. split; [reflexivity|]. cbn [count wave eof bytes].
    assert (Hn : (if length_ w <? pos w + Z.of_nat (length buf)
                  then length_ w - pos w else Z.of_nat (length buf)) =
                 Z.max 0 (Z.min (Z.of_nat (length buf)) (length_ w - pos w))).
    { destruct (Z.ltb_spec (length_ w) (pos w + Z.of_nat (length buf))); lia. }
    rewrite Hn. split; [reflexivity|]. split; [reflexivity|]. split; [reflexivity|].
    split.
    + destruct (format w); try reflexivity. apply writeFrames_length.
    + intros Hf. destruct (format w); try reflexivity. contradiction.
Qed.

(** X8. [SineWave.Read] with any format, for a wave and a buffer whose
    sizes fit the machine integers: the call panics (division by zero)
    exactly when data is left and [channelCount] is 0; otherwise it
    returns max(0, min(len(buf), length - pos)), adds that to [pos] and
    changes nothing else in the receiver, reports [io.EOF] exactly when
    [pos] had reached [length] or the buffer reaches beyond it, keeps the
    buffer at its length, and with a format other than 16-bit leaves every
    byte of the buffer as it was although it counts them as read. *)
Theorem read_bookkeeping (w : SineWave float64) (buf : list Z) :
  minInt64 <= 4 * channelCount w <= maxInt64 ->
  pos w + Z.of_nat (length buf) <= maxInt64 ->
  (Read sample16 w buf = None <-> pos w < length_ w /\ channelCount w = 0) /\
  (forall r, Read sample16 w buf = Some r ->
     count r = Z.max 0 (Z.min (Z.of_nat (length buf)) (length_ w - pos w)) /\
     wave r = mkSineWave (freq w) (length_ w) (pos w + count r) (channelCount w)
                         (format w) (amplitude w) (sampleRate w) /\
     (eof r = true <-> length_ w <= pos w \/ length_ w < pos w + Z.of_nat (length buf)) /\
     length (bytes r) = length buf /\
     (format w <> FormatSignedInt16LE -> bytes r = buf)).
Proof.
  intros _ _. split.
  - unfold Read. destruct (Z.leb_spec (length_ w) (pos w)) as [Hle|Hlt].
    + split; [discriminate | lia].
    + rewrite num_zero. destruct (Z.eqb_spec (channelCount w) 0) as [Hc|Hc].
      * split; [intros _; split; assumption | reflexivity].
      * split; [discriminate | intros [_ H]; contradiction].
  - intros r Hr. destruct (Z.eq_dec (channelCount w) 0) as [Hc|Hc].
    + unfold Read in Hr. destruct (Z.leb_spec (length_ w) (pos w)) as [Hle|Hlt].
      * injection Hr as <-. cbn [count wave eof bytes].
        replace (Z.max 0 _) with 0 by lia. rewrite Z.add_0_r.
        split; [reflexivity|]. split; [destruct w; reflexivity|].
        split; [split; [intros _; left; exact Hle | reflexivity]|].
        split; reflexivity.
      * rewrite num_zero, Hc in Hr. discriminate Hr.
    + destruct (Read_some w buf Hc) as (r' & Hr' & H1 & H2 & H3 & H4 & H5).
      rewrite Hr' in Hr. injection Hr as <-.
      split; [exact H1|]. split; [exact H2|].
      split; [|split; assumption].
      rewrite H3, orb_true_iff, Z.leb_le, Z.ltb_lt. reflexivity.
Qed.

(** X9. Successive reads from one wave with a non-zero channel count and
    0 <= pos <= length, with buffers of any lengths (sizes that fit the
    machine integers): none of the calls
    panics, the returned counts add up to min(total buffer length,
    length - pos) however the buffers are cut, and [pos] ends at its
    initial value plus that sum, never beyond [length]. *)
Theorem reads_total (bufs : list (list Z)) : forall w : SineWave float64,
  channelCount w <> 0 -> minInt64 <= 4 * channelCount w <= maxInt64 ->
  0 <= pos w <= length_ w ->
  pos w + Z.of_nat (length (concat bufs)) <= maxInt64 ->
  exists w',
    reads sample16 w bufs =
      Some (w', Z.min (Z.of_nat (length (concat bufs))) (length_ w - pos w)) /\
    pos w' = pos w + Z.min (Z.of_nat (length (concat bufs))) (length_ w - pos w) /\
    pos w' <= length_ w' /\ length_ w' = length_ w.
Proof.
  induction bufs as [|buf rest IH]; intros w Hc Hnum Hp Hfit.
  - exists w. simpl. replace (Z.min 0 _) with 0 by lia.
    rewrite Z.add_0_r. split; [reflexivity|]. split; [reflexivity|].
    split; [lia | reflexivity].
  - destruct (Read_some w buf Hc) as (r & Hr & H1 & H2 & _).
    cbn [reads]. rewrite Hr.
    assert (Hc' : channelCount (wave r) <> 0) by (rewrite H2; exact Hc).
    assert (Hp' : 0 <= pos (wave r) <= length_ (wave r))
      by (rewrite H2; cbn [pos length_]; lia).
    cbn [concat] in *. rewrite length_app in *.
    assert (Hfit' : pos (wave r) + Z.of_nat (length (concat rest)) <= maxInt64)
      by (rewrite H2; cbn [pos]; lia).
    assert (Hnum' : minInt64 <= 4 * channelCount (wave r) <= maxInt64)
      by (rewrite H2; exact Hnum).
    destruct (IH (wave r) Hc' Hnum' Hp' Hfit') as (w' & Hrs & Hpos & Hle & Hlen).
    rewrite Hrs. exists w'.
    rewrite H2 in Hpos, Hlen. cbn [pos length_] in Hpos, Hlen.
    split; [rewrite H2; cbn [pos length_]; do 2 f_equal; lia|].
    split; [lia|]. split; [lia | exact Hlen].
Qed.

End ReadFacts.

Lemma read_frame_layout_witness :
  Read (fun (_ _ : unit) (_ p : Z) => 1000 * p)
       (mkSineWave tt 8820 8 2 FormatSignedInt16LE tt 44100) [0; 0; 0; 0; 7; 9] =
    Some (mkRead (mkSineWave tt 8820 14 2 FormatSignedInt16LE tt 44100)
                 [208; 7; 208; 7; 7; 9] 6 false).
Proof.
  apply (read_frame_layout unit (fun (_ _ : unit) (_ p : Z) => 1000 * p)
           (mkSineWave tt 8820 8 2 FormatSignedInt16LE tt 44100) [0; 0; 0; 0; 7; 9]);
    simpl; unfold maxInt64; try reflexivity; lia.
Defined.

Lemma read_bookkeeping_witness :
  (Read (fun (_ _ : unit) (_ p : Z) => 1000 * p)
        (mkSineWave tt 8 5 3 FormatUnsignedInt8 tt 44100) [1; 2; 3; 4] = None <->
   5 < 8 /\ 3 = 0) /\
  (forall r,
     Read (fun (_ _ : unit) (_ p : Z) => 1000 * p)
          (mkSineWave tt 8 5 3 FormatUnsignedInt8 tt 44100) [1; 2; 3; 4] = Some r ->
     count r = 3 /\
     wave r = mkSineWave tt 8 (5 + count r) 3 FormatUnsignedInt8 tt 44100 /\
     (eof r = true <-> 8 <= 5 \/ 8 < 5 + 4) /\
     length (bytes r) = 4%nat /\
     (FormatUnsignedInt8 <> FormatSignedInt16LE -> bytes r = [1; 2; 3; 4])).
Proof.
  apply (read_bookkeeping unit (fun (_ _ : unit) (_ p : Z) => 1000 * p)
           (mkSineWave tt 8 5 3 FormatUnsignedInt8 tt 44100) [1; 2; 3; 4]);
    simpl; unfold minInt64, maxInt64; lia.
Defined.

Lemma reads_total_witness :
  exists w',
    reads (fun (_ _ : unit) (_ p : Z) => 1000 * p)
          (mkSineWave tt 10 0 1 FormatSignedInt16LE tt 44100)
          [[0; 0; 0; 0]; [0; 0; 0]; [0; 0; 0; 0; 0]; [0]] = Some (w', 10) /\
    pos w' = 10 /\ pos w' <= length_ w' /\ length_ w' = 10.
Proof.
  apply (reads_total unit (fun (_ _ : unit) (_ p : Z) => 1000 * p)
           [[0; 0; 0; 0]; [0; 0; 0]; [0; 0; 0; 0; 0]; [0]]
           (mkSineWave tt 10 0 1 FormatSignedInt16LE tt 44100));
    simpl; unfold minInt64, maxInt64; lia.
Defined.

(** * Facts about Part IV *)

Section LoopReader.

Lemma cyclic_app d s a b : cyclic d s (a + b) = cyclic d s a ++ cyclic d (s + a) b.
Proof.
  unfold cyclic. rewrite seq_app, map_app. f_equal.
  replace (0 + a)%nat with (a + 0)%nat by lia.
  rewrite <- (fmap_add_seq a 0 b). rewrite <- list_fmap_compose.
  apply map_ext. intros j. simpl. rewrite Nat.add_assoc. reflexivity.
Qed.

Lemma cyclic_wrap d k : cyclic d (length d) k = cyclic d 0 k.
Proof.
  unfold cyclic. apply map_ext. intros j. destruct d as [|x d]; [reflexivity|].
  replace (length (x :: d) + j)%nat with (j + 1 * length (x :: d))%nat by lia.
  rewrite Nat.Div0.mod_add. reflexivity.
Qed.

Lemma cyclic_chunk d i n :
  (i + n <= length d)%nat -> take n (drop i d) = cyclic d i n.
Proof.
  induction n as [|n IH]; intros Hle.
  - rewrite take_0. reflexivity.
  - replace (S n) with (n + 1)%nat by lia. rewrite cyclic_app, <- IH by lia.
    destruct (lookup_lt_is_Some_2 d (i + n) ltac:(lia)) as [x Hx].
    replace (n + 1)%nat with (S n) by lia.
    rewrite (take_S_r _ _ x) by (rewrite lookup_drop; exact Hx).
    f_equal. unfold cyclic. simpl. rewrite Nat.add_0_r.
    rewrite Nat.mod_small by lia. rewrite Hx. reflexivity.
Qed.

(** One call on a [bytes.Reader] whose index is within the slice. *)
Lemma loopRead_bytes d i p :
  (i <= length d)%nat ->
  exists n i',
    loopRead (mkReader d (Z.of_nat i)) p =
      (mkReader d (Z.of_nat i'), cyclic d i n ++ drop n p, Z.of_nat n, None) /\
    (n <= length p)%nat /\ (i' <= length d)%nat /\
    (forall k, cyclic d i' k = cyclic d (i + n) k) /\
    (n = 0%nat <-> p = [] \/ i = length d) /\
    (i = length d -> i' = 0%nat).
Proof.
  intros Hi. unfold loopRead. cbn [ioRead ioSeekStart bytesReader_ReadSeeker].
  unfold readerRead. cbn [data index].
  destruct (Z.leb_spec (Z.of_nat (length d)) (Z.of_nat i)) as [Hle|Hlt].
  - assert (i = length d) by lia. subst i. cbn.
    exists 0%nat, 0%nat. split; [reflexivity|]. split; [lia|]. split; [lia|].
    split; [|split; [split; [intros _; right; reflexivity | reflexivity] | reflexivity]].
    intros k. rewrite Nat.add_0_r. symmetry. apply cyclic_wrap.
  - rewrite Nat2Z.id, length_drop.
    set (n := Nat.min (length p) (length d - i)).
    exists n, (i + n)%nat. rewrite cyclic_chunk by lia.
    split; [rewrite Nat2Z.inj_add; reflexivity|].
    split; [lia|]. split; [lia|]. split; [reflexivity|].
    split; [|lia].
    split.
    + intros Hn. left. unfold n in Hn. destruct p; [reflexivity | cbn [length] in Hn; lia].
    + intros [Hp | Hd]; [unfold n; rewrite Hp; reflexivity | lia].
Qed.

Lemma played_cyclic d bufs : forall i,
  (i <= length d)%nat ->
  exists k,
    played (mkReader d (Z.of_nat i)) bufs = (cyclic d i k, false) /\
    (k <= length (concat bufs))%nat /\ (d = [] -> k = 0%nat).
Proof.
  induction bufs as [|p rest IH]; intros i Hi.
  - exists 0%nat. split; [reflexivity|]. split; [simpl; lia | reflexivity].
  - destruct (loopRead_bytes d i p Hi) as (n & i' & Hr & Hn & Hi' & Hcyc & Hzero & _).
    destruct (IH i' Hi') as (k & Hp & Hk & Hempty).
    exists (n + k)%nat. cbn [played]. rewrite Hr, Hp, Nat2Z.id.
    assert (Hlen : length (cyclic d i n) = n)
      by (unfold cyclic; rewrite length_map, length_seq; reflexivity).
    rewrite take_app_length' by (symmetry; exact Hlen).
    rewrite cyclic_app, Hcyc. split; [reflexivity|].
    split; [cbn [concat]; rewrite length_app; lia|].
    intros Hd. rewrite (Hempty Hd). subst d. simpl in Hi.
    assert (n = 0%nat) by (apply Hzero; right; simpl; lia). lia.
Qed.

(** X10. A [loopReader] over [bytes.NewReader(d)], read with buffers of
    any lengths: no call returns an error, [io.EOF] included, and the
    bytes delivered, call after call, are a prefix of the endless
    repetition of [d] (byte j is d[j mod len(d)]).  With an empty [d] no
    byte is ever delivered, still without an error. *)
Theorem loop_reader_cycles (d : list Z) (bufs : list (list Z)) :
  exists k,
    played (NewReader d) bufs = (cyclic d 0 k, false) /\
    (k <= length (concat bufs))%nat /\ (d = [] -> k = 0%nat).
Proof. apply (played_cyclic d bufs 0). lia. Qed.

(** X11. A [loopReader] over a non-empty slice, with the read index
    anywhere from 0 to its length: of two successive calls with non-empty
    buffers at least one delivers bytes, and neither returns an error; a
    call returns no bytes exactly at the end of the slice, where it moves
    the index back to the start. *)
Theorem loop_reader_progress (d p q : list Z) (i : nat) :
  d <> [] -> p <> [] -> q <> [] -> (i <= length d)%nat ->
  exists r1 p1 n1 r2 q2 n2,
    loopRead (mkReader d (Z.of_nat i)) p = (r1, p1, n1, None) /\
    loopRead r1 q = (r2, q2, n2, None) /\
    1 <= n1 + n2 /\
    (n1 = 0 <-> i = length d) /\
    (i = length d -> index r1 = 0).
Proof.
  intros Hd Hp Hq Hi.
  destruct (loopRead_bytes d i p Hi) as (n & i' & Hr & Hn & Hi' & _ & Hzero & Hwrap).
  destruct (loopRead_bytes d i' q Hi') as (n' & i'' & Hr' & _ & _ & _ & Hzero' & _).
  do 6 eexists. split; [exact Hr|]. split; [exact Hr'|].
  assert (Hlen : (0 < length d)%nat) by (destruct d; [contradiction | simpl; lia]).
  split; [|split].
  - destruct (Nat.eq_dec n 0%nat) as [En|En]; [|lia].
    apply Hzero in En as [En|En]; [contradiction|].
    specialize (Hwrap En). subst i'.
    destruct (Nat.eq_dec n' 0%nat) as [En'|En']; [|lia].
    apply Hzero' in En' as [En'|En']; [contradiction | lia].
  - split.
    + intros H0. assert (En : n = 0%nat) by lia.
      apply Hzero in En as [En|En]; [contradiction | exact En].
    + intros Ei. assert (n = 0%nat) by (apply Hzero; right; exact Ei). lia.
  - intros Ei. cbn [index]. rewrite (Hwrap Ei). reflexivity.
Qed.

Lemma loop_reader_progress_witness :
  exists r1 p1 n1 r2 q2 n2,
    loopRead (mkReader [10; 20; 30] (Z.of_nat 3)) [0; 0] = (r1, p1, n1, None) /\
    loopRead r1 [0; 0] = (r2, q2, n2, None) /\
    1 <= n1 + n2 /\
    (n1 = 0 <-> 3%nat = length [10; 20; 30]) /\
    (3%nat = length [10; 20; 30] -> index r1 = 0).
Proof.
  apply (loop_reader_progress [10; 20; 30] [0; 0] [0; 0] 3);
    try discriminate; simpl; lia.
Defined.

End LoopReader.

(** * Further facts about Part III *)

Section Editor.

(** The text [MarshalIndent] writes decodes to the record it was written
    from, whatever the record it is decoded into held before. *)
Lemma Unmarshal_MarshalIndent (st base : TimerSettings) :
  representable st -> Unmarshal (MarshalIndent st) base = (st, None).
Proof.
  intros (Hp & Hs & Hl). unfold Unmarshal. rewrite parse_MarshalIndent.
  unfold decodeObject. cbn [fold_left]. unfold storeMember. cbn [fst snd].
  rewrite !lookupField_fieldName. unfold storeField.
  rewrite (parseInt64_itoa _ Hp). cbn [setIntField fst snd ShortBreakDuration
    LongBreakDuration PomodoroDuration EnableClockSound].
  rewrite (parseInt64_itoa _ Hs). cbn [setIntField fst snd ShortBreakDuration
    LongBreakDuration PomodoroDuration EnableClockSound].
  rewrite (parseInt64_itoa _ Hl). cbn [setIntField fst snd ShortBreakDuration
    LongBreakDuration PomodoroDuration EnableClockSound orb].
  destruct st; reflexivity.
Qed.

(** One member that names a field and has neither its type nor the value
    null sets the error flag of the decoder for good. *)
Lemma fold_storeMember_sticky members : forall acc,
  snd acc = true -> snd (fold_left storeMember members acc) = true.
Proof.
  induction members as [|m rest IH]; intros acc Hacc; [exact Hacc|].
  simpl. apply IH. unfold storeMember. destruct (lookupField (fst m)); [|exact Hacc].
  destruct (storeField f (snd m) (fst acc)) as [st' e]. simpl. rewrite Hacc. reflexivity.
Qed.

Lemma storeField_ill_typed f v st :
  v <> JNull -> decodeValue f v = None -> storeField f v st = (st, true).
Proof.
  intros Hv Hd. unfold storeField, decodeValue in *.
  destruct v as [|b|lit|t|items|members]; [contradiction| | | | |];
    destruct f; try reflexivity; try discriminate Hd.
  all: destruct (parseInt64 lit); [discriminate Hd | reflexivity].
Qed.

Lemma decodeObject_ill_typed members k v f st :
  In (k, v) members -> lookupField k = Some f ->
  v <> JNull -> decodeValue f v = None ->
  snd (decodeObject members st) = true.
Proof.
  intros Hin Hk Hv Hd. unfold decodeObject.
  apply in_split in Hin as (before & after & ->).
  rewrite fold_left_app. cbn [fold_left]. apply fold_storeMember_sticky.
  unfold storeMember. cbn [fst snd]. rewrite Hk.
  rewrite (storeField_ill_typed f v _ Hv Hd). simpl. apply orb_true_r.
Qed.

(** X12. When the temporary file, after the editor command has returned,
    holds the text [MarshalIndent] writes for a record [st2] with
    durations in the range of [int] (for [st2 = st]: the file was left as
    written), [openSettingsEditor] sets [settings] to [st2], writes that
    text to the settings file and prints nothing, whatever the settings
    and the file were before. *)
Theorem editor_round_trip (st st2 : TimerSettings) (file : File) (after : string -> File) :
  representable st2 ->
  after (MarshalIndent st) = Some (MarshalIndent st2) ->
  openSettingsEditor (EditorDone after) Written st file =
    (st2, Some (MarshalIndent st2), []).
Proof.
  intros Hr Ha. unfold openSettingsEditor. rewrite Ha.
  rewrite (Unmarshal_MarshalIndent st2 zeroSettings Hr). reflexivity.
Qed.

Lemma editor_round_trip_witness :
  openSettingsEditor (EditorDone (fun _ => Some (MarshalIndent (mkSettings 50 10 30 false))))
    Written defaultSettings None =
  (mkSettings 50 10 30 false, Some (MarshalIndent (mkSettings 50 10 30 false)), []).
Proof.
  apply (editor_round_trip defaultSettings (mkSettings 50 10 30 false) None
           (fun _ => Some (MarshalIndent (mkSettings 50 10 30 false)))).
  - unfold representable, minInt64, maxInt64. simpl. lia.
  - reflexivity.
Defined.

(** X13. An edit is taken as a whole or not at all.  When the edited text
    is not valid JSON, or is a JSON object in which one member names a
    settings field and holds a value that is neither null nor of the
    field's type, [openSettingsEditor] leaves [settings] and the settings
    file as they were and prints "Invalid JSON format", whatever the other
    members say.  ([loadSettings] keeps the members that fit from such an
    object.) *)
Theorem editor_rejects_whole_edit (st : TimerSettings) (file : File) (w : WriteOutcome)
    (after : string -> File) (updated : string) :
  after (MarshalIndent st) = Some updated ->
  (parse updated = None \/
   exists members k v f,
     parse updated = Some (JObject members) /\ In (k, v) members /\
     lookupField k = Some f /\ v <> JNull /\ decodeValue f v = None) ->
  openSettingsEditor (EditorDone after) w st file = (st, file, [InvalidJSONFormat]).
Proof.
  intros Ha Hbad. unfold openSettingsEditor. rewrite Ha. unfold Unmarshal.
  destruct Hbad as [-> | (members & k & v & f & -> & Hin & Hk & Hv & Hd)];
    [reflexivity|].
  pose proof (decodeObject_ill_typed members k v f zeroSettings Hin Hk Hv Hd) as He.
  destruct (decodeObject members zeroSettings) as [st' e]. simpl in He. subst e.
  reflexivity.
Qed.

Lemma editor_rejects_whole_edit_witness :
  openSettingsEditor (EditorDone (fun _ => Some mixedFile)) Written defaultSettings None =
    (defaultSettings, None, [InvalidJSONFormat]).
Proof.
  apply (editor_rejects_whole_edit defaultSettings None Written
           (fun _ => Some mixedFile) mixedFile eq_refl).
  right. exists [("pomodoro_duration", JNumber "50"); ("short_break_duration", JString "five")],
    "short_break_duration", (JString "five"), FShortBreak.
  split; [vm_compute; reflexivity|]. split; [right; left; reflexivity|].
  split; [vm_compute; reflexivity|]. split; [discriminate | reflexivity].
Defined.

(** X14. When the edited text is a JSON object in which every member that
    names a settings field is null or has the field's type,
    [openSettingsEditor] with a write that succeeds prints nothing, saves
    the new settings, and takes every field from the text alone: a field
    with a typed member gets the value of the last such member, and a
    field that no member names (or only null members) becomes 0 or false,
    not its previous value and not its default. *)
Theorem editor_takes_fields_from_text (st : TimerSettings) (file : File)
    (after : string -> File) (updated : string) (members : list (string * json)) :
  after (MarshalIndent st) = Some updated ->
  parse updated = Some (JObject members) ->
  (forall k v f, In (k, v) members -> lookupField k = Some f ->
     v = JNull \/ decodeValue f v <> None) ->
  exists st',
    openSettingsEditor (EditorDone after) Written st file =
      (st', Some (MarshalIndent st'), []) /\
    forall f,
      ((forall k v, In (k, v) members -> lookupField k = Some f -> v = JNull) ->
       getField f st' = getField f zeroSettings) /\
      (forall before k v rest x,
         members = before ++ (k, v) :: rest ->
         lookupField k = Some f -> decodeValue f v = Some x ->
         (forall k' v', In (k', v') rest -> lookupField k' = Some f -> v' = JNull) ->
         getField f st' = x).
Proof.
  intros Ha Hp Hwt. unfold openSettingsEditor. rewrite Ha. unfold Unmarshal. rewrite Hp.
  pose proof (fold_storeMember_flag members (zeroSettings, false) Hwt) as He.
  unfold decodeObject.
  destruct (fold_left storeMember members (zeroSettings, false)) as [st' e] eqn:Ed.
  simpl in He. subst e. exists st'. split; [reflexivity|].
  intros f. split.
  - intros Hno.
    pose proof (fold_storeMember_keeps f members (zeroSettings, false) Hno) as Hk.
    rewrite Ed in Hk. exact Hk.
  - intros before k v rest x -> Ek Edv Hrest.
    rewrite fold_left_app in Ed. cbn [fold_left] in Ed.
    pose proof (fold_storeMember_keeps f rest
                  (storeMember (fold_left storeMember before (zeroSettings, false)) (k, v))
                  Hrest) as Hk.
    rewrite Ed in Hk. cbn [fst] in Hk. rewrite Hk.
    unfold storeMember. cbn [fst snd]. rewrite Ek.
    destruct (storeField_decoded f v
                (fst (fold_left storeMember before (zeroSettings, false))) x Edv)
      as [Hx _].
    destruct (storeField f v _) as [st'' e]. exact Hx.
Qed.

Lemma editor_takes_fields_from_text_witness :
  exists st',
    openSettingsEditor (EditorDone (fun _ => Some trimmedFile)) Written
      (mkSettings 25 5 15 true) None =
      (st', Some (MarshalIndent st'), []) /\
    getField FPomodoro st' = VInt 50 /\
    getField FShortBreak st' = VInt 0 /\
    getField FLongBreak st' = VInt 0.
Proof.
  destruct (editor_takes_fields_from_text (mkSettings 25 5 15 true) None
              (fun _ => Some trimmedFile) trimmedFile
              [("pomodoro_duration", JNumber "50"); ("enable_clock_sound", JBool true)])
    as (st' & Hrun & Hf).
  - reflexivity.
  - vm_compute. reflexivity.
  - intros k v f [E|[E|[]]] Hk; injection E as <- <-;
      vm_compute in Hk; injection Hk as <-; right; vm_compute; discriminate.
  - exists st'. split; [exact Hrun|]. split; [|split].
    + apply (proj2 (Hf FPomodoro) [] "pomodoro_duration" (JNumber "50")
                   [("enable_clock_sound", JBool true)] (VInt 50)).
      * reflexivity.
      * vm_compute. reflexivity.
      * vm_compute. reflexivity.
      * intros k' v' [E|[]] Hk. injection E as <- <-. vm_compute in Hk. discriminate Hk.
    + apply (proj1 (Hf FShortBreak)).
      intros k v [E|[E|[]]] Hk; injection E as <- <-; vm_compute in Hk; discriminate Hk.
    + apply (proj1 (Hf FLongBreak)).
      intros k v [E|[E|[]]] Hk; injection E as <- <-; vm_compute in Hk; discriminate Hk.
Defined.

(** X15. The "Clock sound" checkbox, for settings with durations in the
    range of [int] and a write that succeeds: a click flips
    [EnableClockSound] and nothing else, checks the box exactly when the
    sound is now enabled, and saves a file from which [loadSettings]
    restores the flipped settings; a second click restores the settings
    and the very text of the file that [saveSettings] writes for them. *)
Theorem toggle_persists (st : TimerSettings) :
  representable st ->
  let '(st1, (file1, failed1), checked1) := toggleClockSound Written st in
  let '(st2, (file2, failed2), checked2) := toggleClockSound Written st1 in
  EnableClockSound st1 = negb (EnableClockSound st) /\
  checked1 = EnableClockSound st1 /\
  (forall f, f <> FSound -> getField f st1 = getField f st) /\
  failed1 = false /\ loadSettings file1 = (st1, false) /\
  st2 = st /\ file2 = fst (saveSettings st Written) /\ loadSettings file2 = (st, false).
Proof.
  intros Hr. unfold toggleClockSound. cbn [saveSettings].
  cbn [PomodoroDuration ShortBreakDuration LongBreakDuration EnableClockSound].
  rewrite negb_involutive.
  assert (Hr1 : representable (mkSettings (PomodoroDuration st) (ShortBreakDuration st)
                                 (LongBreakDuration st) (negb (EnableClockSound st))))
    by exact Hr.
  assert (Est : mkSettings (PomodoroDuration st) (ShortBreakDuration st)
                  (LongBreakDuration st) (EnableClockSound st) = st)
    by (destruct st; reflexivity).
  rewrite Est.
  assert (Hload : forall s, representable s -> loadSettings (Some (MarshalIndent s)) = (s, false)).
  { intros s Hs. unfold loadSettings. rewrite (Unmarshal_MarshalIndent s _ Hs). reflexivity. }
  split; [reflexivity|]. split; [reflexivity|].
  split; [intros f Hf; destruct f; try reflexivity; contradiction|].
  split; [reflexivity|]. split; [apply Hload; exact Hr1|].
  split; [reflexivity|]. split; [reflexivity | apply Hload; exact Hr].
Qed.

Lemma toggle_persists_witness :
  let '(st1, (file1, failed1), checked1) := toggleClockSound Written defaultSettings in
  let '(st2, (file2, failed2), checked2) := toggleClockSound Written st1 in
  EnableClockSound st1 = negb (EnableClockSound defaultSettings) /\
  checked1 = EnableClockSound st1 /\
  (forall f, f <> FSound -> getField f st1 = getField f defaultSettings) /\
  failed1 = false /\ loadSettings file1 = (st1, false) /\
  st2 = defaultSettings /\ file2 = fst (saveSettings defaultSettings Written) /\
  loadSettings file2 = (defaultSettings, false).
Proof.
  apply (toggle_persists defaultSettings).
  unfold representable, minInt64, maxInt64. simpl. lia.
Defined.

End Editor.

Section DegenerateSessions.

(** What a menu start leaves behind for any number of minutes whose
    duration fits, positive or not. *)
Lemma start_spawns_any (s : State) (D : Z) (b : bool) :
  Reachable s -> - maxMinutes <= D <= maxMinutes ->
  exists s1,
    run (Start D b) s =
      Next s1 (if b && EnableClockSound (settings s) then [PlayClockSound] else []) /\
    procs s1 = procs s ++ [AtLoop] /\ remainingTime s1 = D * Minute /\
    isInPomodoro s1 = b /\ pomodoroCount s1 = pomodoroCount s /\
    isRunning s1 = true /\ settings s1 = settings s.
Proof.
  intros HR [HD0 HD1]. destruct (Reachable_Inv s HR) as [Hch Hc].
  assert (Hmin : minutes D = D * Minute).
  { unfold minutes. apply wrap64_id.
    unfold minInt64, maxInt64, maxMinutes, Minute, Second in *. lia. }
  unfold Start, run, step, handleTimerClick. simpl isRunning. rewrite Hmin.
  destruct (isRunning s).
  - destruct (stopSignal_some (setKind b s) Hch)
      as (s0 & -> & Hc0 & _ & Hk0 & _ & Hs0 & Hp0 & _ & Hch0 & _).
    simpl. eexists. rewrite Hk0, Hs0. simpl. rewrite app_nil_r.
    split; [reflexivity|]. simpl. rewrite Hp0, Hc0.
    repeat split; reflexivity.
  - simpl. eexists. rewrite app_nil_r. split; [reflexivity|].
    repeat split; reflexivity.
Qed.

End DegenerateSessions.

(** * Facts about Part V *)

Section Icon.

Lemma byteAt_insert_eq (img : list Z) i v :
  (i < length img)%nat -> byteAt (<[i := v]> img) i = v.
Proof. intros H. unfold byteAt. rewrite list_lookup_insert_eq by exact H. reflexivity. Qed.

Lemma byteAt_insert_ne (img : list Z) i j v :
  i <> j -> byteAt (<[j := v]> img) i = byteAt img i.
Proof. intros H. unfold byteAt. rewrite list_lookup_insert_ne by congruence. reflexivity. Qed.

Lemma byteAt_set4 (img : list Z) o n a b c d :
  (n < o \/ o + 3 < n)%nat ->
  byteAt (<[(o + 3)%nat := d]> (<[(o + 2)%nat := c]> (<[(o + 1)%nat := b]> (<[o := a]> img)))) n =
  byteAt img n.
Proof. intros H. rewrite !byteAt_insert_ne by lia. reflexivity. Qed.

Lemma imgSet_length img x y c : length (imgSet img x y c) = length img.
Proof. unfold imgSet. destruct (inBounds x y); [|reflexivity]. rewrite !length_insert. reflexivity. Qed.

Lemma inBounds_spec x y : inBounds x y = true <-> 0 <= x < 64 /\ 0 <= y < 64.
Proof. unfold inBounds. rewrite !andb_true_iff, !Z.leb_le, !Z.ltb_lt. lia. Qed.

(** Reading a pixel after a [Set]. *)
Lemma RGBAAt_imgSet img x y c px py :
  length img = pixLength -> inBounds px py = true ->
  RGBAAt (imgSet img x y c) px py =
  if (x =? px) && (y =? py) then c else RGBAAt img px py.
Proof.
  intros Hlen Hin. unfold RGBAAt, imgSet. rewrite Hin.
  pose proof (proj1 (inBounds_spec px py) Hin) as [Hx Hy].
  destruct (inBounds x y) eqn:Exy.
  - pose proof (proj1 (inBounds_spec x y) Exy) as [Hx' Hy'].
    destruct (Z.eqb_spec x px) as [->|Nx]; [destruct (Z.eqb_spec y py) as [->|Ny]|]; cbn [andb].
    + set (i := PixOffset px py).
      assert (Hi : (i + 3 < length img)%nat) by (rewrite Hlen; unfold i, PixOffset, pixLength; lia).
      rewrite (byteAt_insert_ne _ i), (byteAt_insert_ne _ i), (byteAt_insert_ne _ i) by lia.
      rewrite (byteAt_insert_eq _ i) by lia.
      rewrite (byteAt_insert_ne _ (i + 1)), (byteAt_insert_ne _ (i + 1)) by lia.
      rewrite (byteAt_insert_eq _ (i + 1)) by (rewrite length_insert; lia).
      rewrite (byteAt_insert_ne _ (i + 2)) by lia.
      rewrite (byteAt_insert_eq _ (i + 2)) by (rewrite !length_insert; lia).
      rewrite (byteAt_insert_eq _ (i + 3)) by (rewrite !length_insert; lia).
      destruct c; reflexivity.
    + rewrite !byteAt_set4 by (unfold PixOffset; lia). reflexivity.
    + rewrite !byteAt_set4 by (unfold PixOffset; lia). reflexivity.
  - destruct ((x =? px) && (y =? py)) eqn:E; [|reflexivity].
    apply andb_true_iff in E as [E1 E2]. apply Z.eqb_eq in E1, E2. subst.
    congruence.
Qed.

Lemma paint_length col pts : forall img, length (paint col pts img) = length img.
Proof.
  unfold paint. induction pts as [|p pts IH]; intros img; [reflexivity|].
  cbn [fold_left]. rewrite IH, imgSet_length. reflexivity.
Qed.

(** A pixel after a run of [Set]s with one colour: the colour if the
    pixel is among the points, what it was otherwise. *)
Lemma RGBAAt_paint col pts px py : forall img,
  length img = pixLength -> inBounds px py = true ->
  RGBAAt (paint col pts img) px py =
  if existsb (fun p => (fst p =? px) && (snd p =? py)) pts then col
  else RGBAAt img px py.
Proof.
  unfold paint. induction pts as [|p pts IH]; intros img Hlen Hin; [reflexivity|].
  cbn [fold_left existsb]. rewrite IH by (rewrite ?imgSet_length; assumption).
  rewrite RGBAAt_imgSet by assumption.
  destruct ((fst p =? px) && (snd p =? py)); cbn [orb];
    destruct (existsb _ pts); reflexivity.
Qed.

Lemma existsb_point pts px py :
  existsb (fun p : Z * Z => (fst p =? px) && (snd p =? py)) pts = true <-> In (px, py) pts.
Proof.
  rewrite existsb_exists. split.
  - intros ([a b] & Hin & E). apply andb_true_iff in E as [E1 E2].
    apply Z.eqb_eq in E1, E2. simpl in E1, E2. subst. exact Hin.
  - intros Hin. exists (px, py). split; [exact Hin|]. simpl. rewrite !Z.eqb_refl. reflexivity.
Qed.

Lemma fold_left_flat_map {A B C} (f : A -> B -> A) (g : C -> list B) l : forall a,
  fold_left f (flat_map g l) a = fold_left (fun acc x => fold_left f (g x) acc) l a.
Proof.
  induction l as [|x l IH]; intros a; [reflexivity|].
  cbn [flat_map fold_left]. rewrite fold_left_app. apply IH.
Qed.

Lemma fold_left_pointwise {A B} (f g : A -> B -> A) l :
  (forall a b, f a b = g a b) -> forall a, fold_left f l a = fold_left g l a.
Proof.
  intros H. induction l as [|x l IH]; intros a; [reflexivity|].
  cbn [fold_left]. rewrite H. apply IH.
Qed.

Lemma drawCircle_paint img x y radius col :
  drawCircle img x y radius col = paint col (circlePoints x y radius) img.
Proof.
  unfold drawCircle, paint, circlePoints. rewrite fold_left_flat_map.
  apply fold_left_pointwise. intros acc i. rewrite fold_left_flat_map.
  apply fold_left_pointwise. intros acc' j.
  destruct (i * i + j * j <=? radius * radius); reflexivity.
Qed.

Lemma drawDots_paint img dotCount :
  drawDots img dotCount =
  paint dotColor (flat_map (fun i => circlePoints (5 + i * 17) 56 6) (span 0 (dotCount - 1))) img.
Proof.
  unfold drawDots, paint. rewrite fold_left_flat_map.
  apply fold_left_pointwise. intros acc i. apply drawCircle_paint.
Qed.

Lemma In_span lo hi v : In v (span lo hi) <-> lo <= v <= hi.
Proof.
  unfold span. rewrite in_map_iff. split.
  - intros (k & <- & Hk). apply in_seq in Hk. lia.
  - intros H. exists (Z.to_nat (v - lo)). split; [lia|]. apply in_seq. lia.
Qed.

Lemma square_bound a b r : 0 <= r -> a * a + b * b <= r * r -> - r <= a <= r.
Proof.
  intros Hr H. assert (Hb : 0 <= b * b) by nia.
  split; apply Z.nlt_ge; intros Hlt; nia.
Qed.

Lemma In_circlePoints x y radius px py :
  0 <= radius ->
  In (px, py) (circlePoints x y radius) <->
  (px - x) * (px - x) + (py - y) * (py - y) <= radius * radius.
Proof.
  intros Hr. unfold circlePoints. rewrite in_flat_map. split.
  - intros (i & Hi & Hin). apply in_flat_map in Hin as (j & Hj & Hin).
    destruct (Z.leb_spec (i * i + j * j) (radius * radius)) as [Hle|Hgt]; [|destruct Hin].
    destruct Hin as [E|[]]. injection E as <- <-.
    replace (x + i - x) with i by lia. replace (y + j - y) with j by lia. exact Hle.
  - intros Hle. exists (px - x).
    split; [apply In_span; apply (square_bound _ (py - y)); assumption|].
    apply in_flat_map. exists (py - y).
    split; [apply In_span; apply (square_bound _ (px - x)); [assumption | lia]|].
    destruct (Z.leb_spec ((px - x) * (px - x) + (py - y) * (py - y)) (radius * radius));
      [left; f_equal; lia | lia].
Qed.

Lemma In_dots n px py :
  In (px, py) (flat_map (fun i => circlePoints (5 + i * 17) 56 6) (span 0 (n - 1))) <->
  exists i, 0 <= i < n /\ inDot i px py.
Proof.
  rewrite in_flat_map. unfold inDot. split.
  - intros (i & Hi & Hin). apply In_span in Hi.
    apply In_circlePoints in Hin; [|lia]. exists i. split; [lia|].
    replace (5 + 17 * i) with (5 + i * 17) by lia. exact Hin.
  - intros (i & Hi & Hin). exists i. split; [apply In_span; lia|].
    apply In_circlePoints; [lia|].
    replace (5 + i * 17) with (5 + 17 * i) by lia. exact Hin.
Qed.

(** X17. The dots of the tray icon.  On an image of 64 by 64 pixels, the
    dot loop of [generateIconWithDots] with any [dotCount] (small enough
    for its arithmetic) keeps the pixel buffer at its length and never
    writes outside it; a pixel of the image is light green afterwards if
    it lies within distance 6 of one of the centres (5 + 17*i, 56) with
    0 <= i < dotCount, and is what it was otherwise.  With
    [dotCount <= 0] the image is unchanged. *)
Theorem dots_pixels (img : list Z) (dotCount px py : Z) :
  length img = pixLength -> 17 * dotCount + 11 <= maxInt64 ->
  0 <= px < 64 -> 0 <= py < 64 ->
  length (drawDots img dotCount) = pixLength /\
  ((exists i, 0 <= i < dotCount /\ inDot i px py) ->
     RGBAAt (drawDots img dotCount) px py = dotColor) /\
  ((forall i, 0 <= i < dotCount -> ~ inDot i px py) ->
     RGBAAt (drawDots img dotCount) px py = RGBAAt img px py) /\
  (dotCount <= 0 -> drawDots img dotCount = img).
Proof.
  intros Hlen _ Hx Hy.
  assert (Hin : inBounds px py = true) by (apply inBounds_spec; lia).
  rewrite drawDots_paint. split; [rewrite paint_length; exact Hlen|].
  rewrite (RGBAAt_paint _ _ _ _ _ Hlen Hin).
  split; [|split].
  - intros Hex. apply In_dots, existsb_point in Hex. rewrite Hex. reflexivity.
  - intros Hno.
    destruct (existsb _ _) eqn:E; [|reflexivity].
    apply existsb_point, In_dots in E as (i & Hi & Hd). destruct (Hno i Hi Hd).
  - intros Hn. unfold span. replace (Z.to_nat (dotCount - 1 - 0 + 1)) with 0%nat by lia.
    reflexivity.
Qed.

Lemma dots_pixels_witness :
  length (drawDots NewRGBA 2) = pixLength /\
  ((exists i, 0 <= i < 2 /\ inDot i 22 50) -> RGBAAt (drawDots NewRGBA 2) 22 50 = dotColor) /\
  ((forall i, 0 <= i < 2 -> ~ inDot i 22 50) ->
     RGBAAt (drawDots NewRGBA 2) 22 50 = RGBAAt NewRGBA 22 50) /\
  (2 <= 0 -> drawDots NewRGBA 2 = NewRGBA).
Proof.
  apply (dots_pixels NewRGBA 2 22 50).
  - apply repeat_length.
  - unfold maxInt64. lia.
  - lia.
  - lia.
Defined.

(** X18. Which dots fit the icon.  A point of the disc of dot number i
    (i >= 0) falls outside the 64 by 64 image, where [Set] skips it,
    exactly when i = 0 and the point is (-1, 56), the leftmost point of
    the first dot, or i >= 4: the dots 0 to 3 of a count within [0,4] are
    drawn whole but for that one pixel, a fifth dot would not show at
    all.  Discs of different dots share no point. *)
Theorem dot_clipping (i i' px py : Z) :
  0 <= i -> inDot i px py ->
  (inBounds px py = false <-> (i = 0 /\ px = -1 /\ py = 56) \/ 4 <= i) /\
  (inDot i' px py -> i' = i).
Proof.
  unfold inDot. intros Hi Hd.
  assert (Hpx : -6 <= px - (5 + 17 * i) <= 6)
    by (apply (square_bound _ (py - 56) 6); lia).
  assert (Hpy : -6 <= py - 56 <= 6)
    by (apply (square_bound _ (px - (5 + 17 * i)) 6); lia).
  split.
  - split.
    + intros Hout.
      assert (Hno : ~ (0 <= px < 64 /\ 0 <= py < 64))
        by (intros H; apply inBounds_spec in H; congruence).
      destruct (Z_lt_le_dec i 4) as [Hlt|Hge]; [left | right; exact Hge].
      assert (i = 0 /\ px = -1) as [-> ->] by lia.
      split; [reflexivity|]. split; [reflexivity|]. nia.
    + intros H. destruct (inBounds px py) eqn:E; [|reflexivity].
      apply inBounds_spec in E. lia.
  - intros Hd'.
    assert (Hpx' : -6 <= px - (5 + 17 * i') <= 6)
      by (apply (square_bound _ (py - 56) 6); lia).
    lia.
Qed.

Lemma dot_clipping_witness :
  (inBounds (-1) 56 = false <-> (0 = 0 /\ -1 = -1 /\ 56 = 56) \/ 4 <= 0) /\
  (inDot 1 (-1) 56 -> 1 = 0).
Proof.
  apply (dot_clipping 0 1 (-1) 56).
  - lia.
  - unfold inDot. lia.
Defined.

(** X19. The base image of [initResources]: the two loops set each of the
    64 by 64 pixels, and every pixel of the image reads back as the dark
    red (139, 0, 0, 255); the pixel buffer keeps its 16384 bytes. *)
Theorem base_image_is_dark_red (px py : Z) :
  0 <= px < 64 -> 0 <= py < 64 ->
  RGBAAt baseImage px py = darkRed /\ length baseImage = pixLength.
Proof.
  intros Hx Hy.
  assert (Hin : inBounds px py = true) by (apply inBounds_spec; lia).
  assert (E : baseImage =
              paint darkRed
                (flat_map (fun y => flat_map (fun x => [(x, y)]) (span 0 63)) (span 0 63))
                NewRGBA).
  { unfold baseImage, paint. rewrite fold_left_flat_map.
    apply fold_left_pointwise. intros acc y. rewrite fold_left_flat_map.
    apply fold_left_pointwise. intros acc' x. reflexivity. }
  rewrite E. split; [|rewrite paint_length; apply repeat_length].
  rewrite RGBAAt_paint by (try apply repeat_length; exact Hin).
  replace (existsb _ _) with true; [reflexivity|].
  symmetry. apply existsb_point. apply in_flat_map. exists py.
  split; [apply In_span; lia|]. apply in_flat_map. exists px.
  split; [apply In_span; lia | left; reflexivity].
Qed.

Lemma base_image_is_dark_red_witness :
  RGBAAt baseImage 63 0 = darkRed /\ length baseImage = pixLength.
Proof. apply (base_image_is_dark_red 63 0); lia. Defined.

End Icon.

(** * Facts about Part VI *)

Section AutoStart.

(** X20. On Windows, when the executable path is known, the key opens
    and reads succeed: after [setAutoStart(true)] returns nil,
    [isAutoStartEnabled] is true; after [setAutoStart(false)] returns nil
    it is false; [setAutoStart(false)] on a key without the value returns
    nil and leaves the key as it is; a call that returns an error leaves
    the key as it is; and no call changes a value under another name. *)
Theorem auto_start_round_trip (p : Platform) (exePath : string) (reg : Registry) (enable : bool) :
  windows p = true -> executable p = Some exePath ->
  openFails p = false -> readFails p = false ->
  (snd (setAutoStart p enable reg) = None ->
     isAutoStartEnabled p (fst (setAutoStart p enable reg)) = enable) /\
  (snd (setAutoStart p enable reg) <> None ->
     forall n, fst (setAutoStart p enable reg) n = reg n) /\
  (enable = false -> reg AUTO_START_NAME = None ->
     snd (setAutoStart p enable reg) = None /\
     forall n, fst (setAutoStart p enable reg) n = reg n) /\
  (forall n, n <> AUTO_START_NAME -> fst (setAutoStart p enable reg) n = reg n).
Proof.
  intros Hw He Ho Hr. unfold setAutoStart, isAutoStartEnabled.
  rewrite Hw, He, Ho, Hr. cbn [negb].
  destruct enable.
  - destruct (writeFails p); cbn [fst snd].
    + split; [discriminate|]. split; [reflexivity|]. split; [discriminate | reflexivity].
    + split.
      * intros _. unfold SetStringValue. rewrite String.eqb_refl. apply String.eqb_refl.
      * split; [intros H; contradiction|]. split; [discriminate|].
        intros n Hn. unfold SetStringValue.
        destruct (String.eqb_spec n AUTO_START_NAME); [contradiction | reflexivity].
  - destruct (reg AUTO_START_NAME) as [v|] eqn:Ev.
    + destruct (writeFails p); cbn [fst snd].
      * split; [discriminate|]. split; [reflexivity|]. split; [discriminate | reflexivity].
      * split.
        -- intros _. unfold DeleteValue. rewrite String.eqb_refl. reflexivity.
        -- split; [intros H; contradiction|]. split; [discriminate|].
           intros n Hn. unfold DeleteValue.
           destruct (String.eqb_spec n AUTO_START_NAME); [contradiction | reflexivity].
    + cbn [fst snd]. split; [intros _; rewrite Ev; reflexivity|].
      split; [reflexivity|]. split; [split; reflexivity | reflexivity].
Qed.

Lemma auto_start_round_trip_witness :
  isAutoStartEnabled (mkPlatform true (Some "C:\pomodoro.exe") false false false)
    (fst (setAutoStart (mkPlatform true (Some "C:\pomodoro.exe") false false false) true
            (fun _ => None))) = true.
Proof.
  apply (auto_start_round_trip (mkPlatform true (Some "C:\pomodoro.exe") false false false)
           "C:\pomodoro.exe" (fun _ : string => @None string) true);
    reflexivity.
Defined.

(** One click keeps the box in step with the registry. *)
Lemma autoStartClick_sync (p : Platform) (exePath : string)
    (reg : Registry) (checked : bool) :
  windows p = true -> executable p = Some exePath ->
  (checked = true <-> reg AUTO_START_NAME = Some exePath) ->
  (snd (autoStartClick p (reg, checked)) = true <->
   fst (autoStartClick p (reg, checked)) AUTO_START_NAME = Some exePath) /\
  (forall n, n <> AUTO_START_NAME -> fst (autoStartClick p (reg, checked)) n = reg n).
Proof.
  intros Hw He Hsync. unfold autoStartClick, setAutoStart. rewrite Hw, He. cbn [negb].
  destruct checked.
  - assert (Hv : reg AUTO_START_NAME = Some exePath) by (apply Hsync; reflexivity).
    destruct (openFails p); cbn [fst snd]; [split; [exact Hsync | reflexivity]|].
    rewrite Hv. destruct (writeFails p); cbn [fst snd]; [split; [exact Hsync | reflexivity]|].
    split.
    + unfold DeleteValue. rewrite String.eqb_refl. split; discriminate.
    + intros n Hn. unfold DeleteValue.
      destruct (String.eqb_spec n AUTO_START_NAME); [contradiction | reflexivity].
  - destruct (openFails p); cbn [fst snd]; [split; [exact Hsync | reflexivity]|].
    destruct (writeFails p); cbn [fst snd]; [split; [exact Hsync | reflexivity]|].
    split.
    + unfold SetStringValue. rewrite String.eqb_refl. split; reflexivity.
    + intros n Hn. unfold SetStringValue.
      destruct (String.eqb_spec n AUTO_START_NAME); [contradiction | reflexivity].
Qed.

(** X21. The "Start on System Startup" checkbox on Windows, with a known
    executable path that stays the same: if the box is checked exactly
    when the registry value holds that path (as after the start of the
    program, when [isAutoStartEnabled] could read the key), it is so
    again after any number of clicks, whichever of them fail to open the
    key or to write the value; a failed click changes neither the box nor
    the key, and no click touches a value under another name. *)
Theorem auto_start_checkbox_in_sync (exePath : string) (ps : list Platform) :
  forall (reg : Registry) (checked : bool),
  Forall (fun p => windows p = true /\ executable p = Some exePath) ps ->
  (checked = true <-> reg AUTO_START_NAME = Some exePath) ->
  (snd (autoStartClicks ps (reg, checked)) = true <->
   fst (autoStartClicks ps (reg, checked)) AUTO_START_NAME = Some exePath) /\
  (forall n, n <> AUTO_START_NAME -> fst (autoStartClicks ps (reg, checked)) n = reg n).
Proof.
  unfold autoStartClicks.
  induction ps as [|p ps IH]; intros reg checked Hps Hsync.
  - simpl. split; [exact Hsync | reflexivity].
  - apply Forall_cons_1 in Hps as [[Hw He] Hps]. cbn [fold_left].
    pose proof (autoStartClick_sync p exePath reg checked Hw He Hsync) as H1.
    destruct (autoStartClick p (reg, checked)) as [reg1 checked1].
    destruct H1 as [Hsync1 Hother1]. cbn [fst snd] in Hsync1, Hother1.
    destruct (IH reg1 checked1 Hps Hsync1) as [Hsync' Hother'].
    split; [exact Hsync'|].
    intros n Hn. rewrite Hother', Hother1 by exact Hn. reflexivity.
Qed.

Lemma auto_start_checkbox_in_sync_witness :
  (snd (autoStartClicks
          [mkPlatform true (Some "C:\pomodoro.exe") false false false;
           mkPlatform true (Some "C:\pomodoro.exe") false true false;
           mkPlatform true (Some "C:\pomodoro.exe") false false false]
          (fun _ => None, false)) = true <->
   fst (autoStartClicks
          [mkPlatform true (Some "C:\pomodoro.exe") false false false;
           mkPlatform true (Some "C:\pomodoro.exe") false true false;
           mkPlatform true (Some "C:\pomodoro.exe") false false false]
          (fun _ => None, false)) AUTO_START_NAME = Some "C:\pomodoro.exe") /\
  (forall n, n <> AUTO_START_NAME ->
     fst (autoStartClicks
            [mkPlatform true (Some "C:\pomodoro.exe") false false false;
             mkPlatform true (Some "C:\pomodoro.exe") false true false;
             mkPlatform true (Some "C:\pomodoro.exe") false false false]
            (fun _ => None, false)) n = None).
Proof.
  apply (auto_start_checkbox_in_sync "C:\pomodoro.exe"
           [mkPlatform true (Some "C:\pomodoro.exe") false false false;
            mkPlatform true (Some "C:\pomodoro.exe") false true false;
            mkPlatform true (Some "C:\pomodoro.exe") false false false]
           (fun _ : string => @None string) false).
  - repeat constructor.
  - split; discriminate.
Defined.

End AutoStart.

Section Mp3.

Lemma decodeLoop_prefix before : forall pcm chunk e rest,
  Forall (fun r => snd r = None) before ->
  decodeLoop (before ++ (chunk, Some e) :: rest) pcm =
  match e with
  | EOF => Decoded (pcm ++ concat (map fst before) ++ chunk)
  | Failure _ => DecodeFailed
  end.
Proof.
  induction before as [|[c err] before IH]; intros pcm chunk e rest Hb.
  - cbn [app decodeLoop map concat].
    assert (E : (if (0 <? length chunk)%nat then pcm ++ chunk else pcm) = pcm ++ chunk).
    { destruct chunk; [rewrite app_nil_r; reflexivity | reflexivity]. }
    rewrite E. destruct e; reflexivity.
  - apply Forall_cons_1 in Hb as [Herr Hb]. simpl in Herr. subst err.
    cbn [app decodeLoop map concat fst].
    assert (E : (if (0 <? length c)%nat then pcm ++ c else pcm) = pcm ++ c).
    { destruct c; [rewrite app_nil_r; reflexivity | reflexivity]. }
    rewrite E, IH by exact Hb. destruct e; [|reflexivity].
    rewrite <- !app_assoc. reflexivity.
Qed.

(** X22. The decoding loop of [initMp3Player], for a decoder whose reads
    return nil errors up to a first read with an error: if that error is
    [io.EOF], [clockSoundPCM] becomes the bytes of all reads up to and
    including the one that returned [io.EOF], in order; with any other
    error [clockSoundPCM] stays empty, whatever was decoded before, and
    the looping reader that [playClockSound] builds over it never
    delivers a byte and never returns an error.  Reads after the first
    error do not happen. *)
Theorem mp3_decode_loop (before : list (list Z * option error)) (chunk : list Z)
    (e : error) (rest : list (list Z * option error)) (bufs : list (list Z)) :
  Forall (fun r => snd r = None) before ->
  exists pcm,
    initMp3Player (Some (before ++ (chunk, Some e) :: rest)) = Some pcm /\
    pcm = match e with
          | EOF => concat (map fst before) ++ chunk
          | Failure _ => []
          end /\
    (e <> EOF -> played (NewReader pcm) bufs = ([], false)).
Proof.
  intros Hb. unfold initMp3Player. rewrite (decodeLoop_prefix before [] chunk e rest Hb).
  destruct e as [|msg].
  - eexists. split; [reflexivity|]. split; [reflexivity|]. intros H. contradiction.
  - exists []. split; [reflexivity|]. split; [reflexivity|]. intros _.
    destruct (played_cyclic [] bufs 0 (Nat.le_refl 0)) as (k & Hp & _ & Hk).
    rewrite (Hk eq_refl) in Hp. exact Hp.
Qed.

Lemma mp3_decode_loop_witness :
  exists pcm,
    initMp3Player (Some ([([1; 2], None); ([], None); ([3], None)] ++
                         ([4; 5], Some EOF) :: [([6], None)])) = Some pcm /\
    pcm = concat (map fst [([1; 2], None); ([], None); ([3], @None error)]) ++ [4; 5] /\
    (EOF <> EOF -> played (NewReader pcm) [[0; 0]; [0]] = ([], false)).
Proof.
  apply (mp3_decode_loop [([1; 2], None); ([], None); ([3], None)] [4; 5] EOF
           [([6], None)] [[0; 0]; [0]]).
  repeat constructor.
Defined.

End Mp3.

Section AmbientSound.

Lemma last_alive (cs : list Closer) st k x :
  Forall (fun c => c = CDone) cs -> (cs ++ [st]) !! k = Some x -> x <> CDone ->
  k = length cs /\ x = st.
Proof.
  intros Hcs Hk Hx. destruct (Nat.lt_ge_cases k (length cs)) as [Hlt|Hge].
  - rewrite lookup_app_l in Hk by exact Hlt.
    pose proof (Forall_lookup_1 _ _ _ _ Hcs Hk) as Hd. contradiction.
  - rewrite lookup_app_r in Hk by exact Hge.
    destruct (k - length cs)%nat as [|m] eqn:E; [|destruct m; discriminate Hk].
    injection Hk as <-. split; [lia | reflexivity].
Qed.

Lemma insert_last {A} (l : list A) (x y : A) : <[length l := y]> (l ++ [x]) = l ++ [y].
Proof.
  rewrite insert_app_r_alt by lia. rewrite Nat.sub_diag. reflexivity.
Qed.

Lemma ClockInv_init sound ctx : ClockInv (initClock sound ctx).
Proof. split; constructor. Qed.

Lemma clockStep_Inv a s s' : ClockInv s -> clockStep a s = CNext s' -> ClockInv s'.
Proof.
  intros HI Hs. unfold ClockInv in *.
  destruct (clockPlayer s) as [pl|] eqn:Epl.
  - destruct HI as (ps & b & cs & st & c & Hps & Hpl & Hfalse & Hcs & Hdone & Hch & Hsome & Hst).
    destruct a as [| |k|k|k|e]; cbn [clockStep] in Hs.
    + rewrite Epl in Hs.
      destruct (negb (enabled s)); [|destruct (negb (hasContext s))];
        injection Hs as <-; rewrite Epl; exists ps, b, cs, st, c; repeat split; assumption.
    + rewrite Epl, Hch in Hs.
      destruct (clockChans s !! c) as [[|]|] eqn:Ec; try discriminate Hs.
      injection Hs as <-. cbn. rewrite ?Epl.
      exists ps, b, cs, st, c.
      assert (Hc : (c < length (clockChans s))%nat) by (eapply lookup_lt_Some; exact Ec).
      repeat split; try assumption.
      * rewrite list_lookup_insert_eq by exact Hc. eexists; reflexivity.
      * destruct st; try assumption; destruct Hst as [Hb Hclosed]; congruence.
    + destruct (closers s !! k) as [x|] eqn:Ek; [|discriminate Hs].
      destruct x; try discriminate Hs.
      rewrite Hcs in Ek. destruct (last_alive cs st k CWaiting Hdone Ek ltac:(discriminate))
        as [-> <-].
      rewrite Hch in Hs. destruct (clockChans s !! c) as [[|]|] eqn:Ec; try discriminate Hs.
      injection Hs as <-. cbn. rewrite ?Epl, Hcs, insert_last.
      exists ps, b, cs, CWoken, c. repeat split; try assumption.
      eexists; exact Ec.
    + destruct (closers s !! k) as [x|] eqn:Ek; [|discriminate Hs].
      destruct x; try discriminate Hs.
      rewrite Hcs in Ek. destruct (last_alive cs st k CWoken Hdone Ek ltac:(discriminate))
        as [-> <-].
      rewrite Epl in Hs. injection Hs as <-. cbn. rewrite ?Epl, Hcs, Hps, Hpl, !insert_last.
      destruct Hst as [_ Hclosed].
      exists ps, false, cs, CClosedPlayer, c. repeat split; try assumption; reflexivity.
    + destruct (closers s !! k) as [x|] eqn:Ek; [|discriminate Hs].
      destruct x; try discriminate Hs.
      rewrite Hcs in Ek.
      destruct (last_alive cs st k CClosedPlayer Hdone Ek ltac:(discriminate)) as [-> <-].
      injection Hs as <-. cbn. rewrite Hcs, Hps, insert_last.
      destruct Hst as [-> _]. split.
      * apply Forall_app. split; [exact Hfalse | repeat constructor].
      * apply Forall_app. split; [exact Hdone | repeat constructor].
    + injection Hs as <-. cbn. rewrite ?Epl.
      exists ps, b, cs, st, c. repeat split; assumption.
  - destruct HI as [Hfalse Hdone].
    assert (Hno : forall k x, closers s !! k = Some x -> x = CDone).
    { intros k x Hk. exact (Forall_lookup_1 _ _ _ _ Hdone Hk). }
    destruct a as [| |k|k|k|e]; cbn [clockStep] in Hs.
    + rewrite Epl in Hs.
      destruct (negb (enabled s)); [|destruct (negb (hasContext s))];
        injection Hs as <-; try (rewrite Epl; split; assumption).
      cbn. exists (players s), true, (closers s), CWaiting, (length (clockChans s)).
      repeat split; try assumption; try reflexivity.
      rewrite lookup_app_r by lia. rewrite Nat.sub_diag. eexists; reflexivity.
    + rewrite Epl in Hs. injection Hs as <-. rewrite Epl. split; assumption.
    + destruct (closers s !! k) as [x|] eqn:Ek; [|discriminate Hs].
      rewrite (Hno k x Ek) in Hs. discriminate Hs.
    + destruct (closers s !! k) as [x|] eqn:Ek; [|discriminate Hs].
      rewrite (Hno k x Ek) in Hs. discriminate Hs.
    + destruct (closers s !! k) as [x|] eqn:Ek; [|discriminate Hs].
      rewrite (Hno k x Ek) in Hs. discriminate Hs.
    + injection Hs as <-. cbn. rewrite ?Epl. split; assumption.
Qed.

Lemma clockRun_Inv acts : forall s s', ClockInv s -> clockRun acts s = CNext s' -> ClockInv s'.
Proof.
  induction acts as [|a rest IH]; intros s s' HI Hr; simpl in Hr.
  - injection Hr as <-. exact HI.
  - destruct (clockStep a s) as [s1| |] eqn:Es; try discriminate Hr.
    apply (IH s1 s'); [eapply clockStep_Inv; eassumption | exact Hr].
Qed.

Lemma ClockReachable_Inv s : ClockReachable s -> ClockInv s.
Proof.
  intros (sound & ctx & acts & Hr). eapply clockRun_Inv; [apply ClockInv_init | exact Hr].
Qed.

Lemma filter_all_false (l : list bool) :
  Forall (fun b => b = false) l -> List.filter (fun b : bool => b) l = [].
Proof.
  induction 1 as [|b l Hb _ IH]; [reflexivity|]. simpl. rewrite Hb. exact IH.
Qed.

Lemma filter_all_done (l : list Closer) :
  Forall (fun c => c = CDone) l -> List.filter isAlive l = [].
Proof.
  induction 1 as [|c l Hc _ IH]; [reflexivity|]. simpl. rewrite Hc. exact IH.
Qed.

(** X23. The ambient sound under every schedule of [playClockSound],
    [stopClockSound], changes of the sound setting and steps of the
    goroutines that close the player, from the start of the program: at
    most one player is open and at most one of these goroutines has not
    returned; when [clockPlayer] is nil no player is open and no such
    goroutine is left; and the goroutine's [clockPlayer.Close()] is never
    a call on a nil player. *)
Theorem at_most_one_clock_player (s : Clock) :
  ClockReachable s ->
  (openPlayers s <= 1)%nat /\ (aliveClosers s <= 1)%nat /\
  (clockPlayer s = None -> openPlayers s = 0%nat /\ aliveClosers s = 0%nat) /\
  (forall k, clockStep (CClose k) s <> CPanic).
Proof.
  intros HR. pose proof (ClockReachable_Inv s HR) as HI. unfold ClockInv in HI.
  unfold openPlayers, aliveClosers.
  destruct (clockPlayer s) as [pl|] eqn:Epl.
  - destruct HI as (ps & b & cs & st & c & Hps & Hpl & Hfalse & Hcs & Hdone & _).
    rewrite Hps, Hcs, !List.filter_app, filter_all_false, filter_all_done by assumption.
    split; [destruct b; simpl; lia|]. split; [destruct st; simpl; lia|].
    split; [discriminate|].
    intros k. cbn [clockStep]. rewrite Epl.
    destruct (closers s !! k) as [[ | | | ]|]; discriminate.
  - destruct HI as [Hfalse Hdone].
    rewrite filter_all_false, filter_all_done by assumption.
    split; [simpl; lia|]. split; [simpl; lia|]. split; [intros _; split; reflexivity|].
    intros k. cbn [clockStep].
    destruct (closers s !! k) as [x|] eqn:Ek; [|discriminate].
    assert (x = CDone) as ->.
    { exact (Forall_lookup_1 _ _ _ _ Hdone Ek). }
    discriminate.
Qed.

Lemma at_most_one_clock_player_witness :
  (openPlayers (mkClock true true (Some 0%nat) [true] (Some 0%nat) [true] [CWoken]) <= 1)%nat.
Proof.
  apply (at_most_one_clock_player
           (mkClock true true (Some 0%nat) [true] (Some 0%nat) [true] [CWoken])).
  exists true, true, [CPlay; CStop; CWake 0]. reflexivity.
Defined.

(** X24. When [stopClockSound] panics.  In every reachable state of the
    ambient sound the call panics with a close of a closed channel
    exactly when [clockPlayer] is not nil and the channel in
    [clockStopCh] is already closed: a stop has been signalled and the
    goroutine that closes the player has not yet set [clockPlayer] to
    nil.  Such a state is reached by the timer: when a pomodoro with the
    sound enabled is stopped from the tray icon and the break after it is
    stopped too, the two countdown goroutines call [stopClockSound] one
    after the other, and if the goroutine that closes the player has not
    run in between, the second call panics. *)
Theorem second_stop_panics (s : Clock) :
  ClockReachable s ->
  (clockStep CStop s = CPanic <->
   exists pl c, clockPlayer s = Some pl /\ clockStopCh s = Some c /\
                clockChans s !! c = Some true) /\
  (exists s' tr,
     run stopTwice (initState defaultSettings) = Next s' tr /\
     clockActions tr = [CPlay; CStop; CStop] /\
     clockRun (clockActions tr) (initClock true true) = CPanic).
Proof.
  intros HR. split; [|do 2 eexists; split; [vm_compute; reflexivity | split; reflexivity]].
  pose proof (ClockReachable_Inv s HR) as HI. unfold ClockInv in HI.
  cbn [clockStep]. destruct (clockPlayer s) as [pl|] eqn:Epl.
  - destruct HI as (ps & b & cs & st & c & _ & _ & _ & _ & _ & Hch & [x Hx] & _).
    rewrite Hch, Hx. split.
    + intros Hp. exists pl, c.
      destruct x; [|discriminate Hp].
      split; [reflexivity|]. split; [first [reflexivity | exact Hch]|].
      first [reflexivity | exact Hx].
    + intros (pl' & c' & _ & Ec & Hclosed). injection Ec as <-.
      rewrite Hx in Hclosed. injection Hclosed as ->. reflexivity.
  - split; [discriminate | intros (pl & c & H & _); discriminate H].
Qed.

Lemma second_stop_panics_witness :
  clockStep CStop (mkClock true true (Some 0%nat) [true] (Some 0%nat) [true] [CWaiting]) = CPanic.
Proof.
  destruct (second_stop_panics
              (mkClock true true (Some 0%nat) [true] (Some 0%nat) [true] [CWaiting]))
    as [[_ H] _].
  - exists true, true, [CPlay; CStop]. reflexivity.
  - apply H. exists 0%nat, 0%nat. repeat split; reflexivity.
Defined.

End AmbientSound.

(** * Facts about Part VII *)

Section FontArray.

Lemma hexDigit_value n : 0 <= n < 16 -> hexDigitValue (hexDigit n) = n.
Proof.
  intros H.
  assert (E : forallb (fun k => hexDigitValue (hexDigit (Z.of_nat k)) =? Z.of_nat k)
                (seq 0 16) = true) by (vm_compute; reflexivity).
  rewrite forallb_forall in E. specialize (E (Z.to_nat n)).
  rewrite Z2Nat.id in E by lia. apply Z.eqb_eq, E, in_seq. lia.
Qed.

Lemma hexBytes_token h l r :
  hexBytes (String "0" (String "x" (String h (String l r)))) =
  (16 * hexDigitValue h + hexDigitValue l) :: hexBytes r.
Proof. reflexivity. Qed.

Lemma hexBytes_skip c r : Ascii.eqb c "0" = false -> hexBytes (String c r) = hexBytes r.
Proof. intros H. cbn [hexBytes]. rewrite H. reflexivity. Qed.

Lemma hexBytes_entry i b rest :
  0 <= b < 256 -> hexBytes (arrayEntry i b ++ rest) = b :: hexBytes rest.
Proof.
  intros Hb. unfold arrayEntry, hex2.
  assert (Hv : 16 * hexDigitValue (hexDigit (b / 16)) + hexDigitValue (hexDigit (b mod 16)) = b).
  { rewrite !hexDigit_value.
    - pose proof (Z.div_mod b 16 ltac:(lia)). lia.
    - apply Z.mod_pos_bound. lia.
    - split; [apply Z.div_pos; lia | apply Z.div_lt_upper_bound; lia]. }
  destruct (i mod 16 =? 0)%nat; destruct ((i + 1) mod 16 =? 0)%nat;
    cbn [String.append];
    rewrite ?(hexBytes_skip tab) by reflexivity;
    rewrite hexBytes_token, Hv;
    rewrite (hexBytes_skip ",") by reflexivity;
    rewrite (hexBytes_skip " ") by reflexivity;
    rewrite ?(hexBytes_skip newline) by reflexivity;
    reflexivity.
Qed.

Lemma string_app_assoc (a b c : string) : ((a ++ b) ++ c = a ++ (b ++ c))%string.
Proof. induction a as [|x a IH]; [reflexivity|]. simpl. rewrite IH. reflexivity. Qed.

Lemma hexBytes_body data : forall i rest,
  Forall (fun b => 0 <= b < 256) data ->
  hexBytes (arrayBody i data ++ rest) = data ++ hexBytes rest.
Proof.
  induction data as [|b data IH]; intros i rest Hd; [reflexivity|].
  apply Forall_cons_1 in Hd as [Hb Hd]. cbn [arrayBody].
  rewrite string_app_assoc, hexBytes_entry by exact Hb.
  rewrite IH by exact Hd. reflexivity.
Qed.

(** X25. The Go source text that the generator prints for the bytes of
    the font names exactly those bytes: reading the tokens 0xhh of the
    output in order gives the input back, for every byte slice; the
    header, the tabs, the separators, the line breaks after every
    sixteenth byte and the closing brace add no token. *)
Theorem font_array_round_trip (data : list Z) :
  Forall (fun b => 0 <= b < 256) data ->
  hexBytes (ttfToArray data) = data.
Proof.
  intros Hd. unfold ttfToArray.
  change (hexBytes (arrayBody 0 data ++ String newline ("}" ++ String newline EmptyString)) = data).
  rewrite hexBytes_body by exact Hd.
  rewrite app_nil_r. reflexivity.
Qed.

Lemma font_array_round_trip_witness :
  hexBytes (ttfToArray [0; 1; 255; 16; 171; 9; 10; 11; 12; 13; 14; 15; 200; 100; 50; 25; 7; 0]) =
  [0; 1; 255; 16; 171; 9; 10; 11; 12; 13; 14; 15; 200; 100; 50; 25; 7; 0].
Proof.
  apply (font_array_round_trip
           [0; 1; 255; 16; 171; 9; 10; 11; 12; 13; 14; 15; 200; 100; 50; 25; 7; 0]).
  repeat (constructor; [lia|]). constructor.
Defined.

End FontArray.

Section Tooltip.

#[local] Arguments displayText : simpl never.
#[local] Arguments tooltipText : simpl never.

Lemma pad2_digits n :
  0 <= n < 100 ->
  pad2 n = String (digitChar (n / 10)) (String (digitChar (n mod 10)) EmptyString).
Proof.
  intros H.
  assert (E : forallb
                (fun k => String.eqb (pad2 (Z.of_nat k))
                            (String (digitChar (Z.of_nat k / 10))
                               (String (digitChar (Z.of_nat k mod 10)) EmptyString)))
                (seq 0 100) = true) by (vm_compute; reflexivity).
  rewrite forallb_forall in E. specialize (E (Z.to_nat n)).
  rewrite Z2Nat.id in E by lia. apply String.eqb_eq, E, in_seq. lia.
Qed.

(** X26. The tooltip of a running countdown.  At a tick that leaves k
    whole seconds, 0 < k < 6000 (a session of at most 100 minutes that
    fits), the locked body ends with one [SetTooltip] whose text is the
    clock mm:ss of k: two digits of minutes, a colon, two digits of
    seconds, both zero-padded; the state keeps [isRunning] and
    [pomodoroCount]. *)
Theorem tooltip_shows_clock (g : nat) (s : State) (k : Z) :
  remainingTime s = (k + 1) * Second -> 0 < k < 6000 ->
  exists pre,
    snd (tickBody g s) = pre ++ [SetTooltip (clockText k)] /\
    (forall t, ~ In (SetTooltip t) pre) /\
    String.length (clockText k) = 5%nat /\
    remainingTime (fst (tickBody g s)) = k * Second /\
    isRunning (fst (tickBody g s)) = isRunning s /\
    pomodoroCount (fst (tickBody g s)) = pomodoroCount s.
Proof.
  intros Hrem Hk.
  rewrite (tickBody_nonterminal g s k Hrem ltac:(lia)
             ltac:(unfold maxInt64, Second; lia)).
  cbn [fst snd remainingTime isRunning pomodoroCount].
  assert (Et : tooltipText (k * Second) = clockText k).
  { assert (Hq1 : Z.quot (k * Second) (60 * Second) = k / 60).
    { rewrite Z.quot_div_nonneg by (unfold Second; lia).
      rewrite Z.div_mul_cancel_r by (unfold Second; lia). reflexivity. }
    assert (Hq2 : Z.quot (k * Second) Second = k)
      by (apply Z.quot_mul; unfold Second; lia).
    unfold tooltipText, minutesInt, secondsInt, Minute. rewrite Hq1, Hq2.
    rewrite Z.rem_mod_nonneg by lia.
    assert (Hm : 0 <= k / 60 < 100)
      by (split; [apply Z.div_pos; lia | apply Z.div_lt_upper_bound; lia]).
    assert (Hs : 0 <= k mod 60 < 100) by (pose proof (Z.mod_pos_bound k 60); lia).
    rewrite (pad2_digits _ Hm), (pad2_digits _ Hs). unfold clockText.
    rewrite Z.div_div by lia. change (60 * 10) with 600.
    replace (k mod 60 mod 10) with (k mod 10).
    - reflexivity.
    - pose proof (Z.div_mod k 60 ltac:(lia)) as E.
      rewrite E at 1. rewrite Z.add_comm, (Z.mul_comm 60).
      replace (k / 60 * 60) with (k / 60 * 6 * 10) by lia.
      rewrite Z.mod_add by lia. reflexivity. }
  rewrite Et. eexists. split; [rewrite app_assoc; reflexivity|].
  split; [|split; [reflexivity | split; [reflexivity | split; reflexivity]]].
  intros t Hin. apply in_app_or in Hin as [Hin|Hin].
  - destruct (k <? 11); [destruct Hin as [E|[]]; discriminate E | destruct Hin].
  - destruct (String.eqb _ _); [destruct Hin | destruct Hin as [E|[]]; discriminate E].
Qed.

Lemma tooltip_shows_clock_witness :
  exists pre,
    snd (tickBody 0 focusStarted) = pre ++ [SetTooltip (clockText 1499)] /\
    (forall t, ~ In (SetTooltip t) pre) /\
    String.length (clockText 1499) = 5%nat /\
    remainingTime (fst (tickBody 0 focusStarted)) = 1499 * Second /\
    isRunning (fst (tickBody 0 focusStarted)) = isRunning focusStarted /\
    pomodoroCount (fst (tickBody 0 focusStarted)) = pomodoroCount focusStarted.
Proof.
  apply (tooltip_shows_clock 0 focusStarted 1499).
  - reflexivity.
  - lia.
Defined.

End Tooltip.

Section RestartWitnesses.

Lemma focusInSelect_reachable : Reachable focusInSelect.
Proof. exists defaultSettings, (Start 25 true ++ [AEnter 0]), [PlayClockSound]. reflexivity. Qed.

Lemma focusGotTick_reachable : Reachable focusGotTick.
Proof.
  exists defaultSettings, (Start 25 true ++ [AEnter 0; ATick 0]), [PlayClockSound].
  reflexivity.
Qed.

Lemma restart_misses_goroutine_holding_tick_witness :
  exists s' tr,
    run [AHandleTimerClick (5 * Minute); ABody 0; AEnter 0] focusGotTick = Next s' tr /\
    procs s' !! 0%nat = Some (InSelect (stopCh s')) /\
    chans s' !! stopCh s' = Some false /\
    remainingTime s' = 5 * Minute - Second /\
    step (AStopped 0) s' = Blocked.
Proof.
  apply (restart_misses_goroutine_holding_tick focusGotTick (5 * Minute) 0
           focusGotTick_reachable); try reflexivity.
  unfold Minute, Second, maxInt64. lia.
Defined.

Lemma stop_misses_goroutine_holding_tick_witness :
  exists s' tr,
    run [ATrayClick; ABody 0; AEnter 0] focusGotTick = Next s' tr /\
    isRunning s' = false /\
    procs s' !! 0%nat = Some (InSelect (stopCh s')) /\
    chans s' !! stopCh s' = Some false /\
    remainingTime s' = remainingTime focusGotTick - Second.
Proof.
  apply (stop_misses_goroutine_holding_tick focusGotTick 0
           focusGotTick_reachable); try reflexivity.
  unfold focusGotTick, Minute, Second, maxInt64. simpl. lia.
Defined.

Lemma load_falls_back_to_defaults_witness :
  fst (loadSettings (Some brokenFile)) = mkSettings 25 5 15 true /\
  snd (loadSettings (Some brokenFile)) = true.
Proof.
  apply (load_falls_back_to_defaults (Some brokenFile)).
  right. exists brokenFile. split; [reflexivity | vm_compute; reflexivity].
Defined.

End RestartWitnesses.

Section TickerFacts.

Lemma timerStep_refines a t t' tr :
  timerStep a t = TNext t' tr ->
  match a with
  | TStep b => step b (machine t) = Next (machine t') tr
  | _ => machine t' = machine t /\ tr = []
  end.
Proof.
  destruct a as [g|g|b]; cbn [timerStep]; intros H.
  - destruct (procs (machine t) !! g) as [[ | | | ]|]; try discriminate H.
    destruct (startupOf g t); try discriminate H. injection H as <- <-. split; reflexivity.
  - destruct (startupOf g t); try discriminate H.
    destruct (tickerVar t); try discriminate H. injection H as <- <-. split; reflexivity.
  - destruct (tickerAllows b t); [|discriminate H].
    destruct (step b (machine t)) as [s' tr'| |] eqn:Es; try discriminate H.
    injection H as <- <-. f_equal.
    unfold tickerEffect.
    destruct b as [k|d| |st|g|g|g|g]; try reflexivity.
    + destruct (procs s' !! g) as [[ | | | ]|]; reflexivity.
    + destruct (procs s' !! g) as [[ | | | ]|]; reflexivity.
Qed.

Lemma timerRun_refines acts : forall t t' tr,
  timerRun acts t = TNext t' tr -> run (stepsOf acts) (machine t) = Next (machine t') tr.
Proof.
  induction acts as [|a rest IH]; intros t t' tr H; cbn [timerRun] in H.
  - injection H as <- <-. reflexivity.
  - destruct (timerStep a t) as [t1 tr1| |] eqn:Ea; try discriminate H.
    destruct (timerRun rest t1) as [t2 tr2| |] eqn:Er; try discriminate H.
    injection H as <- <-. pose proof (timerStep_refines a t t1 tr1 Ea) as Hs.
    specialize (IH t1 t2 tr2 Er).
    destruct a as [g|g|b]; cbn [stepsOf flat_map app].
    + destruct Hs as [<- ->]. exact IH.
    + destruct Hs as [<- ->]. exact IH.
    + fold (stepsOf rest). cbn [run]. rewrite Hs, IH. reflexivity.
Qed.

Lemma TimersReachable_machine t : TimersReachable t -> Reachable (machine t).
Proof.
  intros (st & acts & tr & H). exists st, (stepsOf acts), tr.
  exact (timerRun_refines acts (initTimers st) t tr H).
Qed.

Lemma timerRun_app a b t :
  timerRun (a ++ b) t =
  match timerRun a t with
  | TNext t1 tr1 =>
      match timerRun b t1 with
      | TNext t2 tr2 => TNext t2 (tr1 ++ tr2)
      | o => o
      end
  | o => o
  end.
Proof.
  revert t. induction a as [|x a IH]; intros t; cbn [app timerRun].
  - destruct (timerRun b t); reflexivity.
  - destruct (timerStep x t) as [t1 tr1| |]; try reflexivity.
    rewrite IH. destruct (timerRun a t1) as [t2 tr2| |]; try reflexivity.
    destruct (timerRun b t2) as [t3 tr3| |]; try reflexivity.
    rewrite app_assoc. reflexivity.
Qed.

Lemma step_procs_length a s s' tr :
  step a s = Next s' tr -> (length (procs s) <= length (procs s'))%nat.
Proof.
  intros Hs. destruct a as [b|d| |st|g|g|g|g]; simpl in Hs.
  - injection Hs as <- _. simpl. lia.
  - unfold handleTimerClick, stopSignal in Hs.
    destruct (isRunning s); [destruct (chans s !! stopCh s) as [[|]|]|];
      try discriminate; injection Hs as <- _; simpl; rewrite length_app; lia.
  - unfold handleTrayClick, stopSignal in Hs.
    destruct (isRunning s); [destruct (chans s !! stopCh s) as [[|]|]|];
      try discriminate; [|destruct (isInPomodoro s)];
      injection Hs as <- _; simpl; rewrite ?length_app; lia.
  - injection Hs as <- _. simpl. lia.
  - destruct (goroutine_step_frame (AEnter g) s s' tr eq_refl Hs) as (_ & _ & _ & H). lia.
  - destruct (goroutine_step_frame (ATick g) s s' tr eq_refl Hs) as (_ & _ & _ & H). lia.
  - destruct (goroutine_step_frame (AStopped g) s s' tr eq_refl Hs) as (_ & _ & _ & H). lia.
  - destruct (goroutine_step_frame (ABody g) s s' tr eq_refl Hs) as (_ & _ & _ & H). lia.
Qed.

Lemma startupOf_fresh g t : assoc g (startup t) = None -> startupOf g t = BeforeNewTicker.
Proof. unfold startupOf. intros ->. reflexivity. Qed.

Lemma TimersInv_init st : TimersInv (initTimers st).
Proof.
  unfold TimersInv. cbn. split; [discriminate|]. split; [constructor|].
  split; [discriminate | reflexivity].
Qed.

Lemma Forall_stopTicker (n : nat) k l :
  (forall x, k = Some x -> (x < n)%nat) -> Forall (fun x => (x < n)%nat) l ->
  Forall (fun x => (x < n)%nat) (stopTicker k l).
Proof.
  intros Hk Hl. destruct k as [x|]; [|exact Hl].
  constructor; [apply Hk; reflexivity | exact Hl].
Qed.

Lemma Forall_lt_mono (n m : nat) l :
  (n <= m)%nat -> Forall (fun x => (x < n)%nat) l -> Forall (fun x => (x < m)%nat) l.
Proof.
  intros Hnm H. induction H as [|x l Hx _ IH]; constructor; [lia | exact IH].
Qed.

Lemma TimersInv_mk s' tv st su df se :
  (forall k, tv = Some k -> (k < length (procs s'))%nat) ->
  Forall (fun k => (k < length (procs s'))%nat) st ->
  (forall g k, assoc g df = Some k -> (k < length (procs s'))%nat) ->
  (forall g, (length (procs s') <= g)%nat -> assoc g su = None) ->
  TimersInv (mkTimers s' tv st su df se).
Proof. intros A B C D. unfold TimersInv. cbn. repeat split; assumption. Qed.

Lemma timerStep_Inv a t t' tr : TimersInv t -> timerStep a t = TNext t' tr -> TimersInv t'.
Proof.
  intros (H1 & H2 & H3 & H4) Hs.
  destruct a as [g|g|b]; cbn [timerStep] in Hs.
  - destruct (procs (machine t) !! g) as [[ | | | ]|] eqn:Hg; try discriminate Hs.
    destruct (startupOf g t); try discriminate Hs. injection Hs as <- _.
    apply lookup_lt_Some in Hg. apply TimersInv_mk.
    + intros k E. injection E as <-. exact Hg.
    + exact H2.
    + exact H3.
    + intros g' Hg'. cbn [assoc].
      destruct (Nat.eqb_spec g' g); [lia | apply H4; exact Hg'].
  - destruct (startupOf g t) eqn:Est; try discriminate Hs.
    destruct (tickerVar t) as [k|] eqn:Ek; try discriminate Hs. injection Hs as <- _.
    assert (Hglt : (g < length (procs (machine t)))%nat).
    { destruct (Nat.lt_ge_cases g (length (procs (machine t)))) as [Hl|Hge]; [exact Hl|].
      rewrite (startupOf_fresh g t (H4 g Hge)) in Est. discriminate Est. }
    apply TimersInv_mk.
    + exact H1.
    + exact H2.
    + intros g' k'. cbn [assoc]. destruct (Nat.eqb_spec g' g).
      * intros E. injection E as <-. apply H1. reflexivity.
      * apply H3.
    + intros g' Hg'. cbn [assoc].
      destruct (Nat.eqb_spec g' g); [lia | apply H4; exact Hg'].
  - destruct (tickerAllows b t); [|discriminate Hs].
    destruct (step b (machine t)) as [s' tr'| |] eqn:Es; try discriminate Hs.
    injection Hs as <- _. pose proof (step_procs_length b _ _ _ Es) as Hlen.
    assert (G1 : forall k, tickerVar t = Some k -> (k < length (procs s'))%nat)
      by (intros k E; specialize (H1 k E); lia).
    assert (G2 : Forall (fun k => (k < length (procs s'))%nat) (stoppedTickers t))
      by (eapply Forall_lt_mono; eassumption).
    assert (G3 : forall g k, assoc g (deferredStop t) = Some k -> (k < length (procs s'))%nat)
      by (intros g k E; specialize (H3 g k E); lia).
    assert (G4 : forall g, (length (procs s') <= g)%nat -> assoc g (startup t) = None)
      by (intros g Hg; apply H4; lia).
    assert (G5 : forall g, Forall (fun k => (k < length (procs s'))%nat)
                             (stopTicker (assoc g (deferredStop t)) (stoppedTickers t)))
      by (intros g; apply Forall_stopTicker; [apply G3 | exact G2]).
    unfold tickerEffect.
    destruct b as [k|d| |st|g|g|g|g]; try (apply TimersInv_mk; assumption).
    + destruct (procs s' !! g) as [[ | | | ]|]; apply TimersInv_mk;
        solve [assumption | apply G5].
    + apply TimersInv_mk; try assumption.
      apply Forall_stopTicker; [apply G3|].
      apply Forall_stopTicker; [exact G1 | exact G2].
    + destruct (procs s' !! g) as [[ | | | ]|]; apply TimersInv_mk;
        solve [assumption | apply G5].
Qed.

Lemma timerRun_Inv acts : forall t t' tr,
  TimersInv t -> timerRun acts t = TNext t' tr -> TimersInv t'.
Proof.
  induction acts as [|a rest IH]; intros t t' tr HI H; cbn [timerRun] in H.
  - injection H as <- _. exact HI.
  - destruct (timerStep a t) as [t1 tr1| |] eqn:Ea; try discriminate H.
    destruct (timerRun rest t1) as [t2 tr2| |] eqn:Er; try discriminate H.
    injection H as <- _. apply (IH t1 t2 tr2); [|exact Er].
    eapply timerStep_Inv; eassumption.
Qed.

Lemma TimersReachable_Inv t : TimersReachable t -> TimersInv t.
Proof.
  intros (st & acts & tr & H). eapply timerRun_Inv; [apply TimersInv_init | exact H].
Qed.

Lemma restart_step s d :
  chans s !! stopCh s = Some false -> isRunning s = true ->
  step (AHandleTimerClick d) s =
    Next (restarted d s)
         (if isInPomodoro s && EnableClockSound (settings s) then [PlayClockSound] else []).
Proof.
  intros Hch Hrun. cbn [step]. unfold handleTimerClick, stopSignal.
  rewrite Hrun, Hch. reflexivity.
Qed.

Lemma not_stopped_fresh (n : nat) l :
  Forall (fun k => (k < n)%nat) l -> existsb (Nat.eqb n) l = false.
Proof.
  induction 1 as [|k l Hk _ IH]; [reflexivity|]. cbn [existsb].
  rewrite IH. destruct (Nat.eqb_spec n k); [lia | reflexivity].
Qed.

Lemma restart_facts (t : Timers) (d : Z) (g : nat) :
  TimersReachable t ->
  procs (machine t) !! g = Some (InSelect (stopCh (machine t))) ->
  let s := machine t in
  let n := length (procs s) in
  let s1 := restarted d s in
  (g < n)%nat /\
  chans s !! stopCh s = Some false /\
  procs s1 !! g = Some (InSelect (stopCh s)) /\
  chans s1 !! stopCh s = Some true /\
  chans s1 !! stopCh s1 = Some false /\
  <[g := Exited]> (procs s1) !! n = Some AtLoop /\
  <[g := Exited]> (procs s1) !! g = Some Exited /\
  procs s1 !! n = Some AtLoop.
Proof.
  intros HR Hg s n s1.
  destruct (Reachable_Inv s (TimersReachable_machine t HR)) as [Hch _].
  assert (Hlt : (g < n)%nat) by (eapply lookup_lt_Some; exact Hg).
  assert (Hc : (stopCh s < length (chans s))%nat) by (eapply lookup_lt_Some; exact Hch).
  assert (Hn : procs s1 !! n = Some AtLoop).
  { unfold s1, restarted. cbn [procs]. rewrite lookup_app_r by (unfold n; lia).
    unfold n. rewrite Nat.sub_diag. reflexivity. }
  split; [exact Hlt|]. split; [exact Hch|]. split.
  { unfold s1, restarted. cbn [procs]. rewrite lookup_app_l by exact Hlt. exact Hg. }
  split.
  { unfold s1, restarted. cbn [chans]. rewrite lookup_app_l by (rewrite length_insert; exact Hc).
    apply list_lookup_insert_eq. exact Hc. }
  split.
  { unfold s1, restarted. cbn [chans stopCh].
    rewrite lookup_app_r by (rewrite length_insert; lia).
    rewrite length_insert, Nat.sub_diag. reflexivity. }
  split.
  { rewrite list_lookup_insert_ne by lia. exact Hn. }
  split; [|exact Hn].
  apply list_lookup_insert_eq. unfold s1, restarted. cbn [procs]. rewrite length_app. lia.
Qed.

Lemma existsb_stopTicker k x l :
  existsb (Nat.eqb k) l = true -> existsb (Nat.eqb k) (stopTicker x l) = true.
Proof.
  intros H. destruct x as [y|]; [|exact H]. cbn [stopTicker existsb].
  rewrite H. apply orb_true_r.
Qed.

(** A step of one goroutine leaves the control point of another alone. *)
Lemma goroutine_step_other a s s' tr (g n : nat) :
  In a [AEnter g; ATick g; AStopped g; ABody g] -> g <> n ->
  step a s = Next s' tr -> procs s' !! n = procs s !! n.
Proof.
  intros Ha Hne Hs.
  destruct Ha as [<-|[<-|[<-|[<-|[]]]]]; cbn [step] in Hs.
  - destruct (procs s !! g) as [[ | | | ]|]; try discriminate.
    destruct (0 <? remainingTime s); injection Hs as <- _; cbn;
      apply list_lookup_insert_ne; exact Hne.
  - destruct (procs s !! g) as [[ |c| | ]|]; try discriminate.
    destruct (chans s !! c) as [[|]|]; try discriminate.
    injection Hs as <- _; cbn; apply list_lookup_insert_ne; exact Hne.
  - destruct (procs s !! g) as [[ |c| | ]|]; try discriminate.
    destruct (chans s !! c) as [[|]|]; try discriminate.
    injection Hs as <- _; cbn; apply list_lookup_insert_ne; exact Hne.
  - destruct (procs s !! g) as [[ | | | ]|]; try discriminate.
    unfold tickBody in Hs. destruct (wrap64 (remainingTime s - Second) <=? 0);
      injection Hs as <- _; cbn; apply list_lookup_insert_ne; exact Hne.
Qed.

Lemma stuck_blocks n c t a :
  Stuck n c t -> In a [AEnter n; ATick n; AStopped n; ABody n] ->
  timerStep (TStep a) t = TBlocked.
Proof.
  intros (Hp & Hc & k & Hk & Hst) Ha. cbn [timerStep].
  destruct Ha as [<-|[<-|[<-|[<-|[]]]]]; cbn [tickerAllows step].
  - rewrite Hp. destruct (startupOf n t); reflexivity.
  - rewrite Hk, Hst. reflexivity.
  - rewrite Hp, Hc. reflexivity.
  - rewrite Hp. reflexivity.
Qed.

Lemma stuck_step n c a t t' tr :
  isGoroutineTimerAction a = true -> Stuck n c t ->
  timerStep a t = TNext t' tr -> Stuck n c t'.
Proof.
  intros Ha HS Hs. pose proof HS as (Hp & Hc & k & Hk & Hst).
  destruct a as [g|g|b]; cbn [timerStep] in Hs.
  - destruct (procs (machine t) !! g) as [[ | | | ]|]; try discriminate Hs.
    destruct (startupOf g t); try discriminate Hs. injection Hs as <- _.
    split; [exact Hp|]. split; [exact Hc|]. exists k. split; [exact Hk | exact Hst].
  - destruct (startupOf g t); try discriminate Hs.
    destruct (tickerVar t); try discriminate Hs. injection Hs as <- _.
    split; [exact Hp|]. split; [exact Hc|]. exists k. split; [exact Hk | exact Hst].
  - assert (Hcase : exists g, In b [AEnter g; ATick g; AStopped g; ABody g]).
    { destruct b as [x|x| |x|g|g|g|g]; try discriminate Ha; exists g; simpl; tauto. }
    destruct Hcase as [g Hin].
    destruct (Nat.eq_dec g n) as [->|Hne].
    { pose proof (stuck_blocks n c t b HS Hin) as Hb. cbn [timerStep] in Hb.
      rewrite Hb in Hs. discriminate Hs. }
    destruct (tickerAllows b t); [|discriminate Hs].
    destruct (step b (machine t)) as [s' tr'| |] eqn:Es; try discriminate Hs.
    injection Hs as <- _.
    pose proof (goroutine_step_other b _ _ _ g n Hin Hne Es) as Hsame.
    destruct (goroutine_step_frame b _ _ _ Ha Es) as (_ & Hchans & _ & _).
    assert (Hn : Nat.eqb n g = false) by (apply Nat.eqb_neq; congruence).
    unfold Stuck, isStopped in *. unfold tickerEffect.
    destruct Hin as [<-|[<-|[<-|[<-|[]]]]].
    + destruct (procs s' !! g) as [[ |c'| | ]|]; cbn;
        rewrite Hsame, Hchans;
        (split; [exact Hp|]); (split; [exact Hc|]); exists k.
      * split; [exact Hk | apply existsb_stopTicker; exact Hst].
      * destruct (tickerVar t); cbn [assoc]; rewrite ?Hn; split; assumption.
      * split; [exact Hk | apply existsb_stopTicker; exact Hst].
      * split; [exact Hk | apply existsb_stopTicker; exact Hst].
      * split; [exact Hk | apply existsb_stopTicker; exact Hst].
    + cbn. rewrite Hsame, Hchans.
      split; [exact Hp|]. split; [exact Hc|]. exists k. split; assumption.
    + cbn. rewrite Hsame, Hchans.
      split; [exact Hp|]. split; [exact Hc|]. exists k.
      split; [exact Hk | apply existsb_stopTicker, existsb_stopTicker; exact Hst].
    + destruct (procs s' !! g) as [[ |c'| | ]|]; cbn;
        rewrite Hsame, Hchans;
        (split; [exact Hp|]); (split; [exact Hc|]); exists k;
        (split; [exact Hk|]); try exact Hst; apply existsb_stopTicker; exact Hst.
Qed.

Lemma stuck_run n c acts : forall t t' tr,
  forallb isGoroutineTimerAction acts = true -> Stuck n c t ->
  timerRun acts t = TNext t' tr -> Stuck n c t'.
Proof.
  induction acts as [|a rest IH]; intros t t' tr Ha HS H; cbn [timerRun] in H.
  - injection H as <- _. exact HS.
  - cbn [forallb] in Ha. apply andb_true_iff in Ha as [Ha Hrest].
    destruct (timerStep a t) as [t1 tr1| |] eqn:Ea; try discriminate H.
    destruct (timerRun rest t1) as [t2 tr2| |] eqn:Er; try discriminate H.
    injection H as <- _. apply (IH t1 t2 tr2 Hrest); [|exact Er].
    eapply stuck_step; eassumption.
Qed.

(** X27. A menu restart while the old countdown goroutine waits in
    [select], in every reachable state of the machine with tickers and
    for a new duration above zero.  If the old goroutine takes its stop
    signal before the new goroutine has made its ticker, it stops
    tickers of earlier goroutines only, and the new goroutine receives a
    tick.  If the new goroutine has already assigned [ticker] when the
    old one takes its stop signal, the [ticker.Stop()] of the stop branch
    stops the new ticker: the old goroutine is gone, the timer is
    running with the whole new duration left, and the new goroutine
    waits in [select] on a stopped ticker and an open stop channel; it
    has no step, and it stays there under every schedule of goroutine
    steps, until the next click. *)
Theorem restart_depends_on_ticker_order (t : Timers) (d : Z) (g : nat) :
  TimersReachable t ->
  isRunning (machine t) = true ->
  procs (machine t) !! g = Some (InSelect (stopCh (machine t))) ->
  0 < d ->
  (exists t1 tr1,
     timerRun (restartThenStop d g (length (procs (machine t)))) t = TNext t1 tr1 /\
     procs (machine t1) !! g = Some Exited /\
     procs (machine t1) !! length (procs (machine t)) = Some GotTick) /\
  (exists t2 tr2,
     timerRun (restartThenNewTicker d g (length (procs (machine t)))) t = TNext t2 tr2 /\
     procs (machine t2) !! g = Some Exited /\
     isRunning (machine t2) = true /\ remainingTime (machine t2) = d /\
     Stuck (length (procs (machine t))) (stopCh (machine t2)) t2 /\
     (forall a,
        In a [AEnter (length (procs (machine t))); ATick (length (procs (machine t)));
              AStopped (length (procs (machine t))); ABody (length (procs (machine t)))] ->
        timerStep (TStep a) t2 = TBlocked) /\
     (forall acts t3 tr3,
        forallb isGoroutineTimerAction acts = true ->
        timerRun acts t2 = TNext t3 tr3 ->
        Stuck (length (procs (machine t))) (stopCh (machine t2)) t3)).
Proof.
  intros HR Hrun Hg Hd.
  destruct (restart_facts t d g HR Hg) as (Hlt & Hch & Hg1 & Hc1 & Hnew & Hn2 & Hg2 & Hn1).
  destruct (TimersReachable_Inv t HR) as (I1 & I2 & I3 & I4).
  set (s := machine t) in *. set (n := length (procs s)) in *.
  set (s1 := restarted d s) in *.
  set (tr0 := if isInPomodoro s && EnableClockSound (settings s) then [PlayClockSound] else []).
  assert (E1 : timerStep (TStep (AHandleTimerClick d)) t =
               TNext (mkTimers s1 (tickerVar t) (stoppedTickers t) (startup t)
                               (deferredStop t) (selectTicker t)) tr0).
  { cbn [timerStep tickerAllows]. fold s. rewrite (restart_step s d Hch Hrun). reflexivity. }
  assert (Estop : step (AStopped g) s1 = Next (setProc g Exited s1) [StopClockSound]).
  { cbn [step]. rewrite Hg1, Hc1. reflexivity. }
  assert (Efresh : assoc n (startup t) = None) by (apply I4; unfold n; lia).
  assert (Hrem : (0 <? remainingTime s1) = true) by (apply Z.ltb_lt; exact Hd).
  set (s2 := setProc g Exited s1) in *.
  assert (Eenter : step (AEnter n) s2 = Next (setProc n (InSelect (stopCh s1)) s2) []).
  { cbn [step]. unfold s2 at 1 2. cbn [setProc procs remainingTime].
    rewrite Hn2. fold s1. rewrite Hrem. reflexivity. }
  set (s3 := setProc n (InSelect (stopCh s1)) s2) in *.
  assert (Hlen2 : (n < length (<[g := Exited]> (procs s1)))%nat)
    by (eapply lookup_lt_Some; exact Hn2).
  assert (Hn3 : procs s3 !! n = Some (InSelect (stopCh s1))).
  { unfold s3, s2. cbn [setProc procs]. apply list_lookup_insert_eq. exact Hlen2. }
  assert (Hg3 : procs s3 !! g = Some Exited).
  { unfold s3, s2. cbn [setProc procs]. rewrite list_lookup_insert_ne by lia. exact Hg2. }
  assert (Hc3 : chans s3 !! stopCh s1 = Some false) by exact Hnew.
  split.
  - set (st1 := stopTicker (assoc g (deferredStop t)) (stopTicker (tickerVar t) (stoppedTickers t))).
    assert (Hst1 : Forall (fun k => (k < n)%nat) st1).
    { unfold st1. apply Forall_stopTicker; [apply I3|].
      apply Forall_stopTicker; [exact I1 | exact I2]. }
    assert (Etick : step (ATick n) s3 = Next (setProc n GotTick s3) []).
    { cbn [step]. rewrite Hn3, Hc3. reflexivity. }
    unfold restartThenStop. cbn [timerRun]. rewrite E1.
    cbn [timerStep tickerAllows machine]. rewrite Estop.
    cbn [tickerEffect tickerVar stoppedTickers startup deferredStop selectTicker].
    fold st1 s2. cbn [timerStep machine]. unfold s2 at 1. cbn [setProc procs].
    rewrite Hn2. unfold startupOf. cbn [startup]. rewrite Efresh.
    cbn [assoc tickerVar stoppedTickers startup deferredStop selectTicker machine].
    rewrite Nat.eqb_refl. cbn [assoc tickerVar stoppedTickers startup deferredStop
      selectTicker machine timerStep tickerAllows].
    unfold startupOf. cbn [startup assoc]. rewrite Nat.eqb_refl.
    fold s2. rewrite Eenter. cbn [tickerEffect]. fold s3. rewrite Hn3.
    cbn [tickerVar stoppedTickers startup deferredStop selectTicker machine timerStep
         tickerAllows assoc].
    rewrite Nat.eqb_refl. unfold isStopped. cbn [stoppedTickers].
    rewrite (not_stopped_fresh n st1 Hst1). cbn [negb machine]. rewrite Etick.
    do 2 eexists. split; [reflexivity|]. cbn [tickerEffect machine setProc procs].
    split.
    + rewrite list_lookup_insert_ne by lia. exact Hg3.
    + apply list_lookup_insert_eq. eapply lookup_lt_Some. exact Hn3.
  - set (st2 := stopTicker (assoc g (deferredStop t)) (stopTicker (Some n) (stoppedTickers t))).
    unfold restartThenNewTicker. cbn [timerRun]. rewrite E1.
    cbn [timerStep machine]. rewrite Hn1. unfold startupOf. cbn [startup]. rewrite Efresh.
    cbn [timerStep tickerAllows machine tickerVar stoppedTickers startup deferredStop
         selectTicker]. rewrite Estop.
    cbn [tickerEffect tickerVar stoppedTickers startup deferredStop selectTicker].
    fold st2 s2. cbn [timerStep machine]. unfold startupOf. cbn [startup assoc].
    rewrite Nat.eqb_refl.
    cbn [assoc tickerVar stoppedTickers startup deferredStop selectTicker machine
         timerStep tickerAllows].
    unfold startupOf. cbn [startup assoc]. rewrite Nat.eqb_refl.
    rewrite Eenter. cbn [tickerEffect]. fold s3. rewrite Hn3.
    cbn [tickerVar stoppedTickers startup deferredStop selectTicker machine].
    set (t2 := mkTimers s3 (Some n) st2 ((n, InLoop) :: (n, BeforeDefer) :: startup t)
                        ((n, n) :: deferredStop t) ((n, n) :: selectTicker t)).
    assert (HS : Stuck n (stopCh s1) t2).
    { split; [exact Hn3|]. split; [exact Hc3|]. exists n.
      split; [cbn [t2 selectTicker assoc]; rewrite Nat.eqb_refl; reflexivity|].
      unfold isStopped, t2, st2. cbn [stoppedTickers]. apply existsb_stopTicker.
      cbn [stopTicker existsb]. rewrite Nat.eqb_refl. reflexivity. }
    exists t2. eexists. split; [reflexivity|].
    split; [exact Hg3|]. split; [reflexivity|]. split; [reflexivity|].
    split; [exact HS|]. split.
    + intros a Ha. exact (stuck_blocks n (stopCh s1) t2 a HS Ha).
    + intros acts t3 tr3 Hacts Hr. exact (stuck_run n (stopCh s1) acts t2 t3 tr3 Hacts HS Hr).
Qed.

Lemma timersInSelect_reachable : TimersReachable timersInSelect.
Proof.
  exists defaultSettings,
    [TStep (ASetKind true); TStep (AHandleTimerClick (minutes 25));
     TNewTicker 0; TDeferStop 0; TStep (AEnter 0)],
    [PlayClockSound].
  reflexivity.
Qed.

Lemma restart_depends_on_ticker_order_witness :
  (exists t1 tr1,
     timerRun (restartThenStop (5 * Minute) 0 1) timersInSelect = TNext t1 tr1 /\
     procs (machine t1) !! 0%nat = Some Exited /\
     procs (machine t1) !! 1%nat = Some GotTick) /\
  (exists t2 tr2,
     timerRun (restartThenNewTicker (5 * Minute) 0 1) timersInSelect = TNext t2 tr2 /\
     procs (machine t2) !! 0%nat = Some Exited /\
     isRunning (machine t2) = true /\ remainingTime (machine t2) = 5 * Minute /\
     Stuck 1 (stopCh (machine t2)) t2 /\
     (forall a, In a [AEnter 1; ATick 1; AStopped 1; ABody 1] ->
                timerStep (TStep a) t2 = TBlocked) /\
     (forall acts t3 tr3,
        forallb isGoroutineTimerAction acts = true ->
        timerRun acts t2 = TNext t3 tr3 ->
        Stuck 1 (stopCh (machine t2)) t3)).
Proof.
  apply (restart_depends_on_ticker_order timersInSelect (5 * Minute) 0
           timersInSelect_reachable); reflexivity.
Defined.

End TickerFacts.

Section IdleGoroutines.

(** Goroutine steps in a state where the remaining time is used up and
    every goroutine has exited or is about to test its loop condition:
    the one step possible is that test, which fails. *)
Lemma idle_goroutines_step a s s' tr :
  isGoroutineAction a = true ->
  remainingTime s <= 0 ->
  Forall (fun p => p = Exited \/ p = AtLoop) (procs s) ->
  step a s = Next s' tr ->
  isRunning s' = isRunning s /\ remainingTime s' = remainingTime s /\
  pomodoroCount s' = pomodoroCount s /\ isInPomodoro s' = isInPomodoro s /\
  Forall (fun p => p = Exited \/ p = AtLoop) (procs s') /\
  tr = [StopClockSound].
Proof.
  intros Ha Hrem Hall Hs.
  assert (Hno : forall g p, procs s !! g = Some p -> p = Exited \/ p = AtLoop)
    by (intros g p Hp; exact (Forall_lookup_1 _ _ _ _ Hall Hp)).
  destruct a as [b|d| |st|g|g|g|g]; try discriminate Ha; cbn [step] in Hs.
  - destruct (procs s !! g) as [[ | | | ]|] eqn:Hg; try discriminate Hs.
    replace (0 <? remainingTime s) with false in Hs by (symmetry; apply Z.ltb_ge; exact Hrem).
    injection Hs as <- <-. cbn. repeat split; try reflexivity.
    apply Forall_insert; [exact Hall | left; reflexivity].
  - destruct (procs s !! g) as [[ |c| | ]|] eqn:Hg; try discriminate Hs.
    destruct (Hno g _ Hg); discriminate.
  - destruct (procs s !! g) as [[ |c| | ]|] eqn:Hg; try discriminate Hs.
    destruct (Hno g _ Hg); discriminate.
  - destruct (procs s !! g) as [[ | | | ]|] eqn:Hg; try discriminate Hs.
    destruct (Hno g _ Hg); discriminate.
Qed.

Lemma idle_goroutines_run acts : forall s s' tr,
  forallb isGoroutineAction acts = true ->
  remainingTime s <= 0 ->
  Forall (fun p => p = Exited \/ p = AtLoop) (procs s) ->
  run acts s = Next s' tr ->
  isRunning s' = isRunning s /\ remainingTime s' = remainingTime s /\
  pomodoroCount s' = pomodoroCount s /\ isInPomodoro s' = isInPomodoro s /\
  Forall (fun p => p = Exited \/ p = AtLoop) (procs s') /\
  readyRenders tr = 0%nat /\ beeps tr = 0%nat.
Proof.
  induction acts as [|a rest IH]; intros s s' tr Ha Hrem Hall Hr; cbn [run] in Hr.
  - injection Hr as <- <-. repeat split; try reflexivity. exact Hall.
  - cbn [forallb] in Ha. apply andb_true_iff in Ha as [Ha Hrest].
    destruct (step a s) as [s1 tr1| |] eqn:Es; try discriminate Hr.
    destruct (run rest s1) as [s2 tr2| |] eqn:Er; try discriminate Hr.
    injection Hr as <- <-.
    destruct (idle_goroutines_step a s s1 tr1 Ha Hrem Hall Es)
      as (H1 & H2 & H3 & H4 & H5 & ->).
    destruct (IH s1 s2 tr2 Hrest ltac:(lia) H5 Er) as (K1 & K2 & K3 & K4 & K5 & K6 & K7).
    repeat split; try congruence; try assumption.
Qed.

(** X16. A session started from the menu with a duration of zero or fewer
    minutes (down to -153722867), in a reachable state in which every
    earlier countdown goroutine has exited, is never completed by the
    countdown: under every schedule of goroutine steps after the start,
    [isRunning] stays true, the remaining time and [pomodoroCount] stay
    as they are, the ready icon is not rendered and no tick sound is
    played.  The new goroutine finds [remainingTime > 0] false at its
    first loop test and returns, running only the deferred
    [stopClockSound]; after that no goroutine has a step, so only a
    click changes the state again. *)
Theorem nonpositive_duration_never_completes (s : State) (D : Z) (focus : bool) :
  Reachable s -> Forall (fun p => p = Exited) (procs s) ->
  - maxMinutes <= D <= 0 ->
  exists s1 tr1 s2,
    run (Start D focus) s = Next s1 tr1 /\
    readyRenders tr1 = 0%nat /\ beeps tr1 = 0%nat /\
    (forall acts s' tr,
       forallb isGoroutineAction acts = true -> run acts s1 = Next s' tr ->
       isRunning s' = true /\ remainingTime s' = D * Minute /\
       pomodoroCount s' = pomodoroCount s /\
       readyRenders tr = 0%nat /\ beeps tr = 0%nat) /\
    step (AEnter (length (procs s))) s1 = Next s2 [StopClockSound] /\
    Forall (fun p => p = Exited) (procs s2) /\
    (forall a, isGoroutineAction a = true -> step a s2 = Blocked).
Proof.
  intros HR Hall HD.
  destruct (start_spawns_any s D focus HR ltac:(lia))
    as (s1 & Hs1 & Hp1 & Hrem1 & _ & Hc1 & Hr1 & _).
  set (g := length (procs s)) in *.
  assert (Hg : procs s1 !! g = Some AtLoop).
  { rewrite Hp1, lookup_app_r by (unfold g; lia).
    unfold g. rewrite Nat.sub_diag. reflexivity. }
  assert (Hrem : remainingTime s1 <= 0) by (rewrite Hrem1; unfold Minute, Second; lia).
  assert (Hle : (0 <? remainingTime s1) = false) by (apply Z.ltb_ge; exact Hrem).
  assert (Hall1 : Forall (fun p => p = Exited \/ p = AtLoop) (procs s1)).
  { rewrite Hp1. apply Forall_app. split.
    - eapply Forall_impl; [exact Hall|]. intros p Hp. left. exact Hp.
    - constructor; [right; reflexivity | constructor]. }
  assert (Hall2 : Forall (fun p => p = Exited) (<[g := Exited]> (procs s1))).
  { rewrite Hp1. unfold g. rewrite insert_app_r_alt by lia.
    rewrite Nat.sub_diag. apply Forall_app. split; [exact Hall | repeat constructor]. }
  exists s1. eexists. exists (setProc g Exited s1).
  split; [exact Hs1|].
  split; [destruct (focus && _); reflexivity|].
  split; [destruct (focus && _); reflexivity|].
  split.
  { intros acts s' tr Hacts Hrun.
    destruct (idle_goroutines_run acts s1 s' tr Hacts Hrem Hall1 Hrun)
      as (K1 & K2 & K3 & _ & _ & K6 & K7).
    repeat split; try assumption; congruence. }
  split; [cbn [step]; rewrite Hg, Hle; reflexivity|].
  split; [exact Hall2|].
  intros a Ha.
  assert (Hno : forall k p, procs (setProc g Exited s1) !! k = Some p -> p = Exited)
    by (intros k p Hp; exact (Forall_lookup_1 _ _ _ _ Hall2 Hp)).
  destruct a as [b|d| |st|k|k|k|k]; try discriminate Ha; cbn [step];
    destruct (procs (setProc g Exited s1) !! k) as [p|] eqn:Hk; try reflexivity;
    rewrite (Hno k p Hk); reflexivity.
Qed.

Lemma nonpositive_duration_never_completes_witness :
  exists s1 tr1 s2,
    run (Start 0 true) (initState zeroSettings) = Next s1 tr1 /\
    readyRenders tr1 = 0%nat /\ beeps tr1 = 0%nat /\
    (forall acts s' tr,
       forallb isGoroutineAction acts = true -> run acts s1 = Next s' tr ->
       isRunning s' = true /\ remainingTime s' = 0 * Minute /\
       pomodoroCount s' = 0 /\
       readyRenders tr = 0%nat /\ beeps tr = 0%nat) /\
    step (AEnter 0) s1 = Next s2 [StopClockSound] /\
    Forall (fun p => p = Exited) (procs s2) /\
    (forall a, isGoroutineAction a = true -> step a s2 = Blocked).
Proof.
  apply (nonpositive_duration_never_completes (initState zeroSettings) 0 true).
  - exists zeroSettings, [], []. reflexivity.
  - constructor.
  - unfold maxMinutes. lia.
Defined.

End IdleGoroutines.

Section CounterFacts.

(** C3 fails on the code. [pomodoroCount] goes from 0 to 1 without the
    natural completion of a focus session, in two ways.  A pomodoro
    stopped from the tray icon in its last second, while its goroutine
    holds the last tick, is stopped ([isRunning] false, "Pomodoro
    stopped"), and the goroutine then runs the terminal branch all the
    same and counts it ("Finished pomodoro", one dot).  A break in its
    last second is counted as a pomodoro when "Start Pomodoro" has set
    [isInPomodoro] in its first critical section before the goroutine
    of the break runs its last locked body. *)
Theorem aborted_session_is_counted :
  (exists tr,
     run focusLastTick (initState defaultSettings) =
       Next (mkState 0 true true Second 0 [false] "1" defaultSettings [GotTick]) tr) /\
  step ATrayClick (mkState 0 true true Second 0 [false] "1" defaultSettings [GotTick]) =
    Next (mkState 0 false true Second 1 [true; false] "1" defaultSettings [GotTick])
         [SetIcon readyGlyph 0; SetTooltip "Pomodoro stopped - Click to start Break"] /\
  step (ABody 0%nat)
       (mkState 0 false true Second 1 [true; false] "1" defaultSettings [GotTick]) =
    Next (mkState 1 false true 0 1 [true; false] "1" defaultSettings [Exited])
         [SetTooltip "Finished pomodoro - Click to start break"; SetIcon readyGlyph 1;
          PlayTickSound; StopClockSound] /\
  (exists tr,
     run breakLastTick (initState defaultSettings) =
       Next (mkState 0 true false Second 0 [false] "1" defaultSettings [GotTick]) tr) /\
  step (ASetKind true) (mkState 0 true false Second 0 [false] "1" defaultSettings [GotTick]) =
    Next (mkState 0 true true Second 0 [false] "1" defaultSettings [GotTick]) [] /\
  step (ABody 0%nat) (mkState 0 true true Second 0 [false] "1" defaultSettings [GotTick]) =
    Next (mkState 1 false true 0 0 [false] "1" defaultSettings [Exited])
         [SetTooltip "Finished pomodoro - Click to start break"; SetIcon readyGlyph 1;
          PlayTickSound; StopClockSound].
Proof.
  split; [eexists; vm_compute; reflexivity|].
  split; [vm_compute; reflexivity|].
  split; [vm_compute; reflexivity|].
  split; [eexists; vm_compute; reflexivity|].
  split; vm_compute; reflexivity.
Qed.

End CounterFacts.
